(** * A shallow embedding of the hh.ru vacancy scraper (api.py)

    The client [ApiHhRu] is a sequential Python program: authenticated GETs
    with one refresh-and-retry on 401, a pagination loop, a same-day
    de-duplicating writer and the sweep that ties them together.  Every
    method is transcribed below as a computation in a small state and
    exception monad over an explicit [world]; everything the program cannot
    control (the HTTP servers, the clock, the faults of the document store)
    is read from an [env] of oracles indexed by a global call counter. *)

From Stdlib Require Import String Ascii List ZArith Bool Arith Lia.
Import ListNotations.
Local Open Scope string_scope.
Local Open Scope list_scope.
Set Warnings "-register-all".

(** ** JSON values, as [response.json()] produces them

    Numbers are integers; JSON floats are not represented. *)

Inductive json : Type :=
| JNull
| JBool (b : bool)
| JInt (n : Z)
| JStr (s : string)
| JList (l : list json)
| JDict (d : list (string * json)).

(** A Python [dict] with string keys, in insertion order. *)
Definition dict : Type := list (string * json).

Fixpoint dict_get (k : string) (d : dict) : option json :=
  match d with
  | [] => None
  | (k', v) :: d' => if String.eqb k k' then Some v else dict_get k d'
  end.

Fixpoint dict_set (k : string) (v : json) (d : dict) : dict :=
  match d with
  | [] => [(k, v)]
  | (k', v') :: d' =>
      if String.eqb k k' then (k, v) :: d' else (k', v') :: dict_set k v d'
  end.

(** Structural equality, used by the document store to compare fields. *)
Fixpoint json_eqb (a b : json) : bool :=
  match a, b with
  | JNull, JNull => true
  | JBool x, JBool y => Bool.eqb x y
  | JInt x, JInt y => Z.eqb x y
  | JStr x, JStr y => String.eqb x y
  | JList xs, JList ys =>
      (fix go (xs ys : list json) : bool :=
         match xs, ys with
         | [], [] => true
         | x :: xs', y :: ys' => json_eqb x y && go xs' ys'
         | _, _ => false
         end) xs ys
  | JDict xs, JDict ys =>
      (fix go (xs ys : list (string * json)) : bool :=
         match xs, ys with
         | [], [] => true
         | (k, x) :: xs', (k', y) :: ys' =>
             String.eqb k k' && json_eqb x y && go xs' ys'
         | _, _ => false
         end) xs ys
  | _, _ => false
  end.

(** ** Python's exceptions and the outcome of a computation *)

Inductive exn : Type :=
| KeyError (k : string)
| TypeError
| AttributeError
| RequestException     (* requests.exceptions.RequestException and subclasses *)
| PyMongoError         (* what [db.insert_one] raises *)
| OSError.             (* what [set_key] raises when the file is not writable *)

(** [OutOfFuel] is not a Python exception: it marks a loop that was cut off by
    its fuel, and no handler catches it. *)
Inductive outcome (A : Type) : Type :=
| Ret (a : A)
| Raise (e : exn)
| OutOfFuel.
Arguments Ret {A} a.
Arguments Raise {A} e.
Arguments OutOfFuel {A}.

Definition obind {A B} (o : outcome A) (k : A -> outcome B) : outcome B :=
  match o with
  | Ret a => k a
  | Raise e => Raise e
  | OutOfFuel => OutOfFuel
  end.

(** ** Python primitives on JSON values *)

(** [bool(x)] *)
Definition py_bool (j : json) : bool :=
  match j with
  | JNull => false
  | JBool b => b
  | JInt n => negb (Z.eqb n 0)
  | JStr s => negb (String.eqb s EmptyString)
  | JList l => match l with [] => false | _ => true end
  | JDict d => match d with [] => false | _ => true end
  end.

(** [x[k]] for a string key [k] *)
Definition py_getitem (j : json) (k : string) : outcome json :=
  match j with
  | JDict d => match dict_get k d with Some v => Ret v | None => Raise (KeyError k) end
  | _ => Raise TypeError
  end.

(** [x[k] = v]; only a dict supports assignment at a string key.  The dict is
    mutated in place in Python; here the updated dict is returned. *)
Definition py_setitem (j : json) (k : string) (v : json) : outcome dict :=
  match j with
  | JDict d => Ret (dict_set k v d)
  | _ => Raise TypeError
  end.

(** [x.get(k, default)]; only a dict has the method. *)
Definition py_get (j : json) (k : string) (default : json) : outcome json :=
  match j with
  | JDict d => Ret (match dict_get k d with Some v => v | None => default end)
  | _ => Raise AttributeError
  end.

(** A Python [str] is a sequence of code points; a string of the model is
    its UTF-8 encoding.  A byte [10xxxxxx] continues the code point that the
    lead byte before it began. *)
Definition is_continuation (c : ascii) : bool :=
  match c with
  | Ascii _ _ _ _ _ _ b6 b7 => (b7 && negb b6)%bool
  end.

(** The continuation bytes at the head of [s]. *)
Fixpoint continuation (s : string) : string :=
  match s with
  | EmptyString => EmptyString
  | String c s' =>
      if is_continuation c then String c (continuation s') else EmptyString
  end.

(** The characters of a string, one code point each. *)
Fixpoint chars (s : string) : list json :=
  match s with
  | EmptyString => []
  | String c s' =>
      if is_continuation c then chars s'
      else JStr (String c (continuation s')) :: chars s'
  end.

(** [iter(x)], materialised: a list yields its elements, a dict its keys, a
    string its characters. *)
Definition py_iter (j : json) : outcome (list json) :=
  match j with
  | JList l => Ret l
  | JDict d => Ret (map (fun kv => JStr (fst kv)) d)
  | JStr s => Ret (chars s)
  | _ => Raise TypeError
  end.

(** [x == s] for a Python [str] s: only an equal string is equal to it. *)
Definition py_eq_str (j : json) (s : string) : bool :=
  match j with
  | JStr t => String.eqb t s
  | _ => false
  end.

Definition is_substring (k s : string) : bool :=
  match index 0 k s with Some _ => true | None => false end.

(** [k in x] for a string [k] *)
Definition py_contains (k : string) (j : json) : outcome bool :=
  match j with
  | JDict d => Ret (match dict_get k d with Some _ => true | None => false end)
  | JList l => Ret (existsb (fun x => py_eq_str x k) l)
  | JStr s => Ret (is_substring k s)
  | _ => Raise TypeError
  end.

(** [page < x] for a Python [int] page; [True] and [False] are the integers
    1 and 0, everything else that JSON can carry is not ordered with [int]. *)
Definition py_lt (page : nat) (j : json) : outcome bool :=
  match j with
  | JInt n => Ret (Z.ltb (Z.of_nat page) n)
  | JBool b => Ret (Z.ltb (Z.of_nat page) (if b then 1 else 0))
  | _ => Raise TypeError
  end.

(** Members of a Python [set] must be hashable; lists and dicts are not. *)
Definition hashable (j : json) : bool :=
  match j with
  | JList _ | JDict _ => false
  | _ => true
  end.

(** [==] on hashable JSON values ([True == 1] and [False == 0] hold). *)
Definition py_eq_atom (a b : json) : bool :=
  match a, b with
  | JNull, JNull => true
  | JBool x, JBool y => Bool.eqb x y
  | JBool x, JInt n => Z.eqb n (if x then 1 else 0)
  | JInt n, JBool x => Z.eqb n (if x then 1 else 0)
  | JInt x, JInt y => Z.eqb x y
  | JStr x, JStr y => String.eqb x y
  | _, _ => false
  end.

(** A Python [set], as the list of its members; [x in s]. *)
Definition set_contains (s : list json) (x : json) : outcome bool :=
  if hashable x then Ret (existsb (py_eq_atom x) s) else Raise TypeError.

(** ** The world *)

(** The requests the client makes.  URLs and query parameters are kept
    structured: [Vacancies area role page per_page] is
    [GET BASE_URL/vacancies?area=..&professional_role=..&page=..&per_page=..]. *)
Inductive endpoint : Type :=
| Countries
| AreaTree (country_url : json)
| ProfessionalRoles
| Vacancies (area role : json) (page per_page : nat).

(** What [requests.get] / [requests.post] does: raise, or return a response.
    Bodies are taken to be JSON documents. *)
Inductive reply : Type :=
| ConnectionFailed
| Response (status_code : Z) (body : json).

(** The texts handed to [bot_send_message], by the values they are built from. *)
Inductive message : Type :=
| MsgProcessingArea (name id : json)
| MsgFetchingRole (name id : json)
| MsgSummary (inserted duplicates : nat).

Inductive event : Type :=
| EvGet (e : endpoint) (authorization : json)
| EvPostToken
| EvSetKey (tok : json)
| EvNotify (m : message)
| EvFind (id entry_date : json)
| EvInsert (doc : dict) (raised : bool).

(** Oracles for everything outside the program, indexed by the number of
    external calls made so far. *)
Record env : Type := Env {
  http_get : nat -> endpoint -> json -> reply;
  oauth_post : nat -> reply;
  telegram_fails : nat -> message -> bool;
  utcnow : nat -> string;          (* already formatted as DD.MM.YYYY *)
  insert_fails : nat -> dict -> bool;
  set_key_fails : nat -> bool
}.

(** The mutable state: the client object ([ACCESS_TOKEN], [headers]: the
    token carried by the [Authorization: Bearer] header), the [.env] entry
    [HH_RU_ACCESS_TOKEN], the collection [db], and the log of external calls
    (newest first). *)
Record world : Type := World {
  tick : nat;
  ACCESS_TOKEN : json;
  headers : json;
  dotenv : json;
  db : list dict;
  trace : list event
}.

Definition M (A : Type) : Type := world -> outcome A * world.

Definition ret {A} (a : A) : M A := fun w => (Ret a, w).
Definition raise {A} (e : exn) : M A := fun w => (Raise e, w).
Definition out_of_fuel {A} : M A := fun w => (OutOfFuel, w).
Definition lift {A} (o : outcome A) : M A := fun w => (o, w).

Definition bind {A B} (m : M A) (k : A -> M B) : M B :=
  fun w =>
    match m w with
    | (Ret a, w') => k a w'
    | (Raise e, w') => (Raise e, w')
    | (OutOfFuel, w') => (OutOfFuel, w')
    end.

Declare Scope py_scope.
Delimit Scope py_scope with py.
Notation "x <- m ;; k" := (bind m (fun x => k))
  (at level 100, m at next level, right associativity) : py_scope.
Notation "m ;;; k" := (bind m (fun _ => k))
  (at level 100, right associativity) : py_scope.
Local Open Scope py_scope.

(** [try: body except <catches> as e: handler e]; the effects of [body] up to
    the raise are kept. *)
Definition try_except {A} (body : M A) (catches : exn -> bool)
    (handler : exn -> M A) : M A :=
  fun w =>
    match body w with
    | (Raise e, w') => if catches e then handler e w' else (Raise e, w')
    | r => r
    end.

Definition is_RequestException (e : exn) : bool :=
  match e with RequestException => true | _ => false end.

Definition is_Exception (e : exn) : bool := true.

(** One external call: log it and advance the counter. *)
Definition emit (ev : event) : M unit :=
  fun w => (Ret tt, World (S (tick w)) (ACCESS_TOKEN w) (headers w) (dotenv w)
                          (db w) (ev :: trace w)).

Definition get_tick : M nat := fun w => (Ret (tick w), w).

(** ** The program *)

Definition COUNTRY : string := "Россия".

Section ApiHhRu.

(** The outside world, and the [areas] the client was constructed with. *)
Variable E : env.
Variable AREAS : list string.

(** [bot_send_message]: [requests.post] to the Telegram endpoint; nothing
    catches what it raises. *)
Definition bot_send_message (m : message) : M unit :=
  t <- get_tick ;;
  emit (EvNotify m) ;;;
  if telegram_fails E t m then raise RequestException else ret tt.

(** [requests.post(url, data=data)] on the OAuth endpoint. *)
Definition requests_post_token : M reply :=
  t <- get_tick ;;
  emit EvPostToken ;;;
  match oauth_post E t with
  | ConnectionFailed => raise RequestException
  | r => ret r
  end.

(** [requests.get(url, headers=self.headers, params=params)] *)
Definition requests_get (e : endpoint) : M reply :=
  t <- get_tick ;;
  fun w =>
    (emit (EvGet e (headers w)) ;;;
     match http_get E t e (headers w) with
     | ConnectionFailed => raise RequestException
     | r => ret r
     end) w.

Definition status_code_of (r : reply) : Z :=
  match r with Response c _ => c | ConnectionFailed => 0%Z end.

Definition json_of (r : reply) : json :=
  match r with Response _ b => b | ConnectionFailed => JNull end.

(** [response.raise_for_status()]: HTTPError for a 4xx or 5xx status. *)
Definition raise_for_status (r : reply) : M unit :=
  let c := status_code_of r in
  if (Z.leb 400 c && Z.ltb c 600)%bool then raise RequestException else ret tt.


Definition set_ACCESS_TOKEN (tok : json) : M unit :=
  fun w => (Ret tt, World (tick w) tok (headers w) (dotenv w) (db w) (trace w)).

Definition set_Authorization (tok : json) : M unit :=
  fun w => (Ret tt, World (tick w) (ACCESS_TOKEN w) tok (dotenv w) (db w) (trace w)).

(** [set_key(find_dotenv(), 'HH_RU_ACCESS_TOKEN', tok)].  python-dotenv
    quotes the value with [value_to_set.replace] before it opens the file:
    a value that is not a [str] raises [AttributeError] and the file is not
    touched; for a [str] the file is rewritten, which can fail. *)
Definition set_key (tok : json) : M unit :=
  match tok with
  | JStr _ =>
      t <- get_tick ;;
      emit (EvSetKey tok) ;;;
      if set_key_fails E t then raise OSError
      else fun w => (Ret tt, World (tick w) (ACCESS_TOKEN w) (headers w) tok
                                   (db w) (trace w))
  | _ => raise AttributeError
  end.

Definition refresh_access_token : M bool :=
  try_except
    (response <- requests_post_token ;;
     raise_for_status response ;;;
     let tokens := json_of response in
     new_access_token <- lift (py_get tokens "access_token" JNull) ;;
     if py_bool new_access_token then
       set_ACCESS_TOKEN new_access_token ;;;
       set_Authorization new_access_token ;;;
       set_key new_access_token ;;;
       ret true
     else ret false)
    is_RequestException
    (fun _ => ret false).

(** [_get]: [None] is [JNull]. *)
Definition _get (e : endpoint) : M json :=
  try_except
    (response <- requests_get e ;;
     let finish (response : reply) : M json :=
       raise_for_status response ;;; ret (json_of response) in
     if Z.eqb (status_code_of response) 401 then
       refreshed <- refresh_access_token ;;
       if refreshed then response <- requests_get e ;; finish response
       else ret JNull
     else finish response)
    is_RequestException
    (fun _ => ret JNull).

Definition fetch_countries : M json :=
  r <- _get Countries ;;
  ret (if py_bool r then r else JList []).

(** [next((country['url'] for country in countries
           if country['name'] == country_name), '')] on the elements that
    iterating [countries] yields. *)
Fixpoint first_country_url (countries : list json) (country_name : string)
    : outcome json :=
  match countries with
  | [] => Ret (JStr EmptyString)
  | country :: rest =>
      obind (py_getitem country "name") (fun name =>
        if py_eq_str name country_name then py_getitem country "url"
        else first_country_url rest country_name)
  end.

Definition find_country_url (country_name : string) : M json :=
  countries <- fetch_countries ;;
  lift (obind (py_iter countries) (fun cs => first_country_url cs country_name)).

(** [[area for area in l if area['name'] in self.AREAS]] *)
Fixpoint areas_in_config (l : list json) : outcome (list json) :=
  match l with
  | [] => Ret []
  | area :: rest =>
      obind (py_getitem area "name") (fun name =>
        obind (areas_in_config rest) (fun kept =>
          Ret (if existsb (py_eq_str name) AREAS then area :: kept else kept)))
  end.

Definition fetch_areas : M (list json) :=
  country_url <- find_country_url COUNTRY ;;
  if negb (py_bool country_url) then ret []
  else
    areas <- _get (AreaTree country_url) ;;
    if py_bool areas then
      lift (obind (py_get areas "areas" (JList [])) (fun sub =>
            obind (py_iter sub) areas_in_config))
    else ret [].

Definition fetch_professional_roles : M json :=
  roles <- _get ProfessionalRoles ;;
  if py_bool roles then lift (py_get roles "categories" (JList []))
  else ret (JList []).

Definition get_vacancies (area_id professional_role_id : json) (page : nat)
    : M json :=
  _get (Vacancies area_id professional_role_id page 100).

(** The [while page < total_pages] loop of [fetch_all_vacancies]; each
    iteration of the body uses one unit of [fuel]. *)
Fixpoint fetch_all_loop (fuel : nat) (area_id professional_role_id : json)
    (vacancies : list json) (page : nat) (total_pages : json)
    : M (list json) :=
  again <- lift (py_lt page total_pages) ;;
  if again then
    match fuel with
    | O => out_of_fuel
    | S fuel' =>
        data <- get_vacancies area_id professional_role_id page ;;
        stop <- (if negb (py_bool data) then ret true
                 else has <- lift (py_contains "items" data) ;; ret (negb has)) ;;
        if stop then ret vacancies
        else
          items <- lift (obind (py_getitem data "items") py_iter) ;;
          total_pages' <- lift (py_get data "pages" (JInt 1)) ;;
          fetch_all_loop fuel' area_id professional_role_id
            (vacancies ++ items) (S page) total_pages'
    end
  else ret vacancies.

Definition fetch_all_vacancies (fuel : nat) (area_id professional_role_id : json)
    : M (list json) :=
  fetch_all_loop fuel area_id professional_role_id [] 0 (JInt 1).

(** [datetime.utcnow().strftime('%d.%m.%Y')] *)
Definition utcnow_strftime : M string :=
  fun w => (Ret (utcnow E (tick w)),
            World (S (tick w)) (ACCESS_TOKEN w) (headers w) (dotenv w) (db w)
                  (trace w)).

(** Modelled from the spec: the module [dbConnection] is not part of the
    sources; the spec describes [db] as a collection with a point query by
    compound field equality and a single-document insert whose failure is
    an exception. *)
Definition matches (id entry_date : json) (doc : dict) : bool :=
  match dict_get "id" doc, dict_get "entry_date" doc with
  | Some i, Some d => (json_eqb i id && json_eqb d entry_date)%bool
  | _, _ => false
  end.

(** Modelled from the spec: [db.find_one({"id": .., "entry_date": ..})],
    the first matching document or [None]. *)
Definition find_one (id entry_date : json) : M (option dict) :=
  emit (EvFind id entry_date) ;;;
  fun w => (Ret (find (matches id entry_date) (db w)), w).

(** Modelled from the spec: [db.insert_one(doc)] appends the document, or
    raises and stores nothing. *)
Definition insert_one (doc : dict) : M unit :=
  t <- get_tick ;;
  if insert_fails E t doc then emit (EvInsert doc true) ;;; raise PyMongoError
  else
    emit (EvInsert doc false) ;;;
    fun w => (Ret tt, World (tick w) (ACCESS_TOKEN w) (headers w) (dotenv w)
                            (db w ++ [doc]) (trace w)).

Definition truthy_doc (found : option dict) : bool :=
  match found with
  | Some doc => py_bool (JDict doc)
  | None => false
  end.

(** The body of the [for vacancy in vacancies] loop of
    [save_vacancies_to_db], on the counters [(inserted, duplicates)]. *)
Definition save_vacancy (area_name : json) (vacancy : json) (counts : nat * nat)
    : M (nat * nat) :=
  let '(inserted, duplicates) := counts in
  today <- utcnow_strftime ;;
  stamped <- lift (py_setitem vacancy "entry_date" (JStr today)) ;;
  stamped <- lift (py_setitem (JDict stamped) "area_name" area_name) ;;
  id <- lift (py_getitem (JDict stamped) "id") ;;
  entry_date <- lift (py_getitem (JDict stamped) "entry_date") ;;
  found <- find_one id entry_date ;;
  if truthy_doc found then ret (inserted, S duplicates)
  else
    try_except
      (insert_one stamped ;;; ret (S inserted, duplicates))
      is_Exception
      (fun _ =>
         (* logging.error(f"Error saving vacancy {vacancy['url']}: {e}") *)
         _ <- lift (py_getitem (JDict stamped) "url") ;;
         ret (inserted, duplicates)).

Fixpoint save_loop (area_name : json) (vacancies : list json)
    (counts : nat * nat) : M (nat * nat) :=
  match vacancies with
  | [] => ret counts
  | vacancy :: rest =>
      counts' <- save_vacancy area_name vacancy counts ;;
      save_loop area_name rest counts'
  end.

Definition save_vacancies_to_db (vacancies : list json) (area_name : json)
    : M unit :=
  counts <- save_loop area_name vacancies (0, 0) ;;
  bot_send_message (MsgSummary (fst counts) (snd counts)).

(** The inner loop of the role de-duplication: [seen] is [unique_role_ids],
    the result carries the updated set and [unique_roles_in_category]. *)
Fixpoint unique_roles (seen : list json) (roles : list json)
    : outcome (list json * list json) :=
  match roles with
  | [] => Ret (seen, [])
  | role :: rest =>
      obind (py_getitem role "id") (fun role_id =>
      obind (set_contains seen role_id) (fun dup =>
        if dup then unique_roles seen rest
        else
          obind (unique_roles (role_id :: seen) rest) (fun r =>
            Ret (fst r, role :: snd r))))
  end.

(** The outer loop; each element of the result is the list under ['roles']
    of one entry of [filtered_roles]. *)
Fixpoint filter_roles (seen : list json) (categories : list json)
    : outcome (list (list json)) :=
  match categories with
  | [] => Ret []
  | category :: rest =>
      obind (obind (py_getitem category "roles") py_iter) (fun roles =>
      obind (unique_roles seen roles) (fun r =>
      obind (filter_roles (fst r) rest) (fun filtered =>
        Ret (match snd r with
             | [] => filtered
             | _ => snd r :: filtered
             end))))
  end.

Definition filtered_roles_of (professional_roles : json)
    : outcome (list (list json)) :=
  obind (py_iter professional_roles) (filter_roles []).

Fixpoint for_each {A} (l : list A) (body : A -> M unit) : M unit :=
  match l with
  | [] => ret tt
  | x :: rest => body x ;;; for_each rest body
  end.

Definition process_role (fuel : nat) (area role : json) : M unit :=
  role_name <- lift (py_getitem role "name") ;;
  role_id <- lift (py_getitem role "id") ;;
  bot_send_message (MsgFetchingRole role_name role_id) ;;;
  area_id <- lift (py_getitem area "id") ;;
  role_id <- lift (py_getitem role "id") ;;
  vacancies <- fetch_all_vacancies fuel area_id role_id ;;
  area_name <- lift (py_getitem area "name") ;;
  save_vacancies_to_db vacancies area_name.

Definition process_area (fuel : nat) (filtered_roles : list (list json))
    (area : json) : M unit :=
  area_name <- lift (py_getitem area "name") ;;
  area_id <- lift (py_getitem area "id") ;;
  bot_send_message (MsgProcessingArea area_name area_id) ;;;
  for_each filtered_roles (fun roles =>
    for_each roles (process_role fuel area)).

Definition fetch_and_store_vacancies (fuel : nat) : M unit :=
  areas <- fetch_areas ;;
  if negb (py_bool (JList areas)) then ret tt
  else
    professional_roles <- fetch_professional_roles ;;
    if negb (py_bool professional_roles) then ret tt
    else
      filtered_roles <- lift (filtered_roles_of professional_roles) ;;
      for_each areas (process_area fuel filtered_roles).

End ApiHhRu.


(** ** Vocabulary of the statements *)

(** A country entry whose name is exactly [name], and one with another name. *)
Definition named (name : string) (country : json) : Prop :=
  py_getitem country "name" = Ret (JStr name).

Definition named_otherwise (name : string) (country : json) : Prop :=
  exists n, py_getitem country "name" = Ret n /\ n <> JStr name.

(** The id under which a role enters [unique_role_ids]. *)
Definition role_id (role : json) : option json :=
  match py_getitem role "id" with
  | Ret i => if hashable i then Some i else None
  | _ => None
  end.

Definition same_role_id (r r' : json) : bool :=
  match role_id r, role_id r' with
  | Some i, Some j => py_eq_atom i j
  | _, _ => false
  end.

(** The roles of one category that survive: the role at position [k] is kept
    exactly when its id occurs neither among the roles of the [earlier]
    categories nor among the first [k] roles of its own category. *)
Definition first_occurrences (earlier roles : list json) : list json :=
  map snd
    (filter (fun kr => negb (existsb (same_role_id (snd kr))
                               (earlier ++ firstn (fst kr) roles)))
            (combine (seq 0 (length roles)) roles)).

(** The survivors of every category, category by category. *)
Definition surviving (groups : list (list json)) : list (list json) :=
  map (fun i => first_occurrences (concat (firstn i groups)) (nth i groups []))
      (seq 0 (length groups)).

Definition nonempty {A} (l : list A) : bool :=
  match l with [] => false | _ => true end.

(** The same, by recursion on the categories ([earlier]: the roles of the
    categories already passed). *)
Fixpoint surviving_from (earlier : list json) (groups : list (list json))
    : list (list json) :=
  match groups with
  | [] => []
  | g :: gs => first_occurrences earlier g :: surviving_from (earlier ++ g) gs
  end.

(** [unique_role_ids] holds an id equal to that of [r] exactly when a role of
    [earlier] has one. *)
Definition covers (seen earlier : list json) : Prop :=
  forall r i, role_id r = Some i ->
    existsb (py_eq_atom i) seen = existsb (same_role_id r) earlier.

(** The world after one logged external call. *)
Definition after_event (ev : event) (w : world) : world :=
  World (S (tick w)) (ACCESS_TOKEN w) (headers w) (dotenv w) (db w)
        (ev :: trace w).

Definition is_post (ev : event) : bool :=
  match ev with EvPostToken => true | _ => false end.

Definition is_get (ev : event) : bool :=
  match ev with EvGet _ _ => true | _ => false end.

Definition count_posts (tr : list event) : nat := length (filter is_post tr).
Definition count_gets (tr : list event) : nat := length (filter is_get tr).

(** An HTTP error status, for which [raise_for_status] raises. *)
Definition error_status (c : Z) : bool := (Z.leb 400 c && Z.ltb c 600)%bool.

(** What [_get] makes of the reply to its last GET. *)
Definition absorbed (r : reply) : json :=
  match r with
  | ConnectionFailed => JNull
  | Response c body => if error_status c then JNull else body
  end.

(** A page on which [fetch_all_vacancies] gives up: [not data or 'items' not
    in data]. *)
Definition stops (data : json) : Prop :=
  py_bool data = false \/ py_contains "items" data = Ret false.

(** Every page of the area and role is answered by an object that carries
    the list [items p] of page [p] and the same total [P]. *)
Definition reports_pages (E : env) (area role : json) (P : Z)
    (items : nat -> list json) : Prop :=
  forall p w, exists d w',
    get_vacancies E area role p w = (Ret (JDict d), w')
    /\ dict_get "items" d = Some (JList (items p))
    /\ dict_get "pages" d = Some (JInt P).

(** Every page that carries items reports the total [P]; any other answer
    is absent or lacks the items. *)
Definition consistent_or_malformed (E : env) (area role : json) (P : Z) : Prop :=
  forall p w d w',
    get_vacancies E area role p w = (Ret (JDict d), w') ->
    dict_get "items" d <> None ->
    dict_get "pages" d = Some (JInt P).

(** The number of pages the loop requests when the total is [P]. *)
Definition pages_fetched (P : Z) : nat := Z.to_nat (Z.max P 1).

(** The document that [save_vacancies_to_db] makes of a listing. *)
Definition stamp (today : string) (area_name : json) (d : dict) : dict :=
  dict_set "area_name" area_name (dict_set "entry_date" (JStr today) d).

(** Two documents with the same id and the same entry date. *)
Definition same_key (doc1 doc2 : dict) : Prop :=
  exists id entry_date,
    dict_get "id" doc1 = Some id /\ dict_get "entry_date" doc1 = Some entry_date
    /\ dict_get "id" doc2 = Some id /\ dict_get "entry_date" doc2 = Some entry_date.

(** No two stored documents share an [(id, entry_date)] pair. *)
Definition unique_keys (store : list dict) : Prop :=
  forall i j doc1 doc2,
    nth_error store i = Some doc1 -> nth_error store j = Some doc2 ->
    same_key doc1 doc2 -> i = j.

(** A stored document with the given id and entry date exists. *)
Definition stored (store : list dict) (id entry_date : json) : Prop :=
  exists doc, In doc store
    /\ dict_get "id" doc = Some id /\ dict_get "entry_date" doc = Some entry_date.

Definition is_failed_insert (ev : event) : bool :=
  match ev with EvInsert _ true => true | _ => false end.

Definition is_notify (ev : event) : bool :=
  match ev with EvNotify _ => true | _ => false end.

Definition is_find (ev : event) : bool :=
  match ev with EvFind _ _ => true | _ => false end.

(** The number of [insert_one] calls that raised. *)
Definition failed_inserts (tr : list event) : nat :=
  length (filter is_failed_insert tr).

(** The requests of the list-resolution steps and of the token refresh:
    anything but a vacancy request, a notification or a store operation. *)
Definition is_lookup (ev : event) : Prop :=
  match ev with
  | EvGet (Vacancies _ _ _ _) _ => False
  | EvGet _ _ | EvPostToken | EvSetKey _ => True
  | _ => False
  end.

(** [w'] is reached from [w] by lookups only. *)
Definition only_lookups (w w' : world) : Prop :=
  db w' = db w /\ exists new, trace w' = new ++ trace w /\ Forall is_lookup new.

(** A computation that only makes lookups, from any world. *)
Definition quiet {A} (m : M A) : Prop :=
  forall w, only_lookups w (snd (m w)).

Definition not_vacancies (e : endpoint) : Prop :=
  match e with Vacancies _ _ _ _ => False | _ => True end.

(** The units of work the sweep announces, oldest first. *)
Definition visit_of (ev : event) : list message :=
  match ev with
  | EvNotify (MsgProcessingArea n i) => [MsgProcessingArea n i]
  | EvNotify (MsgFetchingRole n i) => [MsgFetchingRole n i]
  | _ => []
  end.

Definition visits (tr : list event) : list message := flat_map visit_of (rev tr).

(** [m], run from [w], returns a value satisfying [post] after announcing
    exactly the units [ms]. *)
Definition returns {A} (m : M A) (w : world) (ms : list message)
    (post : A -> Prop) : Prop :=
  exists a w' new,
    m w = (Ret a, w') /\ trace w' = new ++ trace w /\ visits new = ms /\ post a.

(** A listing that carries an id and a url. *)
Definition good_listing (v : json) : Prop :=
  exists d, v = JDict d /\ dict_get "id" d <> None /\ dict_get "url" d <> None.

(** A page body the loop can digest: falsy, or an object whose items, if
    any, are a list of good listings and whose total, if any, is an integer
    not above [B]. *)
Definition good_page (B : Z) (body : json) : Prop :=
  py_bool body = false
  \/ exists d, body = JDict d
       /\ match dict_get "items" d with
          | None => True
          | Some items =>
              (exists l, items = JList l /\ Forall good_listing l)
              /\ match dict_get "pages" d with
                 | None => True
                 | Some p => exists n, p = JInt n /\ (n <= B)%Z
                 end
          end.

(** A token response the refresh can digest: a JSON object whose access
    token, if it has a truthy one, is a string. *)
Definition good_token_response (body : json) : Prop :=
  exists d, body = JDict d
    /\ match dict_get "access_token" d with
       | Some tok => py_bool tok = false \/ exists s, tok = JStr s
       | None => True
       end.

(** An environment in which GETs and inserts may fail at will, but the
    notifier and the configuration store do not, token responses that
    arrive are [good_token_response]s and vacancy pages that arrive are
    [good_page]s. *)
Definition fail_soft (E : env) (B : Z) : Prop :=
  (forall t m, telegram_fails E t m = false)
  /\ (forall t, set_key_fails E t = false)
  /\ (forall t, match oauth_post E t with
                | ConnectionFailed => True
                | Response c body =>
                    error_status c = true \/ good_token_response body
                end)
  /\ (forall t area role page per_page auth,
        match http_get E t (Vacancies area role page per_page) auth with
        | ConnectionFailed => True
        | Response c body => error_status c = true \/ good_page B body
        end).

(** An area or role entry with the two fields the sweep reads. *)
Definition entry (name id : json) (x : json) : Prop :=
  py_getitem x "name" = Ret name /\ py_getitem x "id" = Ret id.

Definition has_entry (x : json) : Prop := exists name id, entry name id x.

Definition name_of (x : json) : json :=
  match py_getitem x "name" with Ret v => v | _ => JNull end.

Definition id_of (x : json) : json :=
  match py_getitem x "id" with Ret v => v | _ => JNull end.

(** The announcements of a full sweep over [areas] and the surviving roles. *)
Definition sweep_plan (areas : list json) (filtered_roles : list (list json))
    : list message :=
  flat_map (fun area =>
              MsgProcessingArea (name_of area) (id_of area)
              :: map (fun role => MsgFetchingRole (name_of role) (id_of role))
                     (concat filtered_roles))
           areas.

(** [step x] taken for each element of [l] in turn, from [w] to [w']. *)
Fixpoint in_turn {A} (step : A -> world -> world -> Prop) (l : list A)
    (w w' : world) : Prop :=
  match l with
  | [] => w' = w
  | x :: rest => exists w1, step x w w1 /\ in_turn step rest w1 w'
  end.

(** One unit of work, from [w] to [w']: the role is announced, the listings
    of the area and role are fetched, the batch writer is run on exactly
    these listings under the name of the area, looks every one of them up
    in the store and closes the batch with a summary that accounts for each
    of them. *)
Definition unit_of_work (E : env) (fuel : nat) (area role : json)
    (w w' : world) : Prop :=
  exists vacancies w1 calls inserted duplicates,
    fetch_all_vacancies E fuel (id_of area) (id_of role)
      (after_event (EvNotify (MsgFetchingRole (name_of role) (id_of role))) w)
    = (Ret vacancies, w1)
    /\ save_vacancies_to_db E vacancies (name_of area) w1 = (Ret tt, w')
    /\ trace w'
       = EvNotify (MsgSummary inserted duplicates) :: calls ++ trace w1
    /\ length (filter is_find calls) = length vacancies
    /\ filter is_notify calls = []
    /\ inserted + duplicates + failed_inserts calls = length vacancies.

(** One area, from [w] to [w']: the area is announced and every surviving
    role is worked in turn. *)
Definition area_of_work (E : env) (fuel : nat)
    (filtered_roles : list (list json)) (area : json) (w w' : world) : Prop :=
  in_turn (unit_of_work E fuel area) (concat filtered_roles)
    (after_event (EvNotify (MsgProcessingArea (name_of area) (id_of area))) w)
    w'.

(** The full sweep, from [w] to [w']: every area in turn. *)
Definition sweep_of_work (E : env) (fuel : nat) (areas : list json)
    (filtered_roles : list (list json)) (w w' : world) : Prop :=
  in_turn (area_of_work E fuel filtered_roles) areas w w'.

(** ** Concrete inputs used in the examples *)

Definition role_with_id (n : Z) : json := JDict [("id", JInt n)].

Definition category_of (roles : list json) : json :=
  JDict [("roles", JList roles)].

Definition two_categories : list json :=
  [category_of [role_with_id 1; role_with_id 2];
   category_of [role_with_id 2; role_with_id 3]].

Definition obj_country (name url : string) : json :=
  JDict [("name", JStr name); ("url", JStr url)].

Definition two_countries : list json :=
  [obj_country "Украина" "https://api.hh.ru/areas/5";
   obj_country "Россия" "https://api.hh.ru/areas/113"].

Definition initial_world : world :=
  World 0 (JStr "t0") (JStr "t0") (JStr "t0") [] [].

(** A server that answers every request with status 200 and the body chosen
    by [body]; nothing ever fails. *)
Definition serving (body : endpoint -> json) : env :=
  Env (fun _ e _ => Response 200 (body e))
      (fun _ => Response 200 (JDict [("access_token", JStr "t1")]))
      (fun _ _ => false)
      (fun _ => "03.11.2026")
      (fun _ _ => false)
      (fun _ => false).

(** An OAuth endpoint that answers 200 with a JSON array. *)
Definition array_token_env : env :=
  Env (fun _ _ _ => Response 401 JNull)
      (fun _ => Response 200 (JList []))
      (fun _ _ => false)
      (fun _ => "03.11.2026")
      (fun _ _ => false)
      (fun _ => false).

(** A server whose first answer to anything is 401 and that accepts the
    refreshed token [t1]. *)
Definition expiring (body : endpoint -> json) : env :=
  Env (fun _ e auth => if json_eqb auth (JStr "t1") then Response 200 (body e)
                       else Response 401 JNull)
      (fun _ => Response 200 (JDict [("access_token", JStr "t1")]))
      (fun _ _ => false)
      (fun _ => "03.11.2026")
      (fun _ _ => false)
      (fun _ => false).

Definition listing (id : Z) : json :=
  JDict [("id", JInt id); ("url", JStr "https://api.hh.ru/vacancies/1")].

(** A page of [n] listings that reports [pages] pages in total. *)
Definition page_of (n : nat) (pages : Z) : json :=
  JDict [("items", JList (repeat (listing 7) n)); ("pages", JInt pages)].

(** Three pages: 100 listings on pages 0 and 1, 10 on page 2. *)
Definition three_pages (e : endpoint) : json :=
  match e with
  | Vacancies _ _ 2 _ => page_of 10 3
  | _ => page_of 100 3
  end.

Definition three_pages_items (p : nat) : list json :=
  match p with
  | 2 => repeat (listing 7) 10
  | _ => repeat (listing 7) 100
  end.

(** A document store that refuses every insert. *)
Definition refusing_store : env :=
  Env (fun _ _ _ => Response 200 JNull)
      (fun _ => Response 200 (JDict [("access_token", JStr "t1")]))
      (fun _ _ => false)
      (fun _ => "03.11.2026")
      (fun _ _ => true)
      (fun _ => false).

(** Listings that carry nothing but their id. *)
Definition bare_listing (id : Z) : json := JDict [("id", JInt id)].

(** A document store whose third external call, the first insert of a batch
    run from [initial_world], fails. *)
Definition flaky_store : env :=
  Env (fun _ _ _ => Response 200 JNull)
      (fun _ => Response 200 (JDict [("access_token", JStr "t1")]))
      (fun _ _ => false)
      (fun _ => "03.11.2026")
      (fun t _ => Nat.eqb t 2)
      (fun _ => false).

(** An upstream with one country, one configured area, one role and one
    page of one listing for every area and role. *)
Definition small_upstream (e : endpoint) : json :=
  match e with
  | Countries => JList two_countries
  | AreaTree _ =>
      JDict [("areas", JList [JDict [("id", JStr "1"); ("name", JStr "Москва")];
                              JDict [("id", JStr "2"); ("name", JStr "Казань")]])]
  | ProfessionalRoles =>
      JDict [("categories",
              JList [JDict [("roles",
                             JList [JDict [("id", JStr "96");
                                           ("name", JStr "Программист")]])]])]
  | Vacancies _ _ _ _ => page_of 1 1
  end.

(** The same upstream, with a notifier that cannot be reached. *)
Definition unreachable_notifier : env :=
  Env (fun _ e _ => Response 200 (small_upstream e))
      (fun _ => Response 200 (JDict [("access_token", JStr "t1")]))
      (fun _ _ => true)
      (fun _ => "03.11.2026")
      (fun _ _ => false)
      (fun _ => false).

(** The external calls of that batch on [listing 1; listing 2; listing 2],
    newest first: the first insert fails, the second succeeds, the third
    listing is a duplicate. *)
Definition flaky_batch_events : list event :=
  let doc id :=
    stamp "03.11.2026" (JStr "Москва")
          [("id", JInt id); ("url", JStr "https://api.hh.ru/vacancies/1")] in
  [EvNotify (MsgSummary 1 1);
   EvFind (JInt 2) (JStr "03.11.2026");
   EvInsert (doc 2%Z) false;
   EvFind (JInt 2) (JStr "03.11.2026");
   EvInsert (doc 1%Z) true;
   EvFind (JInt 1) (JStr "03.11.2026")].

(** The outcome is a return or an exception, not a loop cut off by its fuel. *)
Definition ran_to_end {A} (o : outcome A) : bool :=
  match o with OutOfFuel => false | _ => true end.

(** ** The client object and the entry point *)

(** [ApiHhRu.__init__(areas, token)]: the token is kept and put in the
    authorization header ([areas] is the section variable [AREAS] of the
    methods). *)
Definition ApiHhRu_init (token : json) (w : world) : world :=
  World (tick w) token token (dotenv w) (db w) (trace w).

(** [main.py], after [argparse] has produced the list of regions:
    [ApiHhRu(areas=regions).fetch_and_store_vacancies()], the token being
    the module constant [HH_RU_ACCESS_TOKEN]. *)
Definition main (E : env) (HH_RU_ACCESS_TOKEN : json) (regions : list string)
    (fuel : nat) : M unit :=
  fun w => fetch_and_store_vacancies E regions fuel
             (ApiHhRu_init HH_RU_ACCESS_TOKEN w).

(** ** Relations kept by every method *)

(** [m] relates every world to the world it leaves, whatever its outcome. *)
Definition keeps (R : world -> world -> Prop) {A} (m : M A) : Prop :=
  forall w, R w (snd (m w)).

(** A relation that the steps of the client respect: it is a preorder, and
    sending a notification, sending a GET, refreshing the token and handling
    one listing of a batch all stay within it. *)
Record step_invariant (E : env) (R : world -> world -> Prop) : Prop := {
  inv_refl : forall w, R w w;
  inv_trans : forall w1 w2 w3, R w1 w2 -> R w2 w3 -> R w1 w3;
  inv_notify : forall m w, R w (after_event (EvNotify m) w);
  inv_get : forall e w, R w (after_event (EvGet e (headers w)) w);
  inv_refresh : forall w, R w (snd (refresh_access_token E w));
  inv_save : forall area_name vacancy counts w,
      R w (snd (save_vacancy E area_name vacancy counts w))
}.

(** The authorization header carries the in-memory token afterwards if it
    did before. *)
Definition header_follows_token (w w' : world) : Prop :=
  headers w = ACCESS_TOKEN w -> headers w' = ACCESS_TOKEN w'.

(** A document as the batch writer stores it: a listing with an id, stamped. *)
Definition stamped_listing (doc : dict) : Prop :=
  exists today area_name d,
    doc = stamp today area_name d /\ dict_get "id" d <> None.

(** The collection afterwards is the collection before with stamped
    listings appended. *)
Definition store_grows (w w' : world) : Prop :=
  exists added, db w' = db w ++ added /\ Forall stamped_listing added.

(** A [set_key] that always fails, behind an OAuth endpoint that issues [t1]
    and a server that answers 401 until it sees that token. *)
Definition read_only_dotenv : env :=
  Env (fun _ e auth => if json_eqb auth (JStr "t1") then Response 200 JNull
                       else Response 401 JNull)
      (fun _ => Response 200 (JDict [("access_token", JStr "t1")]))
      (fun _ _ => false)
      (fun _ => "03.11.2026")
      (fun _ _ => false)
      (fun _ => true).

(** What [set_key] raises for a token it does not store: [AttributeError]
    for a value that is not a string, [OSError] when the file cannot be
    written. *)
Definition set_key_error (tok : json) : exn :=
  match tok with
  | JStr _ => OSError
  | _ => AttributeError
  end.

(** An OAuth endpoint that issues the number 5 as access token, behind a
    server that answers 401 to everything. *)
Definition numeric_token_env : env :=
  Env (fun _ _ _ => Response 401 JNull)
      (fun _ => Response 200 (JDict [("access_token", JInt 5)]))
      (fun _ _ => false)
      (fun _ => "03.11.2026")
      (fun _ _ => false)
      (fun _ => false).

(** A server that answers every GET with status 503. *)
Definition unavailable : env :=
  Env (fun _ _ _ => Response 503 JNull)
      (fun _ => Response 200 (JDict [("access_token", JStr "t1")]))
      (fun _ _ => false)
      (fun _ => "03.11.2026")
      (fun _ _ => false)
      (fun _ => false).

(** An area entry is kept by [fetch_areas] when its name is one of the
    configured strings. *)
Definition configured (AREAS : list string) (area : json) : bool :=
  existsb (py_eq_str (name_of area)) AREAS.

(** An upstream whose area tree contains an entry without a name. *)
Definition nameless_area_upstream (e : endpoint) : json :=
  match e with
  | Countries => JList two_countries
  | AreaTree _ =>
      JDict [("areas", JList [JDict [("id", JStr "1"); ("name", JStr "Москва")];
                              JDict [("id", JStr "2")]])]
  | _ => JNull
  end.

(** A server on which every page reports two pages more than its own index. *)
Definition ever_growing : env :=
  serving (fun e => match e with
                    | Vacancies _ _ p _ => page_of 1 (Z.of_nat p + 2)
                    | _ => JNull
                    end).

(** Three pages are announced, but the third request is answered 500. *)
Definition third_page_down : env :=
  Env (fun _ e _ => match e with
                    | Vacancies _ _ 2 _ => Response 500 JNull
                    | _ => Response 200 (page_of 100 3)
                    end)
      (fun _ => Response 200 (JDict [("access_token", JStr "t1")]))
      (fun _ _ => false)
      (fun _ => "03.11.2026")
      (fun _ _ => false)
      (fun _ => false).

(** A page whose total is [null]. *)
Definition page_without_total : json :=
  JDict [("items", JList [listing 7]); ("pages", JNull)].

(** A value that Python cannot compare with an [int]. *)
Definition unordered_with_int (v : json) : Prop :=
  match v with
  | JInt _ | JBool _ => False
  | _ => True
  end.

(** What [fetch_all_vacancies] may send for an area and a role: a request
    for one of the pages below [bound], 100 listings a page, and the calls
    of a token refresh. *)
Definition page_request (area role : json) (bound : nat) (ev : event) : Prop :=
  match ev with
  | EvGet e _ => exists p, e = Vacancies area role p 100 /\ p < bound
  | EvPostToken | EvSetKey _ => True
  | _ => False
  end.

(** What [_get] may send for an endpoint. *)
Definition request_for (e : endpoint) (ev : event) : Prop :=
  match ev with
  | EvGet e' _ => e' = e
  | EvPostToken | EvSetKey _ => True
  | _ => False
  end.

(** A listing that is an object with an id. *)
Definition identified (v : json) : Prop :=
  exists d vid, v = JDict d /\ dict_get "id" d = Some vid.

(** A listing that already carries the two fields the writer sets. *)
Definition prestamped_listing : dict :=
  [("id", JInt 7); ("entry_date", JStr "01.01.1999");
   ("area_name", JStr "Самара"); ("name", JStr "Инженер")].

(** No id in the list is equal (Python's [==]) to one before it. *)
Fixpoint ids_distinct (ids : list json) : Prop :=
  match ids with
  | [] => True
  | i :: rest => Forall (fun j => py_eq_atom j i = false) rest /\ ids_distinct rest
  end.

(** The roles listed under a category. *)
Definition roles_of (category : json) : outcome (list json) :=
  obind (py_getitem category "roles") py_iter.

(** Categories in which the id [1] occurs as a number and as [true]. *)
Definition mixed_id_categories : json :=
  JList [JDict [("roles", JList [JDict [("id", JInt 1)]; JDict [("id", JStr "1")]])];
         JDict [("roles", JList [JDict [("id", JBool true)]])]].

(** A category whose roles can be listed and all carry a hashable id. *)
Definition well_formed_category (c : json) : Prop :=
  exists rs, roles_of c = Ret rs /\ Forall (fun r => role_id r <> None) rs.

(** A token that the OAuth endpoint hands out at some point. *)
Definition issued (E : env) (tok : json) : Prop :=
  exists t c d,
    oauth_post E t = Response c (JDict d)
    /\ dict_get "access_token" d = Some tok.

(** A GET that carries the token [h0] or an issued one (any other event
    qualifies). *)
Definition carries (E : env) (h0 : json) (ev : event) : Prop :=
  match ev with
  | EvGet _ a => a = h0 \/ issued E a
  | _ => True
  end.

(** From [w] to [w'] the header stays or becomes an issued token, and every
    GET in between carries the header of [w] or an issued token. *)
Definition authorized_steps (E : env) (w w' : world) : Prop :=
  (headers w' = headers w \/ issued E (headers w'))
  /\ exists new, trace w' = new ++ trace w /\ Forall (carries E (headers w)) new.

(** The upstream of [small_upstream], whose only role has no name. *)
Definition nameless_role_upstream (e : endpoint) : json :=
  match e with
  | ProfessionalRoles =>
      JDict [("categories",
              JList [JDict [("roles", JList [JDict [("id", JStr "96")]])]])]
  | _ => small_upstream e
  end.
(** * Properties *)

(** ** Equality of JSON values *)

Lemma json_eqb_eq : forall a b, json_eqb a b = true -> a = b.
Proof.
  fix IH 1. intros a b; destruct a, b; simpl; try discriminate; intros H.
  - reflexivity.
  - apply eqb_prop in H. congruence.
  - apply Z.eqb_eq in H. congruence.
  - apply String.eqb_eq in H. congruence.
  - f_equal. revert l0 H.
    induction l as [|x xs IHl]; intros [|y ys] H; try discriminate; auto.
    apply andb_prop in H as [H1 H2].
    f_equal; [apply IH; exact H1 | apply IHl; exact H2].
  - f_equal. revert d0 H.
    induction d as [|[k x] xs IHl]; intros [|[k' y] ys] H; try discriminate; auto.
    apply andb_prop in H as [H1 H2]. apply andb_prop in H1 as [H0 H1].
    apply String.eqb_eq in H0. subst k'.
    f_equal; [f_equal; apply IH; exact H1 | apply IHl; exact H2].
Qed.

Lemma json_eqb_refl : forall a, json_eqb a a = true.
Proof.
  fix IH 1. intros a; destruct a; simpl.
  - reflexivity.
  - apply eqb_reflx.
  - apply Z.eqb_refl.
  - apply String.eqb_refl.
  - induction l as [|x xs IHl]; auto. rewrite IH, IHl. reflexivity.
  - induction d as [|[k x] xs IHl]; auto.
    rewrite String.eqb_refl, IH, IHl. reflexivity.
Qed.

Lemma json_eqb_spec a b : json_eqb a b = true <-> a = b.
Proof.
  split; [apply json_eqb_eq | intros ->; apply json_eqb_refl].
Qed.

(** Iterating a string yields its code points, not the bytes of its
    encoding: two for a two-letter Cyrillic string, one for the euro sign. *)
Example chars_are_code_points :
  py_iter (JStr "яб") = Ret [JStr "я"; JStr "б"]
  /\ py_iter (JStr "a€") = Ret [JStr "a"; JStr "€"].
Proof. split; reflexivity. Qed.

Lemma dict_get_set_same k v d : dict_get k (dict_set k v d) = Some v.
Proof.
  induction d as [|[k' v'] d IH]; simpl.
  - rewrite String.eqb_refl. reflexivity.
  - destruct (String.eqb k k') eqn:Hk; simpl; rewrite ?String.eqb_refl, ?Hk; auto.
Qed.

Lemma dict_get_set_other k k' v d :
  k <> k' -> dict_get k (dict_set k' v d) = dict_get k d.
Proof.
  intros Hne. induction d as [|[k0 v0] d IH]; simpl.
  - destruct (String.eqb_spec k k'); [contradiction | reflexivity].
  - destruct (String.eqb_spec k' k0); simpl.
    + subst k0. destruct (String.eqb_spec k k'); [contradiction | reflexivity].
    + destruct (String.eqb_spec k k0); auto.
Qed.

(** ** Running computations *)

Lemma bind_ret_l {A B} (m : M A) (k : A -> M B) w a w' :
  m w = (Ret a, w') -> bind m k w = k a w'.
Proof. unfold bind. intros ->. reflexivity. Qed.

Lemma bind_raise_l {A B} (m : M A) (k : A -> M B) w e w' :
  m w = (Raise e, w') -> bind m k w = (Raise e, w').
Proof. unfold bind. intros ->. reflexivity. Qed.

(** ** [find_country_url] *)

Lemma bind_lift_ret {A C} (o : outcome A) a (k : A -> M C) w :
  o = Ret a -> bind (lift o) k w = k a w.
Proof. intros ->. reflexivity. Qed.

Lemma py_eq_str_false n name : n <> JStr name -> py_eq_str n name = false.
Proof.
  destruct n; simpl; auto. intros H.
  destruct (String.eqb_spec s name); [subst; contradiction | reflexivity].
Qed.

Lemma py_eq_str_true n name : py_eq_str n name = true <-> n = JStr name.
Proof.
  destruct n; simpl; split; try discriminate.
  - intros H. apply String.eqb_eq in H. congruence.
  - intros [= ->]. apply String.eqb_refl.
Qed.

Lemma first_country_url_none cs name :
  Forall (named_otherwise name) cs -> first_country_url cs name = Ret (JStr EmptyString).
Proof.
  induction 1 as [|c cs [n [Hn Hne]] _ IH]; simpl; auto.
  rewrite Hn. simpl. rewrite (py_eq_str_false _ _ Hne). exact IH.
Qed.

Lemma first_country_url_match pre c post name :
  Forall (named_otherwise name) pre -> named name c ->
  first_country_url (pre ++ c :: post) name = py_getitem c "url".
Proof.
  intros Hpre Hc. induction Hpre as [|c' cs [n [Hn Hne]] _ IH]; simpl.
  - rewrite Hc. simpl. rewrite String.eqb_refl. reflexivity.
  - rewrite Hn. simpl. rewrite (py_eq_str_false _ _ Hne). exact IH.
Qed.

(** C6. Given the fetched country list, [find_country_url] returns the url of
    the first country whose name is exactly the requested one (whatever comes
    after it in the list), and the empty string, not [None], when every
    country has another name. *)
Theorem find_country_url_first_exact_match :
  forall (E : env) (countries : list json) (name : string) (w w' : world),
    fetch_countries E w = (Ret (JList countries), w') ->
    (forall pre c post u,
        countries = pre ++ c :: post ->
        Forall (named_otherwise name) pre ->
        named name c ->
        py_getitem c "url" = Ret u ->
        find_country_url E name w = (Ret u, w'))
    /\ (Forall (named_otherwise name) countries ->
        find_country_url E name w = (Ret (JStr EmptyString), w')).
Proof.
  intros E countries name w w' Hfetch. split.
  - intros pre c post u -> Hpre Hc Hu.
    unfold find_country_url. rewrite (bind_ret_l _ _ _ _ _ Hfetch).
    unfold lift. simpl. rewrite (first_country_url_match _ _ _ _ Hpre Hc), Hu.
    reflexivity.
  - intros Hall.
    unfold find_country_url. rewrite (bind_ret_l _ _ _ _ _ Hfetch).
    unfold lift. simpl. rewrite (first_country_url_none _ _ Hall). reflexivity.
Qed.

Lemma find_country_url_first_exact_match_witness :
  exists w',
    find_country_url (serving (fun _ => JList two_countries)) "Россия" initial_world
    = (Ret (JStr "https://api.hh.ru/areas/113"), w').
Proof.
  eexists.
  refine (proj1 (find_country_url_first_exact_match
            (serving (fun _ => JList two_countries)) two_countries "Россия"
            initial_world _ _)
          [obj_country "Украина" "https://api.hh.ru/areas/5"]
          (obj_country "Россия" "https://api.hh.ru/areas/113") [] _ _ _ _ _).
  - reflexivity.
  - reflexivity.
  - constructor; [|constructor].
    eexists. split; [reflexivity | discriminate].
  - reflexivity.
  - reflexivity.
Defined.

(** ** Role de-duplication *)

Lemma py_eq_atom_sym a b : py_eq_atom a b = py_eq_atom b a.
Proof.
  destruct a, b; simpl; auto using Z.eqb_sym, String.eqb_sym.
  destruct b, b0; reflexivity.
Qed.

Lemma py_eq_atom_trans a b c :
  py_eq_atom a b = true -> py_eq_atom b c = true -> py_eq_atom a c = true.
Proof.
  destruct a, b, c; simpl; try discriminate; auto;
    repeat match goal with b : bool |- _ => destruct b end;
    simpl; try discriminate; auto;
    rewrite ?Z.eqb_eq, ?String.eqb_eq; intros; subst; auto; try congruence; try lia.
Qed.

Lemma same_role_id_trans a b c :
  same_role_id a b = true -> same_role_id b c = true -> same_role_id a c = true.
Proof.
  unfold same_role_id.
  destruct (role_id a), (role_id b), (role_id c); try discriminate.
  apply py_eq_atom_trans.
Qed.

Lemma same_role_id_sym a b : same_role_id a b = same_role_id b a.
Proof.
  unfold same_role_id. destruct (role_id a), (role_id b); auto.
  apply py_eq_atom_sym.
Qed.

Lemma role_id_getitem r i :
  role_id r = Some i -> py_getitem r "id" = Ret i /\ hashable i = true.
Proof.
  unfold role_id. destruct (py_getitem r "id"); try discriminate.
  destruct (hashable a) eqn:H; try discriminate. intros [= ->]. auto.
Qed.

Lemma combine_seq_shift {A} (l : list A) a :
  combine (seq (S a) (length l)) l
  = map (fun kr => (S (fst kr), snd kr)) (combine (seq a (length l)) l).
Proof.
  revert a. induction l as [|x l IH]; intros a; simpl; auto.
  f_equal. apply IH.
Qed.

Lemma filter_map_comm {A B} (f : A -> B) (p : B -> bool) l :
  filter p (map f l) = map f (filter (fun x => p (f x)) l).
Proof.
  induction l as [|x l IH]; simpl; auto.
  destruct (p (f x)); simpl; rewrite IH; reflexivity.
Qed.

Lemma first_occurrences_cons earlier r rs :
  first_occurrences earlier (r :: rs)
  = if existsb (same_role_id r) earlier
    then first_occurrences (earlier ++ [r]) rs
    else r :: first_occurrences (earlier ++ [r]) rs.
Proof.
  unfold first_occurrences. simpl length. simpl seq. simpl combine.
  simpl filter. rewrite app_nil_r.
  assert (Htail :
    map snd (filter (fun kr => negb (existsb (same_role_id (snd kr))
                                  (earlier ++ firstn (fst kr) (r :: rs))))
               (combine (seq 1 (length rs)) rs))
    = map snd (filter (fun kr => negb (existsb (same_role_id (snd kr))
                                  ((earlier ++ [r]) ++ firstn (fst kr) rs)))
               (combine (seq 0 (length rs)) rs))).
  { rewrite combine_seq_shift, filter_map_comm, map_map. simpl.
    f_equal. apply filter_ext. intros [k x]. simpl.
    rewrite <- app_assoc. reflexivity. }
  destruct (existsb (same_role_id r) earlier); simpl; rewrite Htail; reflexivity.
Qed.

Lemma covers_skip seen earlier r :
  covers seen earlier -> existsb (same_role_id r) earlier = true ->
  covers seen (earlier ++ [r]).
Proof.
  intros Hc Hdup x i Hx. rewrite existsb_app. simpl. rewrite orb_false_r.
  rewrite (Hc x i Hx).
  destruct (same_role_id x r) eqn:Hxr; [|rewrite orb_false_r; reflexivity].
  rewrite orb_true_r.
  apply existsb_exists in Hdup as [e [He Hre]].
  apply existsb_exists. exists e. split; auto.
  eapply same_role_id_trans; eauto.
Qed.

Lemma covers_add seen earlier r i :
  covers seen earlier -> role_id r = Some i ->
  covers (i :: seen) (earlier ++ [r]).
Proof.
  intros Hc Hr x j Hx. rewrite existsb_app. simpl. rewrite orb_false_r.
  rewrite (Hc x j Hx).
  assert (Hxr : same_role_id x r = py_eq_atom j i)
    by (unfold same_role_id; rewrite Hx, Hr; reflexivity).
  rewrite Hxr. apply orb_comm.
Qed.

Lemma unique_roles_spec roles : forall seen earlier,
  covers seen earlier ->
  Forall (fun r => role_id r <> None) roles ->
  exists seen',
    unique_roles seen roles = Ret (seen', first_occurrences earlier roles)
    /\ covers seen' (earlier ++ roles).
Proof.
  induction roles as [|r rs IH]; intros seen earlier Hc Hall.
  - exists seen. rewrite app_nil_r. auto.
  - inversion Hall as [|? ? Hr Hrs]; subst.
    destruct (role_id r) as [i|] eqn:Hi; [clear Hr | contradiction].
    destruct (role_id_getitem _ _ Hi) as [Hget Hhash].
    rewrite first_occurrences_cons. simpl. rewrite Hget. simpl.
    unfold set_contains. rewrite Hhash. simpl.
    rewrite (Hc r i Hi).
    destruct (existsb (same_role_id r) earlier) eqn:Hdup.
    + destruct (IH seen (earlier ++ [r]) (covers_skip _ _ _ Hc Hdup) Hrs)
        as [seen' [Heq Hc']].
      exists seen'. rewrite <- app_assoc in Hc'. auto.
    + destruct (IH (i :: seen) (earlier ++ [r]) (covers_add _ _ _ _ Hc Hi) Hrs)
        as [seen' [Heq Hc']].
      exists seen'. rewrite Heq. simpl. rewrite <- app_assoc in Hc'. auto.
Qed.

Lemma filter_roles_spec categories : forall groups seen earlier,
  Forall2 (fun c g => obind (py_getitem c "roles") py_iter = Ret g)
          categories groups ->
  Forall (Forall (fun r => role_id r <> None)) groups ->
  covers seen earlier ->
  filter_roles seen categories
  = Ret (filter nonempty (surviving_from earlier groups)).
Proof.
  induction categories as [|c cs IH]; intros groups seen earlier H2 Hall Hc.
  - inversion H2; subst. reflexivity.
  - inversion H2 as [|? g ? gs Hg Hgs]; subst.
    inversion Hall as [|? ? Hwf Hwfs]; subst.
    simpl. rewrite Hg. simpl.
    destruct (unique_roles_spec g seen earlier Hc Hwf) as [seen' [Heq Hc']].
    rewrite Heq. simpl.
    rewrite (IH gs seen' (earlier ++ g) Hgs Hwfs Hc'). simpl.
    destruct (first_occurrences earlier g); reflexivity.
Qed.

Lemma surviving_from_indexed groups : forall earlier,
  surviving_from earlier groups
  = map (fun i => first_occurrences (earlier ++ concat (firstn i groups))
                                    (nth i groups []))
        (seq 0 (length groups)).
Proof.
  induction groups as [|g gs IH]; intros earlier; simpl; auto.
  rewrite app_nil_r. f_equal.
  rewrite IH, <- seq_shift, map_map.
  apply map_ext. intros i. simpl. rewrite <- app_assoc. reflexivity.
Qed.

(** C5. Run on a list of categories whose roles carry ids, the role
    de-duplication of [fetch_and_store_vacancies] keeps in each category, in
    the original order, exactly the roles whose id occurred neither in an
    earlier category nor earlier in the same category; categories left
    without roles are not carried along.  On the categories with role ids
    [1, 2] and [2, 3] the working set is [1, 2] and then [3]. *)
Theorem role_dedup_first_occurrence_wins :
  (forall categories groups,
      Forall2 (fun c g => obind (py_getitem c "roles") py_iter = Ret g)
              categories groups ->
      Forall (Forall (fun r => role_id r <> None)) groups ->
      filtered_roles_of (JList categories)
      = Ret (filter nonempty (surviving groups)))
  /\ filtered_roles_of (JList two_categories)
     = Ret [[role_with_id 1; role_with_id 2]; [role_with_id 3]].
Proof.
  split; [|reflexivity].
  intros categories groups H2 Hall. unfold filtered_roles_of. simpl.
  rewrite (filter_roles_spec categories groups [] [] H2 Hall).
  - unfold surviving. rewrite surviving_from_indexed. reflexivity.
  - intros r i _. reflexivity.
Qed.

Lemma role_dedup_first_occurrence_wins_witness :
  filtered_roles_of (JList two_categories)
  = Ret (filter nonempty
           (surviving [[role_with_id 1; role_with_id 2];
                       [role_with_id 2; role_with_id 3]])).
Proof.
  apply (proj1 role_dedup_first_occurrence_wins two_categories).
  - repeat constructor.
  - repeat constructor; discriminate.
Defined.

(** ** Token refresh and the GET primitive *)

Ltac unfold_monad :=
  unfold try_except, bind, ret, raise, lift, out_of_fuel, emit, get_tick,
    set_ACCESS_TOKEN, set_Authorization in *.

Lemma refresh_access_token_cases (E : env) (w : world) :
  let w1 := after_event EvPostToken w in
  match oauth_post E (tick w) with
  | ConnectionFailed => refresh_access_token E w = (Ret false, w1)
  | Response c body =>
      if error_status c then refresh_access_token E w = (Ret false, w1)
      else
        match body with
        | JDict d =>
            let tok := match dict_get "access_token" d with
                       | Some v => v
                       | None => JNull
                       end in
            if py_bool tok then
              match tok with
              | JStr _ =>
                  if set_key_fails E (S (tick w)) then
                    refresh_access_token E w
                    = (Raise OSError,
                       World (S (S (tick w))) tok tok (dotenv w) (db w)
                             (EvSetKey tok :: EvPostToken :: trace w))
                  else
                    refresh_access_token E w
                    = (Ret true,
                       World (S (S (tick w))) tok tok tok (db w)
                             (EvSetKey tok :: EvPostToken :: trace w))
              | _ =>
                  refresh_access_token E w
                  = (Raise AttributeError,
                     World (S (tick w)) tok tok (dotenv w) (db w)
                           (EvPostToken :: trace w))
              end
            else refresh_access_token E w = (Ret false, w1)
        | _ => refresh_access_token E w = (Raise AttributeError, w1)
        end
  end.
Proof.
  unfold refresh_access_token, requests_post_token, raise_for_status,
    set_key, error_status, after_event.
  unfold_monad. simpl.
  destruct (oauth_post E (tick w)) as [|c body]; simpl; auto.
  destruct (Z.leb 400 c && Z.ltb c 600)%bool; simpl; auto.
  destruct body; simpl; auto.
  destruct (match dict_get "access_token" d with Some v => v | None => JNull end)
    as [|b|n|s|l|d']; simpl; auto.
  - destruct b; reflexivity.
  - destruct (negb (Z.eqb n 0)); reflexivity.
  - destruct (negb (String.eqb s EmptyString)); simpl; auto.
    destruct (set_key_fails E (S (tick w))); reflexivity.
  - destruct l; reflexivity.
  - destruct d'; reflexivity.
Qed.

(** The runs of [refresh_access_token], one goal for each: [H] is the run,
    [tok] the token found in the response where there is one. *)
Ltac refresh_cases E w H :=
  pose proof (refresh_access_token_cases E w) as H; cbv zeta in H;
  let c := fresh "c" in
  let body := fresh "body" in
  let Hpost := fresh "Hpost" in
  let Hstatus := fresh "Hstatus" in
  destruct (oauth_post E (tick w)) as [|c body] eqn:Hpost;
  [| destruct (error_status c) eqn:Hstatus;
     [| let d := fresh "d" in
        destruct body as [| | | | |d];
        [| | | | |
         let tok := fresh "tok" in
         let Htok := fresh "Htok" in
         let Hb := fresh "Hb" in
         remember (match dict_get "access_token" d with
                   | Some v => v
                   | None => JNull
                   end) as tok eqn:Htok;
         destruct (py_bool tok) eqn:Hb;
         [ destruct tok as [| | | ? | |];
           [| | | let Hfails := fresh "Hfails" in
                  destruct (set_key_fails E (S (tick w))) eqn:Hfails
            | |]
         |]]]].

(** C9 as stated does not hold: with an OAuth endpoint that answers 200 with
    a JSON array, a response without an access token, [tokens.get] raises
    [AttributeError], which the handler for [RequestException] lets through. *)
Lemma refresh_access_token_raises_on_array_body :
  fst (refresh_access_token array_token_env initial_world) = Raise AttributeError.
Proof. reflexivity. Qed.

(** C9, amended. [refresh_access_token] lets no [RequestException] escape: a
    transport error, a 4xx or 5xx status, and a JSON object without a truthy
    access token all make it return [False] and leave the token, the header
    and the configuration store as they were; it returns [True] only after
    it has stored the new token in [ACCESS_TOKEN], in the authorization
    header and in the configuration store. *)
Theorem refresh_access_token_outcomes :
  forall (E : env) (w : world),
    let r := refresh_access_token E w in
    fst r <> Raise RequestException
    /\ fst r <> OutOfFuel
    /\ (oauth_post E (tick w) = ConnectionFailed -> fst r = Ret false)
    /\ (forall c body,
          oauth_post E (tick w) = Response c body ->
          (400 <= c < 600)%Z -> fst r = Ret false)
    /\ (forall c d,
          oauth_post E (tick w) = Response c (JDict d) ->
          match dict_get "access_token" d with
          | Some tok => py_bool tok = false
          | None => True
          end ->
          fst r = Ret false)
    /\ (fst r = Ret false ->
          ACCESS_TOKEN (snd r) = ACCESS_TOKEN w
          /\ headers (snd r) = headers w
          /\ dotenv (snd r) = dotenv w)
    /\ (fst r = Ret true ->
          exists c d tok,
            oauth_post E (tick w) = Response c (JDict d)
            /\ dict_get "access_token" d = Some tok
            /\ py_bool tok = true
            /\ ACCESS_TOKEN (snd r) = tok
            /\ headers (snd r) = tok
            /\ dotenv (snd r) = tok).
Proof.
  intros E w r. subst r.
  assert (Hrange : forall c, error_status c = false -> ~ (400 <= c < 600)%Z).
  { intros c Hc. unfold error_status in Hc.
    apply andb_false_iff in Hc as [Hc|Hc];
      [apply Z.leb_gt in Hc | apply Z.ltb_ge in Hc]; lia. }
  refresh_cases E w H; rewrite H; simpl;
    (split; [discriminate|]); (split; [discriminate|]);
    (split; [intros Hp; first [reflexivity | discriminate Hp]|]);
    (split; [intros c' b' Hp Hr;
             first [reflexivity
                   | inversion Hp; subst; exfalso; eapply Hrange; eauto]|]);
    (split; [intros c' d' Hp Hf;
             first [reflexivity
                   | discriminate Hp
                   | inversion Hp; subst c' d';
                     destruct (dict_get "access_token" d) as [t|];
                     first [discriminate Hb | discriminate Htok
                           | rewrite <- Htok in Hf; congruence]]|]);
    (split; [intros Hr; first [discriminate Hr | auto]|]);
    intros Hr; try discriminate Hr.
  exists c, d, (JStr s). repeat split; auto.
  destruct (dict_get "access_token" d) as [t|]; [congruence | discriminate].
Qed.

Lemma refresh_access_token_outcomes_witness :
  fst (refresh_access_token (serving (fun _ => JNull)) initial_world) = Ret true
  /\ exists c d tok,
       oauth_post (serving (fun _ => JNull)) 0 = Response c (JDict d)
       /\ dict_get "access_token" d = Some tok
       /\ py_bool tok = true
       /\ ACCESS_TOKEN (snd (refresh_access_token (serving (fun _ => JNull))
                               initial_world)) = tok
       /\ headers (snd (refresh_access_token (serving (fun _ => JNull))
                          initial_world)) = tok
       /\ dotenv (snd (refresh_access_token (serving (fun _ => JNull))
                         initial_world)) = tok.
Proof.
  split; [reflexivity|].
  destruct (refresh_access_token_outcomes (serving (fun _ => JNull)) initial_world)
    as (_ & _ & _ & _ & _ & _ & H).
  apply H. reflexivity.
Defined.

Lemma get_first_reply_other (E : env) (e : endpoint) (w : world) :
  (match http_get E (tick w) e (headers w) with
   | Response c _ => c <> 401%Z
   | ConnectionFailed => True
   end) ->
  _get E e w
  = (Ret (absorbed (http_get E (tick w) e (headers w))),
     after_event (EvGet e (headers w)) w).
Proof.
  intros Hc. unfold _get, requests_get, raise_for_status, absorbed,
    error_status, after_event.
  unfold_monad. simpl.
  destruct (http_get E (tick w) e (headers w)) as [|c body]; simpl; auto.
  destruct (Z.eqb_spec c 401); [contradiction|].
  destruct (Z.leb 400 c && Z.ltb c 600)%bool; reflexivity.
Qed.

Lemma get_first_reply_401 (E : env) (e : endpoint) (w : world) body :
  http_get E (tick w) e (headers w) = Response 401 body ->
  let w1 := after_event (EvGet e (headers w)) w in
  _get E e w
  = match refresh_access_token E w1 with
    | (Ret true, w2) =>
        (Ret (absorbed (http_get E (tick w2) e (headers w2))),
         after_event (EvGet e (headers w2)) w2)
    | (Ret false, w2) => (Ret JNull, w2)
    | (Raise ex, w2) =>
        if is_RequestException ex then (Ret JNull, w2) else (Raise ex, w2)
    | (OutOfFuel, w2) => (OutOfFuel, w2)
    end.
Proof.
  intros H401 w1. subst w1.
  unfold _get, requests_get, raise_for_status, absorbed, error_status,
    after_event.
  unfold_monad. simpl. rewrite H401. simpl.
  destruct (refresh_access_token E _) as [[[|]|ex|] w2]; simpl; auto.
  destruct (http_get E (tick w2) e (headers w2)) as [|c b]; simpl; auto.
  destruct (Z.leb 400 c && Z.ltb c 600)%bool; reflexivity.
Qed.

Lemma refresh_access_token_trace (E : env) (w : world) :
  let r := refresh_access_token E w in
  (fst r = Ret true ->
     trace (snd r) = EvSetKey (headers (snd r)) :: EvPostToken :: trace w
     /\ headers (snd r) = ACCESS_TOKEN (snd r))
  /\ (fst r = Ret false -> snd r = after_event EvPostToken w)
  /\ exists new,
       trace (snd r) = new ++ trace w
       /\ count_posts new = 1 /\ count_gets new = 0.
Proof.
  simpl. refresh_cases E w H; rewrite H; simpl;
    repeat split; try discriminate; auto;
    try (exists [EvPostToken]; repeat split; reflexivity);
    try (eexists [EvSetKey _; EvPostToken]; repeat split; reflexivity).
Qed.

Lemma absorbed_failure r :
  (r = ConnectionFailed
   \/ exists c body, r = Response c body /\ (400 <= c < 600)%Z) ->
  absorbed r = JNull.
Proof.
  intros [->|[c [body [-> Hc]]]]; simpl; auto.
  unfold error_status.
  destruct (Z.leb_spec 400 c); [|lia]. destruct (Z.ltb_spec c 600); [|lia].
  reflexivity.
Qed.

Lemma refresh_access_token_raises (E : env) w ex :
  fst (refresh_access_token E w) = Raise ex ->
  ex = AttributeError \/ ex = OSError.
Proof.
  refresh_cases E w H; rewrite H; simpl; intros [= <-] || discriminate; auto.
Qed.

(** C4 as stated does not hold: a refresh can fail by raising.  With an
    OAuth endpoint that answers 200 with a JSON array, the 401 is followed
    by the one refresh attempt, [tokens.get] raises [AttributeError], the
    handler of [_get] catches [RequestException] only, and the call raises
    instead of returning [None]. *)
Lemma get_raises_when_refresh_raises :
  fst (_get array_token_env Countries initial_world) = Raise AttributeError
  /\ trace (snd (_get array_token_env Countries initial_world))
     = [EvPostToken; EvGet Countries (JStr "t0")].
Proof. split; reflexivity. Qed.

(** C4, amended. One call of [_get] makes at most one refresh and at most
    two GETs.  When the first reply is 401 there is exactly one refresh
    attempt; if it reports failure (returns [False]) the call returns [None]
    without another GET; if it raises ([AttributeError] or [OSError], never
    a [RequestException]) the call raises the same exception, also without
    another GET; if it succeeds the same GET is sent once more, now carrying
    the refreshed token, and whatever that attempt gives is final: a failed
    retry (no connection, or a 4xx/5xx status, 401 included) returns [None]
    and no second refresh is made.  Any other first reply is final without
    a refresh. *)
Theorem get_refreshes_once_and_retries_once :
  forall (E : env) (e : endpoint) (w : world),
    (exists new,
        trace (snd (_get E e w)) = new ++ trace w
        /\ count_posts new <= 1 /\ count_gets new <= 2)
    /\ (forall body,
          http_get E (tick w) e (headers w) = Response 401 body ->
          let w1 := after_event (EvGet e (headers w)) w in
          (forall w2,
              refresh_access_token E w1 = (Ret false, w2) ->
              _get E e w = (Ret JNull, w2)
              /\ trace w2 = EvPostToken :: EvGet e (headers w) :: trace w)
          /\ (forall w2,
              refresh_access_token E w1 = (Ret true, w2) ->
              let retry := http_get E (tick w2) e (headers w2) in
              _get E e w
              = (Ret (absorbed retry), after_event (EvGet e (headers w2)) w2)
              /\ trace w2 = EvSetKey (headers w2) :: EvPostToken
                              :: EvGet e (headers w) :: trace w
              /\ headers w2 = ACCESS_TOKEN w2
              /\ ((retry = ConnectionFailed
                   \/ exists c b, retry = Response c b /\ (400 <= c < 600)%Z) ->
                  fst (_get E e w) = Ret JNull))
          /\ (forall ex w2,
              refresh_access_token E w1 = (Raise ex, w2) ->
              _get E e w = (Raise ex, w2)
              /\ (ex = AttributeError \/ ex = OSError)
              /\ exists new,
                   trace w2 = new ++ EvGet e (headers w) :: trace w
                   /\ count_posts new = 1 /\ count_gets new = 0))
    /\ (forall body o w2,
          http_get E (tick w) e (headers w) = Response 401 body ->
          refresh_access_token E (after_event (EvGet e (headers w)) w) = (o, w2) ->
          o <> Ret true ->
          trace (snd (_get E e w)) = trace w2)
    /\ ((match http_get E (tick w) e (headers w) with
         | Response c _ => c <> 401%Z
         | ConnectionFailed => True
         end) ->
        trace (snd (_get E e w)) = EvGet e (headers w) :: trace w).
Proof.
  intros E e w.
  assert (H401 : forall body,
             http_get E (tick w) e (headers w) = Response 401 body ->
             _get E e w
             = match refresh_access_token E (after_event (EvGet e (headers w)) w) with
               | (Ret true, w2) =>
                   (Ret (absorbed (http_get E (tick w2) e (headers w2))),
                    after_event (EvGet e (headers w2)) w2)
               | (Ret false, w2) => (Ret JNull, w2)
               | (Raise ex, w2) =>
                   if is_RequestException ex then (Ret JNull, w2) else (Raise ex, w2)
               | (OutOfFuel, w2) => (OutOfFuel, w2)
               end)
    by (intros body Hb; exact (get_first_reply_401 E e w body Hb)).
  split; [|split; [|split]].
  - destruct (http_get E (tick w) e (headers w)) as [|c body] eqn:Hr.
    + rewrite get_first_reply_other by (rewrite Hr; exact I).
      exists [EvGet e (headers w)]. simpl. repeat split; auto.
    + destruct (Z.eq_dec c 401) as [->|Hne].
      * rewrite (H401 body eq_refl).
        destruct (refresh_access_token_trace E (after_event (EvGet e (headers w)) w))
          as (_ & _ & new & Hnew & Hp & Hg).
        destruct (refresh_access_token E (after_event (EvGet e (headers w)) w))
          as [[[|]|ex|] w2]; simpl in *.
        -- exists (EvGet e (headers w2) :: new ++ [EvGet e (headers w)]).
           rewrite Hnew. simpl. rewrite <- app_assoc. split; [reflexivity|].
           unfold count_posts, count_gets in *. simpl.
           rewrite !filter_app, !length_app. simpl. lia.
        -- exists (new ++ [EvGet e (headers w)]).
           rewrite Hnew, <- app_assoc. split; [reflexivity|].
           unfold count_posts, count_gets in *.
           rewrite !filter_app, !length_app. simpl. lia.
        -- exists (new ++ [EvGet e (headers w)]).
           assert (Ht : trace (snd (if is_RequestException ex
                                    then (Ret JNull, w2)
                                    else (@Raise json ex, w2))) = trace w2)
             by (destruct (is_RequestException ex); reflexivity).
           rewrite Ht, Hnew, <- app_assoc. split; [reflexivity|].
           unfold count_posts, count_gets in *.
           rewrite !filter_app, !length_app. simpl. lia.
        -- exists (new ++ [EvGet e (headers w)]).
           rewrite Hnew, <- app_assoc. split; [reflexivity|].
           unfold count_posts, count_gets in *.
           rewrite !filter_app, !length_app. simpl. lia.
      * rewrite get_first_reply_other by (rewrite Hr; exact Hne).
        exists [EvGet e (headers w)]. simpl. repeat split; auto.
  - intros body Hb w1. subst w1. rewrite (H401 body Hb).
    destruct (refresh_access_token_trace E (after_event (EvGet e (headers w)) w))
      as (Htrue & Hfalse & new & Hnew & Hp & Hg).
    pose proof (refresh_access_token_raises E (after_event (EvGet e (headers w)) w))
      as Hraises.
    split; [|split].
    + intros w2 Hw2. rewrite Hw2 in *. simpl in *.
      split; [reflexivity|]. rewrite (Hfalse eq_refl). reflexivity.
    + intros w2 Hw2. rewrite Hw2 in *. simpl in *.
      destruct (Htrue eq_refl) as [Ht Hh].
      repeat split; auto. intros Hfail. f_equal. apply absorbed_failure, Hfail.
    + intros ex w2 Hw2. rewrite Hw2 in *. simpl in *.
      destruct (Hraises ex eq_refl) as [->| ->];
        (split; [reflexivity|]; split; [auto|]; exists new; auto).
  - intros body o w2 Hb Hrun Hno. rewrite (H401 body Hb), Hrun.
    destruct o as [[|]|ex|]; try reflexivity; [contradiction|].
    destruct (is_RequestException ex); reflexivity.
  - intros Hc. rewrite get_first_reply_other by exact Hc. reflexivity.
Qed.

Lemma get_refreshes_once_and_retries_once_witness :
  fst (_get (expiring (fun _ => JList two_countries)) Countries initial_world)
  = Ret (JList two_countries)
  /\ trace (snd (_get (expiring (fun _ => JList two_countries)) Countries
                   initial_world))
     = [EvGet Countries (JStr "t1"); EvSetKey (JStr "t1"); EvPostToken;
        EvGet Countries (JStr "t0")].
Proof.
  destruct (get_refreshes_once_and_retries_once
              (expiring (fun _ => JList two_countries)) Countries initial_world)
    as (_ & H & _ & _).
  destruct (H JNull eq_refl) as (_ & Htrue & _).
  destruct (Htrue _ eq_refl) as (Heq & _).
  rewrite Heq. split; reflexivity.
Defined.

(** ** The pagination loop *)

Lemma fetch_all_loop_done (E : env) fuel area role vs page total w :
  py_lt page total = Ret false ->
  fetch_all_loop E fuel area role vs page total w = (Ret vs, w).
Proof.
  intros H. destruct fuel; simpl; unfold bind, lift; rewrite H; reflexivity.
Qed.

Lemma fetch_all_loop_stop (E : env) fuel area role vs page total w data w' :
  py_lt page total = Ret true ->
  get_vacancies E area role page w = (Ret data, w') ->
  stops data ->
  fetch_all_loop E (S fuel) area role vs page total w = (Ret vs, w').
Proof.
  intros Hlt Hget Hstop. simpl. unfold bind at 1. unfold lift at 1.
  rewrite Hlt. unfold bind at 1. rewrite Hget.
  unfold bind at 1.
  destruct Hstop as [Hb|Hc].
  - rewrite Hb. reflexivity.
  - destruct (py_bool data); [|reflexivity].
    simpl. unfold bind, lift. rewrite Hc. reflexivity.
Qed.

Lemma fetch_all_loop_continue (E : env) fuel area role vs page total w d w'
    items its :
  py_lt page total = Ret true ->
  get_vacancies E area role page w = (Ret (JDict d), w') ->
  dict_get "items" d = Some items ->
  py_iter items = Ret its ->
  fetch_all_loop E (S fuel) area role vs page total w
  = fetch_all_loop E fuel area role (vs ++ its) (S page)
      (match dict_get "pages" d with Some v => v | None => JInt 1 end) w'.
Proof.
  intros Hlt Hget Hitems Hiter. simpl. unfold bind at 1. unfold lift at 1.
  rewrite Hlt. unfold bind at 1. rewrite Hget.
  assert (Hb : py_bool (JDict d) = true).
  { destruct d; [discriminate | reflexivity]. }
  rewrite Hb.
  unfold py_contains, py_getitem, py_get, obind, bind, lift, ret.
  rewrite Hitems. simpl. rewrite Hiter. reflexivity.
Qed.

Lemma fetch_all_loop_reports (E : env) area role P items :
  reports_pages E area role P items ->
  forall n fuel page vs total w,
    page + n = pages_fetched P ->
    n <= fuel ->
    (page = 0 /\ total = JInt 1) \/ (1 <= page /\ total = JInt P) ->
    fst (fetch_all_loop E fuel area role vs page total w)
    = Ret (vs ++ concat (map items (seq page n))).
Proof.
  intros Hrep. unfold pages_fetched.
  induction n as [|n IH]; intros fuel page vs total w Hsum Hfuel Hstate.
  - rewrite fetch_all_loop_done; [simpl; rewrite app_nil_r; reflexivity|].
    destruct Hstate as [[-> ->]|[Hp ->]]; simpl; f_equal; lia.
  - destruct fuel as [|fuel]; [lia|].
    destruct (Hrep page w) as (d & w' & Hget & Hitems & Hpages).
    rewrite (fetch_all_loop_continue E fuel area role vs page total w d w'
               (JList (items page)) (items page)); auto.
    + rewrite Hpages, IH; try lia.
      * simpl. rewrite <- app_assoc. reflexivity.
      * right. split; [lia | reflexivity].
    + destruct Hstate as [[-> ->]|[Hp ->]]; simpl; f_equal; lia.
Qed.

(** C2 as stated does not hold when the reported total is 0: the first
    page is requested before any total is known, so its items are returned,
    while pages 0 through -1 are no pages at all. *)
Lemma fetch_all_vacancies_total_zero :
  reports_pages (serving (fun _ => page_of 1 0)) (JInt 1) (JInt 96) 0
                (fun _ => [listing 7])
  /\ fst (fetch_all_vacancies (serving (fun _ => page_of 1 0)) 1 (JInt 1)
            (JInt 96) initial_world)
     = Ret [listing 7]
  /\ concat (map (fun _ : nat => [listing 7]) (seq 0 (Z.to_nat 0))) = [].
Proof.
  split; [|split; reflexivity].
  intros p w. eexists. eexists. split; [|split]; reflexivity.
Qed.

(** C2, amended. When every page response carries well-formed items and the
    same total [P], [fetch_all_vacancies] returns the items of pages 0
    through max(P, 1) - 1 concatenated in page order (page 0 is always
    requested); for [P >= 1] these are the pages 0 through P - 1, and with
    P = 3 and 100, 100 and 10 items the result has 210 elements. *)
Theorem fetch_all_vacancies_concatenates_pages :
  forall (E : env) (area role : json) (P : Z) (items : nat -> list json),
    reports_pages E area role P items ->
    forall fuel w,
      pages_fetched P <= fuel ->
      let result := fst (fetch_all_vacancies E fuel area role w) in
      result = Ret (concat (map items (seq 0 (pages_fetched P))))
      /\ ((1 <= P)%Z ->
          result = Ret (concat (map items (seq 0 (Z.to_nat P)))))
      /\ (P = 3%Z -> length (items 0) = 100 -> length (items 1) = 100 ->
          length (items 2) = 10 ->
          exists vacancies, result = Ret vacancies /\ length vacancies = 210).
Proof.
  intros E area role P items Hrep fuel w Hfuel result.
  assert (Hres : result = Ret (concat (map items (seq 0 (pages_fetched P))))).
  { subst result. unfold fetch_all_vacancies.
    rewrite (fetch_all_loop_reports E area role P items Hrep
               (pages_fetched P) fuel 0 [] (JInt 1) w); auto. }
  split; [exact Hres | split].
  - intros HP. rewrite Hres. unfold pages_fetched.
    rewrite Z.max_l by lia. reflexivity.
  - intros -> H0 H1 H2. eexists. split; [exact Hres|].
    change (pages_fetched 3) with 3. simpl.
    rewrite !length_app, H0, H1, H2. reflexivity.
Qed.

Lemma fetch_all_vacancies_concatenates_pages_witness :
  exists vacancies,
    fst (fetch_all_vacancies (serving three_pages) 3 (JInt 1) (JInt 96)
           initial_world) = Ret vacancies
    /\ length vacancies = 210.
Proof.
  refine (proj2 (proj2 (fetch_all_vacancies_concatenates_pages
            (serving three_pages) (JInt 1) (JInt 96) 3 three_pages_items _
            3 initial_world _)) _ _ _ _).
  - intros p w. exists (match p with
                        | 2 => [("items", JList (repeat (listing 7) 10));
                                ("pages", JInt 3)]
                        | _ => [("items", JList (repeat (listing 7) 100));
                                ("pages", JInt 3)]
                        end).
    eexists.
    destruct p as [|[|[|p]]]; (split; [|split]); reflexivity.
  - apply le_n.
  - reflexivity.
  - reflexivity.
  - reflexivity.
  - reflexivity.
Defined.


Lemma refresh_never_out_of_fuel (E : env) (w : world) :
  fst (refresh_access_token E w) <> OutOfFuel.
Proof.
  refresh_cases E w H; rewrite H; discriminate.
Qed.

Lemma get_never_out_of_fuel (E : env) (e : endpoint) (w : world) :
  fst (_get E e w) <> OutOfFuel.
Proof.
  destruct (http_get E (tick w) e (headers w)) as [|c body] eqn:Hr.
  - rewrite get_first_reply_other by (rewrite Hr; exact I). discriminate.
  - destruct (Z.eq_dec c 401) as [->|Hne].
    + rewrite (get_first_reply_401 E e w body Hr).
      pose proof (refresh_never_out_of_fuel E (after_event (EvGet e (headers w)) w))
        as Hfuel.
      destruct (refresh_access_token E (after_event (EvGet e (headers w)) w))
        as [[[|]|ex|] w2]; simpl in *; try discriminate.
      * destruct (is_RequestException ex); discriminate.
      * contradiction.
    + rewrite get_first_reply_other by (rewrite Hr; exact Hne). discriminate.
Qed.

Lemma fetch_all_loop_bad_items (E : env) fuel area role vs page total w data w' e :
  py_lt page total = Ret true ->
  get_vacancies E area role page w = (Ret data, w') ->
  py_bool data = true ->
  py_contains "items" data = Ret true ->
  obind (py_getitem data "items") py_iter = Raise e ->
  fetch_all_loop E (S fuel) area role vs page total w = (Raise e, w').
Proof.
  intros Hlt Hget Hb Hc Hbad. simpl. unfold bind at 1. unfold lift at 1.
  rewrite Hlt. unfold bind at 1. rewrite Hget, Hb.
  unfold bind, lift, ret. rewrite Hc. simpl. rewrite Hbad. reflexivity.
Qed.

Lemma fetch_all_loop_terminates (E : env) area role P :
  consistent_or_malformed E area role P ->
  forall fuel page vs total w,
    pages_fetched P <= page + fuel ->
    (page = 0 /\ total = JInt 1) \/ (1 <= page /\ total = JInt P) ->
    fst (fetch_all_loop E fuel area role vs page total w) <> OutOfFuel.
Proof.
  intros Hcons. unfold pages_fetched.
  induction fuel as [|fuel IH]; intros page vs total w Hfuel Hstate.
  - rewrite fetch_all_loop_done; [discriminate|].
    destruct Hstate as [[-> ->]|[Hp ->]]; simpl; f_equal; lia.
  - destruct (py_lt page total) as [[|]| |] eqn:Hlt.
    2:{ rewrite fetch_all_loop_done by exact Hlt. discriminate. }
    2,3: destruct Hstate as [[-> ->]|[Hp ->]]; discriminate Hlt.
    destruct (get_vacancies E area role page w) as [[data| |] w'] eqn:Hget.
    3:{ pose proof (get_never_out_of_fuel E (Vacancies area role page 100) w) as Hn.
        unfold get_vacancies in Hget. rewrite Hget in Hn. contradiction. }
    2:{ simpl; unfold bind at 1; unfold lift at 1; rewrite Hlt;
        unfold bind at 1; rewrite Hget; simpl; discriminate. }
    destruct (py_bool data) eqn:Hb.
    2:{ rewrite (fetch_all_loop_stop E fuel area role vs page total w data w');
          auto; [discriminate | left; exact Hb]. }
    destruct (py_contains "items" data) as [[|]| |] eqn:Hc.
    2:{ rewrite (fetch_all_loop_stop E fuel area role vs page total w data w');
          auto; [discriminate | right; exact Hc]. }
    3:{ destruct data; discriminate Hc. }
    2:{ simpl; unfold bind at 1; unfold lift at 1; rewrite Hlt;
        unfold bind at 1; rewrite Hget; rewrite Hb;
        unfold bind, lift; simpl; rewrite Hc; simpl; discriminate. }
    destruct data as [| | | | |d];
      try (rewrite (fetch_all_loop_bad_items E fuel area role vs page total w
                      _ w' TypeError Hlt Hget Hb Hc eq_refl);
           simpl; discriminate).
    simpl in Hc.
    destruct (dict_get "items" d) as [items|] eqn:Hitems; [|discriminate].
    destruct (py_iter items) as [its| |] eqn:Hiter.
    + rewrite (fetch_all_loop_continue E fuel area role vs page total w d w'
                 items its); auto.
      rewrite (Hcons page w d w' Hget) by (rewrite Hitems; discriminate).
      apply IH; [lia | right; split; [lia | reflexivity]].
    + rewrite (fetch_all_loop_bad_items E fuel area role vs page total w
                 _ w' e Hlt Hget Hb);
        [simpl; discriminate | simpl; rewrite Hitems; reflexivity
        | simpl; rewrite Hitems; exact Hiter].
    + destruct items; discriminate.
Qed.

(** C3. When every page response either reports the fixed total [P] or is
    absent or lacks the items, [fetch_all_vacancies] terminates: max(P, 1)
    iterations of the loop always suffice.  The loop returns what it has
    collected as soon as the page index is no longer below the reported
    total, and it returns early on a page response that is absent or has no
    items. *)
Theorem fetch_all_vacancies_terminates :
  forall (E : env) (area role : json) (P : Z),
    consistent_or_malformed E area role P ->
    (forall fuel w,
        pages_fetched P <= fuel ->
        fst (fetch_all_vacancies E fuel area role w) <> OutOfFuel)
    /\ (forall fuel vs page w,
          (P <= Z.of_nat page)%Z ->
          fetch_all_loop E fuel area role vs page (JInt P) w = (Ret vs, w))
    /\ (forall fuel vs page total w data w',
          py_lt page total = Ret true ->
          get_vacancies E area role page w = (Ret data, w') ->
          stops data ->
          fetch_all_loop E (S fuel) area role vs page total w = (Ret vs, w')).
Proof.
  intros E area role P Hcons. split; [|split].
  - intros fuel w Hfuel. unfold fetch_all_vacancies.
    apply (fetch_all_loop_terminates E area role P Hcons); auto.
  - intros fuel vs page w HP. apply fetch_all_loop_done.
    simpl. f_equal. lia.
  - intros fuel vs page total w data w'. apply fetch_all_loop_stop.
Qed.

(** ** Saving a batch *)

Lemma stamp_id today area d :
  dict_get "id" (stamp today area d) = dict_get "id" d.
Proof.
  unfold stamp. rewrite !dict_get_set_other by discriminate. reflexivity.
Qed.

Lemma stamp_entry_date today area d :
  dict_get "entry_date" (stamp today area d) = Some (JStr today).
Proof.
  unfold stamp. rewrite dict_get_set_other by discriminate.
  apply dict_get_set_same.
Qed.

Lemma matches_spec id entry_date doc :
  matches id entry_date doc = true
  <-> dict_get "id" doc = Some id /\ dict_get "entry_date" doc = Some entry_date.
Proof.
  unfold matches.
  destruct (dict_get "id" doc) as [i|], (dict_get "entry_date" doc) as [d|];
    try (split; [discriminate | intros [? ?]; discriminate]).
  rewrite andb_true_iff, !json_eqb_spec. split.
  - intros [-> ->]. auto.
  - intros [[= ->] [= ->]]. auto.
Qed.

Lemma existsb_matches_stored store id entry_date :
  existsb (matches id entry_date) store = true <-> stored store id entry_date.
Proof.
  rewrite existsb_exists. unfold stored.
  split; intros [doc [Hin H]]; exists doc; split; auto; apply matches_spec; auto.
Qed.

Lemma truthy_find_matches store id entry_date :
  truthy_doc (find (matches id entry_date) store)
  = existsb (matches id entry_date) store.
Proof.
  induction store as [|doc store IH]; simpl; auto.
  destruct (matches id entry_date doc) eqn:Hm; simpl; auto.
  apply matches_spec in Hm as [Hid _].
  destruct doc; [discriminate | reflexivity].
Qed.

Lemma save_vacancy_cases (E : env) area d vid i dups w :
  dict_get "id" d = Some vid ->
  let today := utcnow E (tick w) in
  let doc := stamp today area d in
  let found := EvFind vid (JStr today) :: trace w in
  save_vacancy E area (JDict d) (i, dups) w
  = if existsb (matches vid (JStr today)) (db w) then
      (Ret (i, S dups),
       World (S (S (tick w))) (ACCESS_TOKEN w) (headers w) (dotenv w) (db w) found)
    else if insert_fails E (S (S (tick w))) doc then
      (match dict_get "url" doc with
       | Some _ => Ret (i, dups)
       | None => Raise (KeyError "url")
       end,
       World (S (S (S (tick w)))) (ACCESS_TOKEN w) (headers w) (dotenv w) (db w)
             (EvInsert doc true :: found))
    else
      (Ret (S i, dups),
       World (S (S (S (tick w)))) (ACCESS_TOKEN w) (headers w) (dotenv w)
             (db w ++ [doc]) (EvInsert doc false :: found)).
Proof.
  intros Hid today doc found.
  unfold save_vacancy, utcnow_strftime, find_one, insert_one.
  unfold_monad. simpl.
  fold today. fold (stamp today area d). fold doc.
  assert (Hid' : dict_get "id" doc = Some vid)
    by (unfold doc; rewrite stamp_id; exact Hid).
  assert (Hdate : dict_get "entry_date" doc = Some (JStr today))
    by (unfold doc; apply stamp_entry_date).
  rewrite Hid', Hdate, truthy_find_matches.
  destruct (existsb (matches vid (JStr today)) (db w)); [reflexivity|].
  simpl. destruct (insert_fails E (S (S (tick w))) doc); simpl; [|reflexivity].
  destruct (dict_get "url" doc); reflexivity.
Qed.

Lemma same_key_sym doc1 doc2 : same_key doc1 doc2 -> same_key doc2 doc1.
Proof.
  intros (i & d & H1 & H2 & H3 & H4). exists i, d. auto.
Qed.

Lemma unique_keys_snoc store doc :
  unique_keys store ->
  (forall old, In old store -> ~ same_key old doc) ->
  unique_keys (store ++ [doc]).
Proof.
  intros Hu Hnew i j doc1 doc2 Hi Hj Hsame.
  destruct (Nat.lt_ge_cases i (length store)) as [Hil|Hil];
    destruct (Nat.lt_ge_cases j (length store)) as [Hjl|Hjl].
  - rewrite nth_error_app1 in Hi, Hj by assumption. eauto.
  - rewrite nth_error_app1 in Hi by assumption.
    rewrite nth_error_app2 in Hj by assumption.
    destruct (j - length store) as [|[|k]]; simpl in Hj; try discriminate.
    injection Hj as <-. apply nth_error_In in Hi.
    exfalso. exact (Hnew _ Hi Hsame).
  - rewrite nth_error_app2 in Hi by assumption.
    rewrite nth_error_app1 in Hj by assumption.
    destruct (i - length store) as [|[|k]]; simpl in Hi; try discriminate.
    injection Hi as <-. apply nth_error_In in Hj.
    exfalso. exact (Hnew _ Hj (same_key_sym _ _ Hsame)).
  - rewrite nth_error_app2 in Hi, Hj by assumption.
    destruct (i - length store) as [|[|k]] eqn:Ei; simpl in Hi; try discriminate.
    destruct (j - length store) as [|[|k]] eqn:Ej; simpl in Hj; try discriminate.
    lia.
Qed.

Lemma not_stored_no_same_key store today area d vid :
  dict_get "id" d = Some vid ->
  existsb (matches vid (JStr today)) store = false ->
  forall old, In old store -> ~ same_key old (stamp today area d).
Proof.
  intros Hid Hex old Hin (i & e & H1 & H2 & H3 & H4).
  rewrite stamp_id, Hid in H3. rewrite stamp_entry_date in H4.
  injection H3 as <-. injection H4 as <-.
  assert (Hst : stored store vid (JStr today)) by (exists old; auto).
  apply existsb_matches_stored in Hst. congruence.
Qed.

(** What one iteration of the loop does, for any listing whatever. *)
Lemma save_vacancy_summary (E : env) area vacancy i dups w :
  let r := save_vacancy E area vacancy (i, dups) w in
  exists new,
    trace (snd r) = new ++ trace w
    /\ filter is_notify new = []
    /\ (forall i' d', fst r = Ret (i', d') ->
          i' + d' + failed_inserts new = S (i + dups))
    /\ (db (snd r) = db w
        \/ exists d vid,
             vacancy = JDict d /\ dict_get "id" d = Some vid
             /\ db (snd r) = db w ++ [stamp (utcnow E (tick w)) area d]
             /\ existsb (matches vid (JStr (utcnow E (tick w)))) (db w) = false).
Proof.
  destruct vacancy as [| | | | |d];
    try (exists []; simpl; repeat split; auto; discriminate).
  destruct (dict_get "id" d) as [vid|] eqn:Hid.
  - intros r. subst r. rewrite (save_vacancy_cases E area d vid i dups w Hid).
    destruct (existsb (matches vid (JStr (utcnow E (tick w)))) (db w)) eqn:Hex;
      [| destruct (insert_fails E (S (S (tick w))) _) eqn:Hf].
    + eexists [_]. simpl. repeat split; auto.
      intros i' d' [= <- <-]. unfold failed_inserts. simpl. lia.
    + eexists [_; _]. simpl. repeat split; auto.
      destruct (dict_get "url" _); [|discriminate].
      intros i' d' [= <- <-]. unfold failed_inserts. simpl. lia.
    + eexists [_; _]. simpl. repeat split; auto.
      * intros i' d' [= <- <-]. unfold failed_inserts. simpl. lia.
      * right. exists d, vid. auto.
  - exists []. unfold save_vacancy, utcnow_strftime. unfold_monad. simpl.
    fold (stamp (utcnow E (tick w)) area d). rewrite stamp_id, Hid. simpl.
    repeat split; auto; discriminate.
Qed.

Lemma save_vacancy_unique_keys (E : env) area vacancy counts w :
  unique_keys (db w) ->
  unique_keys (db (snd (save_vacancy E area vacancy counts w))).
Proof.
  intros Hu. destruct counts as [i dups].
  destruct (save_vacancy_summary E area vacancy i dups w)
    as (new & _ & _ & _ & [Hdb|(d & vid & _ & Hid & Hdb & Hex)]);
    rewrite Hdb; auto.
  apply unique_keys_snoc; auto.
  eapply not_stored_no_same_key; eauto.
Qed.

Lemma save_loop_cons (E : env) area v vs counts w :
  save_loop E area (v :: vs) counts w
  = match save_vacancy E area v counts w with
    | (Ret counts', w1) => save_loop E area vs counts' w1
    | (Raise e, w1) => (Raise e, w1)
    | (OutOfFuel, w1) => (OutOfFuel, w1)
    end.
Proof. reflexivity. Qed.

Lemma save_loop_summary (E : env) area vs : forall i dups w,
  let r := save_loop E area vs (i, dups) w in
  exists new,
    trace (snd r) = new ++ trace w
    /\ filter is_notify new = []
    /\ (forall i' d', fst r = Ret (i', d') ->
          i' + d' + failed_inserts new = i + dups + length vs)
    /\ (unique_keys (db w) -> unique_keys (db (snd r))).
Proof.
  induction vs as [|v vs IH]; intros i dups w.
  - exists []. simpl. repeat split; auto.
    intros i' d' [= <- <-]. unfold failed_inserts. simpl. lia.
  - destruct (save_vacancy_summary E area v i dups w)
      as (new1 & Ht1 & Hn1 & Hc1 & _).
    pose proof (save_vacancy_unique_keys E area v (i, dups) w) as Hu1.
    cbv zeta in *. rewrite save_loop_cons.
    destruct (save_vacancy E area v (i, dups) w) as [[[i1 d1]|e|] w1] eqn:Hstep;
      cbn [fst snd length] in *.
    + destruct (IH i1 d1 w1) as (new2 & Ht2 & Hn2 & Hc2 & Hu2).
      exists (new2 ++ new1). rewrite Ht2, Ht1, app_assoc.
      split; [reflexivity|]. rewrite filter_app, Hn1, Hn2.
      split; [reflexivity|]. split; [|auto].
      intros i' d' Hret. specialize (Hc2 i' d' Hret).
      specialize (Hc1 i1 d1 eq_refl).
      unfold failed_inserts in *. rewrite filter_app, length_app. lia.
    + exists new1. repeat split; auto. discriminate.
    + exists new1. repeat split; auto. discriminate.
Qed.

Lemma bot_send_message_run (E : env) m w :
  bot_send_message E m w
  = (if telegram_fails E (tick w) m then Raise RequestException else Ret tt,
     after_event (EvNotify m) w).
Proof.
  unfold bot_send_message, after_event. unfold_monad. simpl.
  destruct (telegram_fails E (tick w) m); reflexivity.
Qed.

Lemma no_notify_not_in new m :
  filter is_notify new = [] -> ~ In (EvNotify m) new.
Proof.
  intros Hf Hin.
  assert (H : In (EvNotify m) (filter is_notify new))
    by (apply filter_In; auto).
  rewrite Hf in H. exact H.
Qed.

(** The events of a call of [save_vacancies_to_db]: those of the loop, and
    then, if the loop came to its end, the summary. *)
Lemma save_vacancies_to_db_trace (E : env) vs area w :
  let loop := save_loop E area vs (0, 0) w in
  let r := save_vacancies_to_db E vs area w in
  exists new,
    trace (snd loop) = new ++ trace w
    /\ filter is_notify new = []
    /\ match fst loop with
       | Ret (i, d) =>
           i + d + failed_inserts new = length vs
           /\ trace (snd r) = EvNotify (MsgSummary i d) :: new ++ trace w
           /\ fst r = (if telegram_fails E (tick (snd loop)) (MsgSummary i d)
                       then Raise RequestException else Ret tt)
       | Raise e => r = (Raise e, snd loop)
       | OutOfFuel => r = (OutOfFuel, snd loop)
       end.
Proof.
  cbv zeta. destruct (save_loop_summary E area vs 0 0 w) as (new & Ht & Hn & Hc & _).
  cbv zeta in *. exists new. split; [exact Ht | split; [exact Hn|]].
  unfold save_vacancies_to_db, bind.
  destruct (save_loop E area vs (0, 0) w) as [[[i d]|e|] w1]; cbn [fst snd] in *;
    auto.
  rewrite bot_send_message_run. cbn [fst snd]. unfold after_event. simpl.
  rewrite Ht. split; [apply (Hc i d eq_refl) | split; reflexivity].
Qed.

(** C10. Whenever [save_vacancies_to_db] reports its counts for a batch of N
    listings, inserted + duplicates + (inserts that raised) = N: the sum of
    the two reported counts is at most N, the deficit is the number of
    failed inserts, and it is N exactly when no insert failed. *)
Theorem save_counts_account_for_batch :
  forall (E : env) (vacancies : list json) (area_name : json) (w : world)
         (new : list event) (inserted duplicates : nat),
    trace (snd (save_vacancies_to_db E vacancies area_name w)) = new ++ trace w ->
    In (EvNotify (MsgSummary inserted duplicates)) new ->
    inserted + duplicates + failed_inserts new = length vacancies
    /\ inserted + duplicates <= length vacancies
    /\ (inserted + duplicates = length vacancies <-> failed_inserts new = 0).
Proof.
  intros E vs area w new i d Hnew Hin.
  destruct (save_vacancies_to_db_trace E vs area w) as (new1 & Ht & Hn & Hr).
  cbv zeta in *.
  destruct (fst (save_loop E area vs (0, 0) w)) as [[i1 d1]|e|].
  - destruct Hr as (Hsum & Htr & _). rewrite Htr in Hnew.
    change (EvNotify (MsgSummary i1 d1) :: new1 ++ trace w)
      with ((EvNotify (MsgSummary i1 d1) :: new1) ++ trace w) in Hnew.
    apply app_inv_tail in Hnew. subst new.
    destruct Hin as [[= <- <-]|Hin];
      [| exfalso; exact (no_notify_not_in _ _ Hn Hin)].
    unfold failed_inserts in *. simpl. lia.
  - rewrite Hr in Hnew. simpl in Hnew. rewrite Ht in Hnew.
    apply app_inv_tail in Hnew. subst new.
    exfalso. exact (no_notify_not_in _ _ Hn Hin).
  - rewrite Hr in Hnew. simpl in Hnew. rewrite Ht in Hnew.
    apply app_inv_tail in Hnew. subst new.
    exfalso. exact (no_notify_not_in _ _ Hn Hin).
Qed.

Lemma save_counts_account_for_batch_witness :
  trace (snd (save_vacancies_to_db flaky_store
                [listing 1; listing 2; listing 2] (JStr "Москва")
                initial_world))
  = flaky_batch_events ++ trace initial_world
  /\ In (EvNotify (MsgSummary 1 1)) flaky_batch_events
  /\ 1 + 1 + failed_inserts flaky_batch_events = 3.
Proof.
  split; [vm_compute; reflexivity|].
  split; [left; reflexivity|].
  apply (save_counts_account_for_batch flaky_store
           [listing 1; listing 2; listing 2] (JStr "Москва") initial_world
           flaky_batch_events 1 1).
  - vm_compute. reflexivity.
  - left. reflexivity.
Defined.

(** C1 as stated does not hold: with a store that refuses the insert, a
    listing for which no document with its id and today's date exists is
    still not in the store after the batch. *)
Lemma save_leaves_out_listing_when_insert_fails :
  ~ stored (db initial_world) (JInt 7) (JStr "03.11.2026")
  /\ db (snd (save_vacancies_to_db refusing_store [listing 7] (JStr "Москва")
                initial_world)) = [].
Proof.
  split; [|reflexivity].
  intros (doc & Hin & _). exact Hin.
Qed.

(** C1, amended. In the iteration of [save_vacancies_to_db] for a listing
    with an id, the stamped listing is appended to the store if and only if
    no stored document has the same id and the same entry date (today) and
    the insert itself does not fail; otherwise the store is left as it was.
    Hence a batch never creates a second document with an [(id, entry_date)]
    pair that is already stored, while a listing whose id is stored only
    under other dates is inserted again (when the insert does not fail). *)
Theorem save_vacancy_inserts_unless_stored :
  forall (E : env) (area_name : json) (d : dict) (vid : json)
         (counts : nat * nat) (w : world),
    dict_get "id" d = Some vid ->
    let today := JStr (utcnow E (tick w)) in
    let doc := stamp (utcnow E (tick w)) area_name d in
    let store' := db (snd (save_vacancy E area_name (JDict d) counts w)) in
    (store' = db w ++ [doc]
     <-> ~ stored (db w) vid today
         /\ insert_fails E (S (S (tick w))) doc = false)
    /\ (store' = db w ++ [doc] \/ store' = db w)
    /\ dict_get "id" doc = Some vid
    /\ dict_get "entry_date" doc = Some today
    /\ ((forall old, In old (db w) -> dict_get "id" old = Some vid ->
           dict_get "entry_date" old <> Some today) ->
        insert_fails E (S (S (tick w))) doc = false ->
        store' = db w ++ [doc])
    /\ (forall vacancies area_name' w0,
          unique_keys (db w0) ->
          unique_keys (db (snd (save_vacancies_to_db E vacancies area_name' w0)))).
Proof.
  intros E area d vid [i dups] w Hid today doc store'.
  assert (Hiff : store' = db w ++ [doc]
                 <-> ~ stored (db w) vid today
                     /\ insert_fails E (S (S (tick w))) doc = false).
  { subst store'. rewrite (save_vacancy_cases E area d vid i dups w Hid).
    fold doc. fold today.
    assert (Hne : db w <> db w ++ [doc]).
    { intros Heq. apply (f_equal (@length dict)) in Heq.
      rewrite length_app in Heq. simpl in Heq. lia. }
    destruct (existsb (matches vid today) (db w)) eqn:Hex.
    - apply existsb_matches_stored in Hex. simpl. split.
      + intros Heq. contradiction.
      + intros [Hns _]. contradiction.
    - assert (Hns : ~ stored (db w) vid today).
      { intros Hs. apply existsb_matches_stored in Hs. congruence. }
      destruct (insert_fails E (S (S (tick w))) doc); simpl; split; auto.
      + intros Heq. contradiction.
      + intros [_ Hf]. discriminate. }
  split; [exact Hiff | split; [|split; [|split; [|split]]]].
  - subst store'. rewrite (save_vacancy_cases E area d vid i dups w Hid).
    fold doc. fold today.
    destruct (existsb (matches vid today) (db w)); simpl; auto.
    destruct (insert_fails E (S (S (tick w))) doc); simpl; auto.
  - unfold doc. rewrite stamp_id. exact Hid.
  - apply stamp_entry_date.
  - intros Hother Hok. apply Hiff. split; [|exact Hok].
    intros (old & Hin & Hi & Hd). exact (Hother old Hin Hi Hd).
  - intros vs area' w0 Hu.
    destruct (save_loop_summary E area' vs 0 0 w0) as (_ & _ & _ & _ & Hpres).
    cbv zeta in Hpres. specialize (Hpres Hu).
    unfold save_vacancies_to_db, bind.
    destruct (save_loop E area' vs (0, 0) w0) as [[c|e|] w1]; cbn [snd] in *; auto.
    rewrite bot_send_message_run. exact Hpres.
Qed.

Lemma save_vacancy_inserts_unless_stored_witness :
  db (snd (save_vacancy (serving (fun _ => JNull)) (JStr "Москва")
             (JDict [("id", JInt 7)]) (0, 0) initial_world))
  = [stamp "03.11.2026" (JStr "Москва") [("id", JInt 7)]].
Proof.
  apply (proj1 (save_vacancy_inserts_unless_stored (serving (fun _ => JNull))
                  (JStr "Москва") [("id", JInt 7)] (JInt 7) (0, 0)
                  initial_world eq_refl)).
  split; [|reflexivity].
  intros (doc & Hin & _). exact Hin.
Defined.

(** C7 fails on the code: when the insert of a listing without a ['url']
    fails, the handler's own log line raises [KeyError], the batch is
    abandoned after the first listing and no summary is sent. *)
Lemma save_aborts_when_failed_listing_has_no_url :
  fst (save_vacancies_to_db refusing_store [bare_listing 1; bare_listing 2]
         (JStr "Москва") initial_world)
  = Raise (KeyError "url")
  /\ trace (snd (save_vacancies_to_db refusing_store
                   [bare_listing 1; bare_listing 2] (JStr "Москва")
                   initial_world))
     = [EvInsert (stamp "03.11.2026" (JStr "Москва") [("id", JInt 1)]) true;
        EvFind (JInt 1) (JStr "03.11.2026")].
Proof. split; reflexivity. Qed.

Lemma stamp_url today area d :
  dict_get "url" (stamp today area d) = dict_get "url" d.
Proof.
  unfold stamp. rewrite !dict_get_set_other by discriminate. reflexivity.
Qed.

(** What the batch does when every listing carries an id and a url: however
    many inserts fail, every listing is checked for a duplicate and the
    summary is sent once, after the last listing. *)
Lemma save_loop_checks_every_listing (E : env) area vs : forall counts w,
  Forall good_listing vs ->
  exists counts' w' new,
    save_loop E area vs counts w = (Ret counts', w')
    /\ trace w' = new ++ trace w
    /\ length (filter is_find new) = length vs
    /\ filter is_notify new = [].
Proof.
  induction vs as [|v vs IH]; intros counts w Hvs.
  - exists counts, w, []. auto.
  - inversion Hvs as [|? ? (d & -> & Hid & Hurl) Hrest]; subst.
    destruct counts as [i dups].
    destruct (dict_get "id" d) as [vid|] eqn:Hvid; [|contradiction].
    pose proof (save_vacancy_cases E area d vid i dups w Hvid) as Hstep.
    cbv zeta in Hstep. rewrite stamp_url in Hstep.
    destruct (dict_get "url" d); [|contradiction].
    rewrite save_loop_cons, Hstep.
    destruct (existsb _ (db w));
      [| destruct (insert_fails E (S (S (tick w))) _)];
      match goal with
      | |- context [save_loop E area vs ?c ?w1] =>
          destruct (IH c w1 Hrest) as (c' & w' & new & Hrun & Ht & Hf & Hn);
          exists c', w'
      end.
    + exists (new ++ [EvFind vid (JStr (utcnow E (tick w)))]).
      rewrite Hrun, Ht, <- app_assoc, !filter_app, length_app, Hf, Hn.
      simpl. repeat split; auto. lia.
    + eexists (new ++ [EvInsert _ true; EvFind vid (JStr (utcnow E (tick w)))]).
      rewrite Hrun, Ht, <- app_assoc, !filter_app, length_app, Hf, Hn.
      simpl. repeat split; auto. lia.
    + eexists (new ++ [EvInsert _ false; EvFind vid (JStr (utcnow E (tick w)))]).
      rewrite Hrun, Ht, <- app_assoc, !filter_app, length_app, Hf, Hn.
      simpl. repeat split; auto. lia.
Qed.

Lemma save_batch_survives_insert_failures (E : env) vs area w :
  Forall good_listing vs ->
  exists inserted duplicates new,
    trace (snd (save_vacancies_to_db E vs area w))
    = EvNotify (MsgSummary inserted duplicates) :: new ++ trace w
    /\ length (filter is_find new) = length vs
    /\ filter is_notify new = []
    /\ inserted + duplicates + failed_inserts new = length vs.
Proof.
  intros Hvs.
  destruct (save_loop_checks_every_listing E area vs (0, 0) w Hvs)
    as ([i d] & w' & new & Hrun & Ht & Hf & Hn).
  destruct (save_vacancies_to_db_trace E vs area w) as (new1 & Ht1 & _ & Hr).
  cbv zeta in *. rewrite Hrun in *. cbn [fst snd] in *.
  rewrite Ht in Ht1. apply app_inv_tail in Ht1. subst new1.
  destruct Hr as (Hsum & Htr & _).
  exists i, d, new. auto.
Qed.

(** ** The sweep: what happens before the first unit of work *)

Lemma only_lookups_refl w : only_lookups w w.
Proof. split; [reflexivity|]. exists []. auto. Qed.

Lemma only_lookups_trans w1 w2 w3 :
  only_lookups w1 w2 -> only_lookups w2 w3 -> only_lookups w1 w3.
Proof.
  intros [Hd1 (n1 & Ht1 & Hq1)] [Hd2 (n2 & Ht2 & Hq2)].
  split; [congruence|]. exists (n2 ++ n1).
  rewrite Ht2, Ht1, app_assoc. split; [reflexivity|].
  apply Forall_app. auto.
Qed.

Lemma quiet_ret {A} (a : A) : quiet (ret a).
Proof. intros w. apply only_lookups_refl. Qed.

Lemma quiet_lift {A} (o : outcome A) : quiet (lift o).
Proof. intros w. apply only_lookups_refl. Qed.

Lemma quiet_bind {A B} (m : M A) (k : A -> M B) :
  quiet m -> (forall a, quiet (k a)) -> quiet (bind m k).
Proof.
  intros Hm Hk w. specialize (Hm w). unfold bind.
  destruct (m w) as [[a|e|] w1]; simpl in *; auto.
  eapply only_lookups_trans; [exact Hm | apply Hk].
Qed.

Lemma quiet_refresh (E : env) : quiet (refresh_access_token E).
Proof.
  intros w. refresh_cases E w H; rewrite H; (split; [reflexivity|]);
    try (exists [EvPostToken]; split; [reflexivity | repeat constructor]);
    try (eexists [EvSetKey _; EvPostToken];
         split; [reflexivity | repeat constructor]).
Qed.

Lemma lookup_get e auth : not_vacancies e -> is_lookup (EvGet e auth).
Proof. destruct e; simpl; auto. Qed.

Lemma quiet_get (E : env) e : not_vacancies e -> quiet (_get E e).
Proof.
  intros He w.
  assert (Hstep : forall w0, only_lookups w0 (after_event (EvGet e (headers w0)) w0)).
  { intros w0. split; [reflexivity|]. exists [EvGet e (headers w0)].
    split; [reflexivity|]. constructor; auto using lookup_get. }
  destruct (http_get E (tick w) e (headers w)) as [|c body] eqn:Hr.
  - rewrite get_first_reply_other by (rewrite Hr; exact I). apply Hstep.
  - destruct (Z.eq_dec c 401) as [->|Hne].
    + rewrite (get_first_reply_401 E e w body Hr).
      pose proof (quiet_refresh E (after_event (EvGet e (headers w)) w)) as Href.
      destruct (refresh_access_token E (after_event (EvGet e (headers w)) w))
        as [[[|]|ex|] w2]; simpl in *.
      * eapply only_lookups_trans; [apply Hstep|].
        eapply only_lookups_trans; [exact Href | apply Hstep].
      * eapply only_lookups_trans; [apply Hstep | exact Href].
      * destruct (is_RequestException ex); simpl;
          (eapply only_lookups_trans; [apply Hstep | exact Href]).
      * eapply only_lookups_trans; [apply Hstep | exact Href].
    + rewrite get_first_reply_other by (rewrite Hr; exact Hne). apply Hstep.
Qed.

Lemma quiet_fetch_areas (E : env) AREAS : quiet (fetch_areas E AREAS).
Proof.
  unfold fetch_areas, find_country_url, fetch_countries.
  repeat (apply quiet_bind; [| intros ?]);
    try (apply quiet_get; exact I); try apply quiet_ret; try apply quiet_lift.
  destruct (negb _); [apply quiet_ret|].
  apply quiet_bind; [apply quiet_get; exact I | intros areas].
  destruct (py_bool areas); [apply quiet_lift | apply quiet_ret].
Qed.

Lemma quiet_fetch_professional_roles (E : env) :
  quiet (fetch_professional_roles E).
Proof.
  unfold fetch_professional_roles.
  apply quiet_bind; [apply quiet_get; exact I | intros roles].
  destruct (py_bool roles); [apply quiet_lift | apply quiet_ret].
Qed.

(** ** The sweep: units of work under failing GETs and inserts *)

Lemma visits_app new2 new1 : visits (new2 ++ new1) = visits new1 ++ visits new2.
Proof. unfold visits. rewrite rev_app_distr, flat_map_app. reflexivity. Qed.

Lemma returns_ret {A} (a : A) w (post : A -> Prop) :
  post a -> returns (ret a) w [] post.
Proof. intros H. exists a, w, []. auto. Qed.

Lemma returns_lift {A} (o : outcome A) a w (post : A -> Prop) :
  o = Ret a -> post a -> returns (lift o) w [] post.
Proof. intros -> H. exists a, w, []. auto. Qed.

Lemma returns_bind {A B} (m : M A) (k : A -> M B) w ms1 ms2
    (mid : A -> Prop) (post : B -> Prop) :
  returns m w ms1 mid ->
  (forall a w', mid a -> returns (k a) w' ms2 post) ->
  returns (bind m k) w (ms1 ++ ms2) post.
Proof.
  intros (a & w1 & n1 & Hm & Ht1 & Hv1 & Ha) Hk.
  destruct (Hk a w1 Ha) as (b & w2 & n2 & Hk' & Ht2 & Hv2 & Hb).
  exists b, w2, (n2 ++ n1). unfold bind. rewrite Hm, Hk'.
  rewrite Ht2, Ht1, app_assoc, visits_app, Hv1, Hv2. auto.
Qed.

Lemma returns_weaken {A} (m : M A) w ms (post post' : A -> Prop) :
  returns m w ms post -> (forall a, post a -> post' a) -> returns m w ms post'.
Proof.
  intros (a & w' & new & H1 & H2 & H3 & H4) Himp.
  exists a, w', new. auto.
Qed.

Lemma returns_event ev w :
  returns (emit ev) w (visit_of ev) (fun _ => True).
Proof.
  exists tt, (after_event ev w), [ev]. unfold visits. simpl.
  rewrite app_nil_r. auto.
Qed.

Section FailSoft.

Variable E : env.
Variable B : Z.
Hypothesis Hsoft : fail_soft E B.

Lemma returns_refresh w :
  returns (refresh_access_token E) w [] (fun _ => True).
Proof.
  destruct Hsoft as (_ & Hkey & Hoauth & _).
  specialize (Hoauth (tick w)).
  refresh_cases E w H;
    try (eexists _, _, [EvPostToken]; rewrite H; repeat split; reflexivity);
    try (eexists _, _, [EvSetKey _; EvPostToken]; rewrite H;
         repeat split; reflexivity);
    exfalso.
  all: try (rewrite Hkey in *; discriminate).
  all: destruct Hoauth as [Hc|(d' & Hd & Htk)]; [congruence|]; try discriminate Hd.
  all: injection Hd as <-.
  all: destruct (dict_get "access_token" d) as [t|]; [|discriminate].
  all: subst t; destruct Htk as [Hf|[s' Hs]]; [congruence | discriminate Hs].
Qed.

(** A GET of a vacancy page always returns: [None], or a good page. *)
Lemma returns_get_vacancies area role page w :
  returns (get_vacancies E area role page) w []
          (fun data => data = JNull \/ good_page B data).
Proof.
  unfold get_vacancies. set (e := Vacancies area role page 100).
  assert (Habs : forall t auth,
             absorbed (http_get E t e auth) = JNull
             \/ good_page B (absorbed (http_get E t e auth))).
  { intros t auth. destruct Hsoft as (_ & _ & _ & Hpages).
    specialize (Hpages t area role page 100 auth). fold e in Hpages.
    destruct (http_get E t e auth) as [|c body]; simpl; auto.
    destruct (error_status c); auto. destruct Hpages; [discriminate | auto]. }
  destruct (http_get E (tick w) e (headers w)) as [|c body] eqn:Hr.
  - exists (absorbed (http_get E (tick w) e (headers w))),
      (after_event (EvGet e (headers w)) w), [EvGet e (headers w)].
    rewrite get_first_reply_other by (rewrite Hr; exact I).
    repeat split; auto.
  - destruct (Z.eq_dec c 401) as [->|Hne].
    + rewrite (ltac:(reflexivity) : returns (_get E e) w [] _
               = exists a w' new, _get E e w = (Ret a, w') /\ _).
      rewrite (get_first_reply_401 E e w body Hr).
      destruct (returns_refresh (after_event (EvGet e (headers w)) w))
        as (b & w2 & n2 & Hrun & Ht & Hv & _).
      rewrite Hrun. destruct b.
      * eexists _, _, (EvGet e (headers w2) :: n2 ++ [EvGet e (headers w)]).
        split; [reflexivity|]. simpl. rewrite Ht. simpl.
        rewrite <- app_assoc. split; [reflexivity|]. split; [|apply Habs].
        change (EvGet e (headers w2) :: n2 ++ [EvGet e (headers w)])
          with ([EvGet e (headers w2)] ++ n2 ++ [EvGet e (headers w)]).
        rewrite !visits_app, Hv. reflexivity.
      * eexists _, _, (n2 ++ [EvGet e (headers w)]).
        split; [reflexivity|]. rewrite Ht. simpl.
        rewrite <- app_assoc. split; [reflexivity|]. split; [|auto].
        rewrite visits_app, Hv. reflexivity.
    + exists (absorbed (http_get E (tick w) e (headers w))),
        (after_event (EvGet e (headers w)) w), [EvGet e (headers w)].
      rewrite get_first_reply_other by (rewrite Hr; exact Hne).
      repeat split; auto.
Qed.

Lemma returns_after {A} (m m' : M A) w w' n1 (post : A -> Prop) :
  m w = m' w' -> trace w' = n1 ++ trace w -> visits n1 = [] ->
  returns m' w' [] post -> returns m w [] post.
Proof.
  intros Heq Ht Hv (a & w2 & n2 & Hrun & Ht2 & Hv2 & Ha).
  exists a, w2, (n2 ++ n1). rewrite Heq, Hrun, Ht2, Ht, app_assoc.
  rewrite visits_app, Hv, Hv2. auto.
Qed.

Lemma returns_fetch_all_loop area role : forall fuel page vs total w,
  Forall good_listing vs ->
  (exists n, total = JInt n /\ (n <= Z.max B 1)%Z) ->
  pages_fetched B <= page + fuel ->
  returns (fetch_all_loop E fuel area role vs page total) w []
          (Forall good_listing).
Proof.
  unfold pages_fetched.
  induction fuel as [|fuel IH]; intros page vs total w Hvs [n [-> Hn]] Hfuel.
  - exists vs, w, []. rewrite fetch_all_loop_done; [auto|].
    simpl. f_equal. lia.
  - destruct (Z.ltb (Z.of_nat page) n) eqn:Hlt.
    2:{ exists vs, w, []. rewrite fetch_all_loop_done; [auto|].
        simpl. f_equal. exact Hlt. }
    assert (Hpy : py_lt page (JInt n) = Ret true) by (simpl; f_equal; exact Hlt).
    destruct (returns_get_vacancies area role page w)
      as (data & w' & n1 & Hget & Ht & Hv & Hdata).
    assert (Hstop : stops data ->
              returns (fetch_all_loop E (S fuel) area role vs page (JInt n)) w []
                      (Forall good_listing)).
    { intros Hs. exists vs, w', n1.
      rewrite (fetch_all_loop_stop E fuel area role vs page (JInt n) w data w');
        auto. }
    destruct Hdata as [-> | [Hfalsy | (d & -> & Hd)]].
    + apply Hstop. left. reflexivity.
    + apply Hstop. left. exact Hfalsy.
    + destruct (dict_get "items" d) as [items|] eqn:Hitems.
      2:{ apply Hstop. right. simpl. rewrite Hitems. reflexivity. }
      destruct Hd as [(l & -> & Hl) Hpages].
      eapply returns_after; [| exact Ht | exact Hv |].
      * apply (fetch_all_loop_continue E fuel area role vs page (JInt n) w d w'
                 (JList l) l); auto.
      * apply IH; [apply Forall_app; auto | | lia].
        destruct (dict_get "pages" d) as [p|].
        -- destruct Hpages as (m & -> & Hm). exists m. split; [reflexivity | lia].
        -- exists 1%Z. split; [reflexivity | lia].
Qed.

Lemma returns_fetch_all_vacancies fuel area role w :
  pages_fetched B <= fuel ->
  returns (fetch_all_vacancies E fuel area role) w [] (Forall good_listing).
Proof.
  intros Hfuel. apply returns_fetch_all_loop; auto.
  exists 1%Z. split; [reflexivity | lia].
Qed.

Lemma returns_save_loop area vs : forall counts w,
  Forall good_listing vs ->
  returns (save_loop E area vs counts) w [] (fun _ => True).
Proof.
  induction vs as [|v vs IH]; intros counts w Hvs.
  - apply returns_ret. exact I.
  - inversion Hvs as [|? ? (d & -> & Hid & Hurl) Hrest]; subst.
    destruct counts as [i dups].
    destruct (dict_get "id" d) as [vid|] eqn:Hvid; [|contradiction].
    pose proof (save_vacancy_cases E area d vid i dups w Hvid) as Hstep.
    cbv zeta in Hstep. rewrite stamp_url in Hstep.
    destruct (dict_get "url" d); [|contradiction].
    destruct (existsb _ (db w));
      [| destruct (insert_fails E (S (S (tick w))) _)];
      (eapply returns_after;
       [rewrite save_loop_cons, Hstep; reflexivity | | | apply IH; exact Hrest]).
    + instantiate (1 := [_]). reflexivity.
    + reflexivity.
    + instantiate (1 := [_; _]). reflexivity.
    + reflexivity.
    + instantiate (1 := [_; _]). reflexivity.
    + reflexivity.
Qed.

Lemma returns_notify m w :
  returns (bot_send_message E m) w (visit_of (EvNotify m)) (fun _ => True).
Proof.
  destruct Hsoft as (Htg & _).
  exists tt, (after_event (EvNotify m) w), [EvNotify m].
  rewrite bot_send_message_run, Htg. unfold visits. simpl.
  rewrite app_nil_r. auto.
Qed.

Lemma returns_save_vacancies_to_db vs area w :
  Forall good_listing vs ->
  returns (save_vacancies_to_db E vs area) w [] (fun _ => True).
Proof.
  intros Hvs. unfold save_vacancies_to_db.
  change (@nil message) with (@nil message ++ []).
  eapply returns_bind; [apply returns_save_loop; exact Hvs|].
  intros counts w' _. apply (returns_notify (MsgSummary _ _)).
Qed.

Lemma entry_names name id x :
  entry name id x -> name_of x = name /\ id_of x = id.
Proof.
  intros [Hn Hi]. unfold name_of, id_of. rewrite Hn, Hi. auto.
Qed.

Lemma returns_bind_lift {A C} (o : outcome A) a (k : A -> M C) w ms
    (post : C -> Prop) :
  o = Ret a -> returns (k a) w ms post -> returns (bind (lift o) k) w ms post.
Proof. intros -> H. exact H. Qed.

Lemma returns_process_role fuel area role w :
  pages_fetched B <= fuel -> has_entry area -> has_entry role ->
  returns (process_role E fuel area role) w
          [MsgFetchingRole (name_of role) (id_of role)] (fun _ => True).
Proof.
  intros Hfuel (an & ai & Han & Hai) (rn & ri & Hrn & Hri).
  destruct (entry_names rn ri role (conj Hrn Hri)) as [-> ->].
  unfold process_role.
  apply (returns_bind_lift _ rn); [exact Hrn|].
  apply (returns_bind_lift _ ri); [exact Hri|].
  change [MsgFetchingRole rn ri]
    with (visit_of (EvNotify (MsgFetchingRole rn ri)) ++ []).
  eapply returns_bind; [apply returns_notify|].
  intros ? w3 _.
  apply (returns_bind_lift _ ai); [exact Hai|].
  apply (returns_bind_lift _ ri); [exact Hri|].
  change (@nil message) with (@nil message ++ []).
  eapply returns_bind; [apply returns_fetch_all_vacancies; exact Hfuel|].
  intros vacancies w6 Hvs.
  apply (returns_bind_lift _ an); [exact Han|].
  apply returns_save_vacancies_to_db. exact Hvs.
Qed.

Lemma returns_for_each {A} (body : A -> M unit) (plan : A -> list message)
    (l : list A) :
  Forall (fun x => forall w, returns (body x) w (plan x) (fun _ => True)) l ->
  forall w, returns (for_each l body) w (flat_map plan l) (fun _ => True).
Proof.
  induction 1 as [|x l Hx _ IH]; intros w; simpl.
  - apply returns_ret. exact I.
  - eapply returns_bind; [apply Hx|]. intros _ w' _. apply IH.
Qed.

Lemma flat_map_singleton {A C} (f : A -> C) (l : list A) :
  flat_map (fun x => [f x]) l = map f l.
Proof. induction l; simpl; congruence. Qed.

Lemma flat_map_map_concat {A C} (f : A -> C) (ll : list (list A)) :
  flat_map (map f) ll = map f (concat ll).
Proof.
  induction ll as [|l ll IH]; simpl; auto. rewrite map_app, IH. reflexivity.
Qed.

Lemma returns_process_area fuel filtered_roles area w :
  pages_fetched B <= fuel -> has_entry area ->
  Forall (Forall has_entry) filtered_roles ->
  returns (process_area E fuel filtered_roles area) w
          (MsgProcessingArea (name_of area) (id_of area)
           :: map (fun role => MsgFetchingRole (name_of role) (id_of role))
                  (concat filtered_roles))
          (fun _ => True).
Proof.
  intros Hfuel Harea Hroles.
  destruct Harea as (an & ai & Han & Hai).
  destruct (entry_names an ai area (conj Han Hai)) as [-> ->].
  unfold process_area.
  apply (returns_bind_lift _ an); [exact Han|].
  apply (returns_bind_lift _ ai); [exact Hai|].
  change (MsgProcessingArea an ai
          :: map (fun role => MsgFetchingRole (name_of role) (id_of role))
               (concat filtered_roles))
    with (visit_of (EvNotify (MsgProcessingArea an ai))
            ++ map (fun role => MsgFetchingRole (name_of role) (id_of role))
                 (concat filtered_roles)).
  eapply returns_bind; [apply returns_notify|].
  intros ? w3 _.
  rewrite <- flat_map_map_concat.
  apply (returns_for_each _
           (map (fun role => MsgFetchingRole (name_of role) (id_of role)))).
  eapply Forall_impl; [|exact Hroles].
  intros roles Hrs w4. rewrite <- flat_map_singleton.
  apply (returns_for_each _
           (fun role => [MsgFetchingRole (name_of role) (id_of role)])).
  eapply Forall_impl; [|exact Hrs].
  intros role Hrole w5. apply returns_process_role; auto.
  exists an, ai. split; assumption.
Qed.

(** Under [fail_soft] every unit of work is carried through. *)
Lemma unit_of_work_done fuel area role w :
  pages_fetched B <= fuel -> has_entry area -> has_entry role ->
  exists w', process_role E fuel area role w = (Ret tt, w')
             /\ unit_of_work E fuel area role w w'.
Proof.
  intros Hfuel (an & ai & Han & Hai) (rn & ri & Hrn & Hri).
  destruct (entry_names rn ri role (conj Hrn Hri)) as [Hrn' Hri'].
  destruct (entry_names an ai area (conj Han Hai)) as [Han' Hai'].
  destruct Hsoft as (Htg & _).
  destruct (returns_fetch_all_vacancies fuel ai ri
              (after_event (EvNotify (MsgFetchingRole rn ri)) w) Hfuel)
    as (vs & w1 & n1 & Hfetch & _ & _ & Hvs).
  destruct (returns_save_vacancies_to_db vs an w1 Hvs)
    as ([] & w' & n2 & Hsave & _ & _ & _).
  destruct (save_batch_survives_insert_failures E vs an w1 Hvs)
    as (i & dups & calls & Ht & Hfind & Hnot & Hsum).
  rewrite Hsave in Ht. cbn [snd] in Ht.
  exists w'. split.
  - unfold process_role.
    rewrite (bind_lift_ret _ rn) by exact Hrn.
    rewrite (bind_lift_ret _ ri) by exact Hri.
    erewrite bind_ret_l; [|rewrite bot_send_message_run, Htg; reflexivity].
    cbv beta.
    rewrite (bind_lift_ret _ ai) by exact Hai.
    rewrite (bind_lift_ret _ ri) by exact Hri.
    rewrite (bind_ret_l _ _ _ _ _ Hfetch). cbv beta.
    rewrite (bind_lift_ret _ an) by exact Han.
    exact Hsave.
  - unfold unit_of_work. rewrite Hrn', Hri', Han', Hai'.
    exists vs, w1, calls, i, dups. auto 7.
Qed.

Lemma in_turn_app {A} (step : A -> world -> world -> Prop) l1 l2 :
  forall w w1 w',
    in_turn step l1 w w1 -> in_turn step l2 w1 w' ->
    in_turn step (l1 ++ l2) w w'.
Proof.
  induction l1 as [|x l1 IH]; simpl; intros w w1 w' H1 H2.
  - subst w1. exact H2.
  - destruct H1 as (w0 & Hx & Hrest). exists w0. eauto.
Qed.

Lemma for_each_in_turn {A} (body : A -> M unit)
    (step : A -> world -> world -> Prop) (l : list A) :
  Forall (fun x => forall w, exists w', body x w = (Ret tt, w') /\ step x w w') l ->
  forall w, exists w', for_each l body w = (Ret tt, w') /\ in_turn step l w w'.
Proof.
  induction 1 as [|x l Hx _ IH]; intros w; simpl.
  - exists w. split; reflexivity.
  - destruct (Hx w) as (w1 & Hrun & Hstep).
    destruct (IH w1) as (w' & Hrest & Hturn).
    exists w'. split; [|exists w1; auto].
    rewrite (bind_ret_l _ _ _ _ _ Hrun). exact Hrest.
Qed.

Lemma roles_in_turn fuel area filtered_roles :
  pages_fetched B <= fuel -> has_entry area ->
  Forall (Forall has_entry) filtered_roles ->
  forall w, exists w',
    for_each filtered_roles (fun roles => for_each roles (process_role E fuel area)) w
    = (Ret tt, w')
    /\ in_turn (unit_of_work E fuel area) (concat filtered_roles) w w'.
Proof.
  intros Hfuel Harea. induction 1 as [|roles rest Hroles _ IH]; intros w; simpl.
  - exists w. split; reflexivity.
  - destruct (for_each_in_turn (process_role E fuel area)
                (unit_of_work E fuel area) roles) with (w := w)
      as (w1 & Hrun & Hturn).
    { eapply Forall_impl; [|exact Hroles].
      intros role Hrole w0. apply unit_of_work_done; assumption. }
    destruct (IH w1) as (w' & Hrest & Hturn').
    exists w'. split; [|eapply in_turn_app; eauto].
    rewrite (bind_ret_l _ _ _ _ _ Hrun). exact Hrest.
Qed.

Lemma area_of_work_done fuel filtered_roles area w :
  pages_fetched B <= fuel -> has_entry area ->
  Forall (Forall has_entry) filtered_roles ->
  exists w', process_area E fuel filtered_roles area w = (Ret tt, w')
             /\ area_of_work E fuel filtered_roles area w w'.
Proof.
  intros Hfuel Harea Hroles.
  destruct (roles_in_turn fuel area filtered_roles Hfuel Harea Hroles
              (after_event (EvNotify (MsgProcessingArea (name_of area)
                                                        (id_of area))) w))
    as (w' & Hrun & Hturn).
  exists w'. split; [|exact Hturn].
  destruct Harea as (an & ai & Han & Hai).
  destruct (entry_names an ai area (conj Han Hai)) as [Han' Hai'].
  rewrite Han', Hai' in Hrun.
  destruct Hsoft as (Htg & _).
  unfold process_area.
  rewrite (bind_lift_ret _ an) by exact Han.
  rewrite (bind_lift_ret _ ai) by exact Hai.
  erewrite bind_ret_l; [|rewrite bot_send_message_run, Htg; reflexivity].
  exact Hrun.
Qed.

End FailSoft.

(** C8 as stated does not hold: with one area and one role resolved, a
    notifier that cannot be reached makes [bot_send_message] raise, nothing
    catches it, and the sweep ends before any vacancy is fetched. *)
Lemma sweep_aborts_when_notifier_fails :
  fst (fetch_and_store_vacancies unreachable_notifier ["Москва"] 1 initial_world)
  = Raise RequestException
  /\ trace (snd (fetch_and_store_vacancies unreachable_notifier ["Москва"] 1
                   initial_world))
     = [EvNotify (MsgProcessingArea (JStr "Москва") (JStr "1"));
        EvGet ProfessionalRoles (JStr "t0");
        EvGet (AreaTree (JStr "https://api.hh.ru/areas/113")) (JStr "t0");
        EvGet Countries (JStr "t0")].
Proof. split; reflexivity. Qed.

(** C8, amended. [fetch_and_store_vacancies] returns early, having made only
    lookups (no vacancy request, no notification, nothing read from or
    written to the store), when the area resolution gives an empty list and
    when the role categories come back empty.  With both lists non-empty,
    failed GETs, token refreshes that report failure, pages without items
    and failed inserts do not end the sweep: as long as the notifier and the
    configuration store work, the token responses that arrive are objects
    whose token is a string, and the entries carry the fields that are
    read, it returns after every area and, for each, every surviving role
    has been worked in order: the unit is announced, its listings are
    fetched, the batch writer is run on them, looks every one of them up
    and sends the summary. *)
Theorem sweep_returns_early_only_on_empty_lists :
  forall (E : env) (AREAS : list string) (fuel : nat) (w : world),
    (forall w1,
        fetch_areas E AREAS w = (Ret [], w1) ->
        fetch_and_store_vacancies E AREAS fuel w = (Ret tt, w1)
        /\ only_lookups w w1)
    /\ (forall areas w1 roles w2,
          fetch_areas E AREAS w = (Ret areas, w1) ->
          areas <> [] ->
          fetch_professional_roles E w1 = (Ret roles, w2) ->
          py_bool roles = false ->
          fetch_and_store_vacancies E AREAS fuel w = (Ret tt, w2)
          /\ only_lookups w w2)
    /\ (forall B areas w1 roles w2 filtered_roles,
          fail_soft E B ->
          pages_fetched B <= fuel ->
          fetch_areas E AREAS w = (Ret areas, w1) ->
          areas <> [] ->
          fetch_professional_roles E w1 = (Ret roles, w2) ->
          py_bool roles = true ->
          filtered_roles_of roles = Ret filtered_roles ->
          Forall has_entry areas ->
          Forall (Forall has_entry) filtered_roles ->
          exists w' new,
            fetch_and_store_vacancies E AREAS fuel w = (Ret tt, w')
            /\ trace w' = new ++ trace w2
            /\ visits new = sweep_plan areas filtered_roles
            /\ sweep_of_work E fuel areas filtered_roles w2 w').
Proof.
  intros E AREAS fuel w. split; [|split].
  - intros w1 Hareas. split.
    + unfold fetch_and_store_vacancies.
      rewrite (bind_ret_l _ _ _ _ _ Hareas). reflexivity.
    + pose proof (quiet_fetch_areas E AREAS w) as H.
      rewrite Hareas in H. exact H.
  - intros areas w1 roles w2 Hareas Hne Hroles Hfalsy. split.
    + unfold fetch_and_store_vacancies.
      rewrite (bind_ret_l _ _ _ _ _ Hareas).
      destruct areas as [|area0 areas]; [contradiction|].
      change (negb (py_bool (JList (area0 :: areas)))) with false. cbv iota.
      rewrite (bind_ret_l _ _ _ _ _ Hroles), Hfalsy. reflexivity.
    + pose proof (quiet_fetch_areas E AREAS w) as H1.
      pose proof (quiet_fetch_professional_roles E w1) as H2.
      rewrite Hareas in H1. rewrite Hroles in H2.
      eapply only_lookups_trans; eauto.
  - intros B areas w1 roles w2 filtered Hsoft Hfuel Hareas Hne Hroles Htruthy
           Hfiltered Hwa Hwr.
    assert (Hloop : returns (for_each areas (process_area E fuel filtered)) w2
                            (sweep_plan areas filtered) (fun _ => True)).
    { apply (returns_for_each _
               (fun area =>
                  MsgProcessingArea (name_of area) (id_of area)
                  :: map (fun role => MsgFetchingRole (name_of role) (id_of role))
                       (concat filtered))).
      eapply Forall_impl; [|exact Hwa].
      intros area Harea w0.
      apply (returns_process_area E B Hsoft); auto. }
    destruct Hloop as ([] & w' & new & Hrun & Ht & Hv & _).
    destruct (for_each_in_turn (process_area E fuel filtered)
                (area_of_work E fuel filtered) areas) with (w := w2)
      as (w'' & Hrun' & Hturn).
    { eapply Forall_impl; [|exact Hwa].
      intros area Harea w0.
      apply (area_of_work_done E B Hsoft); assumption. }
    rewrite Hrun in Hrun'. injection Hrun' as <-.
    exists w', new. split; [|auto].
    unfold fetch_and_store_vacancies.
    rewrite (bind_ret_l _ _ _ _ _ Hareas).
    destruct areas as [|area0 areas]; [contradiction|].
      change (negb (py_bool (JList (area0 :: areas)))) with false. cbv iota.
    rewrite (bind_ret_l _ _ _ _ _ Hroles), Htruthy. simpl negb. cbv iota.
    unfold bind at 1. unfold lift. rewrite Hfiltered. exact Hrun.
Qed.

Lemma sweep_returns_early_only_on_empty_lists_witness :
  exists w' new,
    fetch_and_store_vacancies (serving small_upstream) ["Москва"; "Казань"] 1
      initial_world = (Ret tt, w')
    /\ trace w'
       = new ++ trace (snd (fetch_professional_roles (serving small_upstream)
                              (snd (fetch_areas (serving small_upstream)
                                      ["Москва"; "Казань"] initial_world))))
    /\ visits new
       = [MsgProcessingArea (JStr "Москва") (JStr "1");
          MsgFetchingRole (JStr "Программист") (JStr "96");
          MsgProcessingArea (JStr "Казань") (JStr "2");
          MsgFetchingRole (JStr "Программист") (JStr "96")].
Proof.
  assert (H : fail_soft (serving small_upstream) 1).
  { split; [|split; [|split]].
    - intros t m. reflexivity.
    - intros t. reflexivity.
    - intros t. right. eexists. split; [reflexivity|]. right. eexists.
      reflexivity.
    - intros t area role page per_page auth. right. right.
      eexists. split; [reflexivity|]. simpl. split.
      + eexists. split; [reflexivity|]. repeat constructor.
        eexists. split; [reflexivity|]. split; discriminate.
      + eexists. split; [reflexivity|]. apply Z.le_refl. }
  destruct (proj2 (proj2 (sweep_returns_early_only_on_empty_lists
              (serving small_upstream) ["Москва"; "Казань"] 1 initial_world))
            1%Z
            [JDict [("id", JStr "1"); ("name", JStr "Москва")];
             JDict [("id", JStr "2"); ("name", JStr "Казань")]]
            (snd (fetch_areas (serving small_upstream) ["Москва"; "Казань"]
                    initial_world))
            (JList [JDict [("roles",
                            JList [JDict [("id", JStr "96");
                                          ("name", JStr "Программист")]])]])
            (snd (fetch_professional_roles (serving small_upstream)
                    (snd (fetch_areas (serving small_upstream)
                            ["Москва"; "Казань"] initial_world))))
            [[JDict [("id", JStr "96"); ("name", JStr "Программист")]]]
            H (le_n 1) eq_refl)
    as (w' & new & Hrun & Htrace & Hplan & _).
  - discriminate.
  - reflexivity.
  - reflexivity.
  - reflexivity.
  - repeat constructor; eexists; eexists; split; reflexivity.
  - repeat constructor; eexists; eexists; split; reflexivity.
  - exists w', new. split; [exact Hrun | split; [exact Htrace | exact Hplan]].
Defined.

Lemma fetch_all_vacancies_terminates_witness :
  ran_to_end (fst (fetch_all_vacancies (serving three_pages) 3 (JInt 1)
                     (JInt 96) initial_world)) = true.
Proof.
  assert (H : fst (fetch_all_vacancies (serving three_pages) 3 (JInt 1)
                     (JInt 96) initial_world) <> OutOfFuel).
  { refine (proj1 (fetch_all_vacancies_terminates (serving three_pages)
                     (JInt 1) (JInt 96) 3 _) 3 initial_world _).
    - intros p w d w' Hget _.
      destruct p as [|[|[|p]]]; simpl in Hget; injection Hget as <- _;
        reflexivity.
    - apply le_n. }
  destruct (fst (fetch_all_vacancies (serving three_pages) 3 (JInt 1)
                   (JInt 96) initial_world));
    [reflexivity | reflexivity | contradiction].
Defined.

(** * Further properties of the client *)

(** ** Relations kept by every method *)

Section StepInvariant.

Variable E : env.
Variable R : world -> world -> Prop.
Hypothesis HR : step_invariant E R.

Lemma keeps_ret {A} (a : A) : keeps R (ret a).
Proof. intros w. apply (inv_refl E R HR). Qed.

Lemma keeps_lift {A} (o : outcome A) : keeps R (lift o).
Proof. intros w. apply (inv_refl E R HR). Qed.

Lemma keeps_bind {A C} (m : M A) (k : A -> M C) :
  keeps R m -> (forall a, keeps R (k a)) -> keeps R (bind m k).
Proof.
  intros Hm Hk w. specialize (Hm w). unfold bind.
  destruct (m w) as [[a|e|] w1]; simpl in *; auto.
  eapply (inv_trans E R HR); [exact Hm | apply Hk].
Qed.

Lemma keeps_try_except {A} (body : M A) catches (handler : exn -> M A) :
  keeps R body -> (forall e, keeps R (handler e)) ->
  keeps R (try_except body catches handler).
Proof.
  intros Hb Hh w. specialize (Hb w). unfold try_except.
  destruct (body w) as [[a|e|] w1]; simpl in *; auto.
  destruct (catches e); simpl; auto.
  eapply (inv_trans E R HR); [exact Hb | apply Hh].
Qed.

Lemma keeps_if {A} (b : bool) (m1 m2 : M A) :
  keeps R m1 -> keeps R m2 -> keeps R (if b then m1 else m2).
Proof. destruct b; auto. Qed.

Lemma keeps_notify m : keeps R (bot_send_message E m).
Proof.
  intros w. rewrite bot_send_message_run. apply (inv_notify E R HR).
Qed.

Lemma keeps_get e : keeps R (_get E e).
Proof.
  intros w.
  destruct (http_get E (tick w) e (headers w)) as [|c body] eqn:Hr.
  - rewrite get_first_reply_other by (rewrite Hr; exact I).
    apply (inv_get E R HR).
  - destruct (Z.eq_dec c 401) as [->|Hne].
    + rewrite (get_first_reply_401 E e w body Hr).
      pose proof (inv_refresh E R HR (after_event (EvGet e (headers w)) w)) as Href.
      pose proof (inv_get E R HR e w) as Hfirst.
      destruct (refresh_access_token E (after_event (EvGet e (headers w)) w))
        as [[[|]|ex|] w2]; simpl in *.
      * eapply (inv_trans E R HR); [exact Hfirst|].
        eapply (inv_trans E R HR); [exact Href | apply (inv_get E R HR)].
      * eapply (inv_trans E R HR); eauto.
      * destruct (is_RequestException ex); simpl;
          (eapply (inv_trans E R HR); eauto).
      * eapply (inv_trans E R HR); eauto.
    + rewrite get_first_reply_other by (rewrite Hr; exact Hne).
      apply (inv_get E R HR).
Qed.

Lemma keeps_fetch_areas AREAS : keeps R (fetch_areas E AREAS).
Proof.
  unfold fetch_areas, find_country_url, fetch_countries.
  repeat (apply keeps_bind; [| intros ?]);
    try apply keeps_get; try apply keeps_ret; try apply keeps_lift.
  apply keeps_if; [apply keeps_ret|].
  apply keeps_bind; [apply keeps_get | intros areas].
  apply keeps_if; [apply keeps_lift | apply keeps_ret].
Qed.

Lemma keeps_fetch_professional_roles : keeps R (fetch_professional_roles E).
Proof.
  unfold fetch_professional_roles.
  apply keeps_bind; [apply keeps_get | intros roles].
  apply keeps_if; [apply keeps_lift | apply keeps_ret].
Qed.

Lemma keeps_fetch_all_loop area role : forall fuel vs page total,
  keeps R (fetch_all_loop E fuel area role vs page total).
Proof.
  induction fuel as [|fuel IH]; intros vs page total; simpl.
  - apply keeps_bind; [apply keeps_lift | intros again].
    apply keeps_if; [|apply keeps_ret].
    intros w. apply (inv_refl E R HR).
  - apply keeps_bind; [apply keeps_lift | intros again].
    apply keeps_if; [|apply keeps_ret].
    apply keeps_bind; [apply keeps_get | intros data].
    apply keeps_bind.
    + apply keeps_if; [apply keeps_ret|].
      apply keeps_bind; [apply keeps_lift | intros; apply keeps_ret].
    + intros stop. apply keeps_if; [apply keeps_ret|].
      apply keeps_bind; [apply keeps_lift | intros items].
      apply keeps_bind; [apply keeps_lift | intros total']. apply IH.
Qed.

Lemma keeps_save_vacancy area vacancy counts :
  keeps R (save_vacancy E area vacancy counts).
Proof. intros w. apply (inv_save E R HR). Qed.

Lemma keeps_save_loop area vs : forall counts,
  keeps R (save_loop E area vs counts).
Proof.
  induction vs as [|v vs IH]; intros counts; simpl.
  - apply keeps_ret.
  - apply keeps_bind; [apply keeps_save_vacancy | intros; apply IH].
Qed.

Lemma keeps_save_vacancies_to_db vs area :
  keeps R (save_vacancies_to_db E vs area).
Proof.
  unfold save_vacancies_to_db.
  apply keeps_bind; [apply keeps_save_loop | intros; apply keeps_notify].
Qed.

Lemma keeps_for_each {A} (l : list A) (body : A -> M unit) :
  (forall x, keeps R (body x)) -> keeps R (for_each l body).
Proof.
  intros Hb. induction l as [|x l IH]; simpl.
  - apply keeps_ret.
  - apply keeps_bind; [apply Hb | intros; exact IH].
Qed.

Lemma keeps_process_role fuel area role :
  keeps R (process_role E fuel area role).
Proof.
  unfold process_role.
  apply keeps_bind; [apply keeps_lift | intros role_name].
  apply keeps_bind; [apply keeps_lift | intros role_id].
  apply keeps_bind; [apply keeps_notify | intros _].
  apply keeps_bind; [apply keeps_lift | intros area_id].
  apply keeps_bind; [apply keeps_lift | intros role_id'].
  apply keeps_bind; [apply keeps_fetch_all_loop | intros vacancies].
  apply keeps_bind; [apply keeps_lift | intros area_name].
  apply keeps_save_vacancies_to_db.
Qed.

Lemma keeps_process_area fuel filtered_roles area :
  keeps R (process_area E fuel filtered_roles area).
Proof.
  unfold process_area.
  apply keeps_bind; [apply keeps_lift | intros area_name].
  apply keeps_bind; [apply keeps_lift | intros area_id].
  apply keeps_bind; [apply keeps_notify | intros _].
  apply keeps_for_each. intros roles. apply keeps_for_each.
  intros role. apply keeps_process_role.
Qed.

Lemma keeps_sweep AREAS fuel : keeps R (fetch_and_store_vacancies E AREAS fuel).
Proof.
  unfold fetch_and_store_vacancies.
  apply keeps_bind; [apply keeps_fetch_areas | intros areas].
  apply keeps_if; [apply keeps_ret|].
  apply keeps_bind; [apply keeps_fetch_professional_roles | intros roles].
  apply keeps_if; [apply keeps_ret|].
  apply keeps_bind; [apply keeps_lift | intros filtered].
  apply keeps_for_each. intros area. apply keeps_process_area.
Qed.

End StepInvariant.

Lemma save_vacancy_client_unchanged (E : env) area vacancy counts w :
  let w' := snd (save_vacancy E area vacancy counts w) in
  ACCESS_TOKEN w' = ACCESS_TOKEN w /\ headers w' = headers w
  /\ dotenv w' = dotenv w.
Proof.
  destruct counts as [i dups].
  destruct vacancy as [| | | | |d]; try solve [simpl; auto].
  cbv zeta. destruct (dict_get "id" d) as [vid|] eqn:Hid.
  - rewrite (save_vacancy_cases E area d vid i dups w Hid).
    destruct (existsb _ (db w)); [simpl; auto|].
    destruct (insert_fails E (S (S (tick w))) _); simpl; auto.
  - unfold save_vacancy, utcnow_strftime. unfold_monad. simpl.
    fold (stamp (utcnow E (tick w)) area d). rewrite stamp_id, Hid. simpl. auto.
Qed.

Lemma refresh_access_token_client (E : env) w :
  let w' := snd (refresh_access_token E w) in
  db w' = db w
  /\ (headers w = ACCESS_TOKEN w -> headers w' = ACCESS_TOKEN w').
Proof.
  simpl.
  refresh_cases E w H; rewrite H; simpl; auto.
Qed.

Lemma header_follows_token_invariant (E : env) :
  step_invariant E header_follows_token.
Proof.
  constructor; unfold header_follows_token.
  - auto.
  - auto.
  - intros m w. simpl. auto.
  - intros e w. simpl. auto.
  - intros w. apply (refresh_access_token_client E w).
  - intros area vacancy counts w.
    destruct (save_vacancy_client_unchanged E area vacancy counts w)
      as (Ht & Hh & _).
    rewrite Ht, Hh. auto.
Qed.

Lemma store_grows_refl w : store_grows w w.
Proof. exists []. rewrite app_nil_r. auto. Qed.

Lemma store_grows_same w w' : db w' = db w -> store_grows w w'.
Proof. intros H. exists []. rewrite app_nil_r. auto. Qed.

Lemma store_grows_invariant (E : env) : step_invariant E store_grows.
Proof.
  constructor.
  - apply store_grows_refl.
  - intros w1 w2 w3 (a1 & H1 & F1) (a2 & H2 & F2).
    exists (a1 ++ a2). rewrite H2, H1, app_assoc.
    split; [reflexivity | apply Forall_app; auto].
  - intros m w. apply store_grows_same. reflexivity.
  - intros e w. apply store_grows_same. reflexivity.
  - intros w. apply store_grows_same. apply (refresh_access_token_client E w).
  - intros area vacancy [i dups] w.
    destruct (save_vacancy_summary E area vacancy i dups w)
      as (new & _ & _ & _ & [Hdb|(d & vid & _ & Hid & Hdb & _)]).
    + apply store_grows_same. exact Hdb.
    + eexists [_]. split; [exact Hdb|]. constructor; [|constructor].
      exists (utcnow E (tick w)), area, d. split; [reflexivity|].
      rewrite Hid. discriminate.
Qed.

(** X1. A run of the program never deletes or rewrites a stored document:
    whatever the servers, the clock and the store do, the collection after
    [main] is the collection before with documents appended, and every
    appended document is a listing that carried an id, stamped with an
    entry date and an area name. *)
Theorem main_only_appends_stamped_listings :
  forall (E : env) (token : json) (regions : list string) (fuel : nat)
         (w : world),
    exists added,
      db (snd (main E token regions fuel w)) = db w ++ added
      /\ Forall (fun doc =>
                   dict_get "id" doc <> None
                   /\ (exists today, dict_get "entry_date" doc = Some (JStr today))
                   /\ dict_get "area_name" doc <> None) added.
Proof.
  intros E token regions fuel w. unfold main.
  destruct (keeps_sweep E store_grows (store_grows_invariant E) regions fuel
              (ApiHhRu_init token w)) as (added & Hdb & Hall).
  exists added. split; [exact Hdb|].
  eapply Forall_impl; [|exact Hall].
  intros doc (today & area & d & -> & Hid).
  rewrite stamp_id, stamp_entry_date. split; [exact Hid|].
  split; [exists today; reflexivity|].
  unfold stamp. rewrite dict_get_set_same. discriminate.
Qed.

(** X2. The authorization header always carries the in-memory token: it
    does so when the client is constructed, and no method run by [main]
    (a refresh that succeeds, fails or raises included) separates the two. *)
Theorem main_keeps_header_and_token_together :
  forall (E : env) (token : json) (regions : list string) (fuel : nat)
         (w : world),
    headers (ApiHhRu_init token w) = token
    /\ headers (snd (main E token regions fuel w))
       = ACCESS_TOKEN (snd (main E token regions fuel w)).
Proof.
  intros E token regions fuel w. split; [reflexivity|].
  unfold main.
  apply (keeps_sweep E header_follows_token (header_follows_token_invariant E)
           regions fuel (ApiHhRu_init token w)).
  reflexivity.
Qed.

(** ** More on the GET primitive and the refresh *)

Lemma get_store_unchanged (E : env) (e : endpoint) (w : world) :
  db (snd (_get E e w)) = db w.
Proof.
  destruct (http_get E (tick w) e (headers w)) as [|c body] eqn:Hr.
  - rewrite get_first_reply_other by (rewrite Hr; exact I). reflexivity.
  - destruct (Z.eq_dec c 401) as [->|Hne].
    + rewrite (get_first_reply_401 E e w body Hr).
      pose proof (refresh_access_token_client E
                    (after_event (EvGet e (headers w)) w)) as [Href _].
      destruct (refresh_access_token E (after_event (EvGet e (headers w)) w))
        as [[[|]|ex'|] w2]; simpl in *; auto.
      destruct (is_RequestException ex'); simpl; auto.
    + rewrite get_first_reply_other by (rewrite Hr; exact Hne). reflexivity.
Qed.

(** X3. [_get] absorbs every request failure: the only exceptions that can
    leave it are the [AttributeError] and [OSError] of a refresh, never a
    [RequestException]; it never touches the collection; and a first reply
    that is a transport failure or an error status other than 401 gives
    [None] after that single request, without a refresh and with the token,
    the header and the configuration store untouched. *)
Theorem get_absorbs_request_failures :
  forall (E : env) (e : endpoint) (w : world),
    (forall ex, fst (_get E e w) = Raise ex ->
                ex = AttributeError \/ ex = OSError)
    /\ db (snd (_get E e w)) = db w
    /\ ((http_get E (tick w) e (headers w) = ConnectionFailed
         \/ exists c body,
              http_get E (tick w) e (headers w) = Response c body
              /\ (400 <= c < 600)%Z /\ c <> 401%Z) ->
        _get E e w = (Ret JNull, after_event (EvGet e (headers w)) w)).
Proof.
  intros E e w. split; [|split].
  - intros ex.
    destruct (http_get E (tick w) e (headers w)) as [|c body] eqn:Hr.
    + rewrite get_first_reply_other by (rewrite Hr; exact I). discriminate.
    + destruct (Z.eq_dec c 401) as [->|Hne].
      * rewrite (get_first_reply_401 E e w body Hr).
        pose proof (refresh_access_token_raises E
                      (after_event (EvGet e (headers w)) w)) as Href.
        destruct (refresh_access_token E (after_event (EvGet e (headers w)) w))
          as [[[|]|ex'|] w2]; simpl in *; try discriminate.
        destruct (Href ex' eq_refl) as [-> | ->]; simpl; intros [= <-]; auto.
      * rewrite get_first_reply_other by (rewrite Hr; exact Hne). discriminate.
  - apply get_store_unchanged.
  - intros Hfail.
    rewrite get_first_reply_other.
    + rewrite absorbed_failure; [reflexivity|].
      destruct Hfail as [Hc | (c & body & Hr & Hc & _)]; [left; exact Hc|].
      right. exists c, body. auto.
    + destruct Hfail as [-> | (c & body & -> & _ & Hne)]; auto.
Qed.

Lemma get_absorbs_request_failures_witness :
  _get unavailable Countries initial_world
  = (Ret JNull, after_event (EvGet Countries (JStr "t0")) initial_world).
Proof.
  apply (proj2 (proj2 (get_absorbs_request_failures unavailable Countries
                         initial_world))).
  right. exists 503%Z, JNull. repeat split; try reflexivity; discriminate.
Defined.

(** X4. When the token endpoint issues a new token that [set_key] does not
    store, because the token is not a string ([AttributeError]) or because
    the file cannot be written ([OSError]), the refresh has already replaced
    the in-memory token and the authorization header; the exception is not
    a [RequestException], so it leaves [refresh_access_token] and the [_get]
    that asked for the refresh, after its one GET, with the stored token
    left behind the in-memory one. *)
Theorem failed_set_key_escapes_get :
  forall (E : env) (e : endpoint) (w : world) (body : json) (c : Z) (d : dict)
         (tok : json),
    http_get E (tick w) e (headers w) = Response 401 body ->
    oauth_post E (S (tick w)) = Response c (JDict d) ->
    error_status c = false ->
    dict_get "access_token" d = Some tok ->
    py_bool tok = true ->
    (forall s, tok = JStr s -> set_key_fails E (S (S (tick w))) = true) ->
    fst (_get E e w) = Raise (set_key_error tok)
    /\ ACCESS_TOKEN (snd (_get E e w)) = tok
    /\ headers (snd (_get E e w)) = tok
    /\ dotenv (snd (_get E e w)) = dotenv w
    /\ count_gets (trace (snd (_get E e w))) = S (count_gets (trace w)).
Proof.
  intros E e w body c d tok H401 Hpost Hc Htok Hb Hkey.
  rewrite (get_first_reply_401 E e w body H401).
  pose proof (refresh_access_token_cases E (after_event (EvGet e (headers w)) w))
    as H.
  simpl in H. rewrite Hpost, Hc, Htok, Hb in H.
  destruct tok as [|b|n|s|l|d']; try (rewrite (Hkey s eq_refl) in H);
    rewrite H; simpl; repeat split; reflexivity.
Qed.

Lemma failed_set_key_escapes_get_witness :
  (fst (_get read_only_dotenv Countries initial_world) = Raise OSError
   /\ ACCESS_TOKEN (snd (_get read_only_dotenv Countries initial_world))
      = JStr "t1"
   /\ dotenv (snd (_get read_only_dotenv Countries initial_world)) = JStr "t0")
  /\ (fst (_get numeric_token_env Countries initial_world) = Raise AttributeError
      /\ ACCESS_TOKEN (snd (_get numeric_token_env Countries initial_world))
         = JInt 5
      /\ dotenv (snd (_get numeric_token_env Countries initial_world))
         = JStr "t0").
Proof.
  split.
  - destruct (failed_set_key_escapes_get read_only_dotenv Countries initial_world
                JNull 200 [("access_token", JStr "t1")] (JStr "t1")
                eq_refl eq_refl eq_refl eq_refl eq_refl (fun _ _ => eq_refl))
      as (H1 & H2 & _ & H4 & _).
    repeat split; assumption.
  - destruct (failed_set_key_escapes_get numeric_token_env Countries initial_world
                JNull 200 [("access_token", JInt 5)] (JInt 5)
                eq_refl eq_refl eq_refl eq_refl eq_refl)
      as (H1 & H2 & _ & H4 & _).
    + intros s Hs. discriminate Hs.
    + repeat split; assumption.
Defined.

(** ** Resolving the areas *)

Lemma areas_in_config_filter AREAS l :
  Forall (fun area => exists n, py_getitem area "name" = Ret n) l ->
  areas_in_config AREAS l = Ret (filter (configured AREAS) l).
Proof.
  induction 1 as [|area l [n Hn] _ IH]; simpl; auto.
  rewrite Hn, IH. simpl. unfold configured, name_of. rewrite Hn. reflexivity.
Qed.

Lemma areas_in_config_named AREAS l kept :
  areas_in_config AREAS l = Ret kept ->
  Forall (fun area => exists n, py_getitem area "name" = Ret n) l.
Proof.
  revert kept. induction l as [|area l IH]; intros kept H; simpl in *; auto.
  destruct (py_getitem area "name") as [n| |] eqn:Hn; try discriminate.
  simpl in H. destruct (areas_in_config AREAS l) as [kept'| |]; try discriminate.
  constructor; eauto.
Qed.

Lemma configured_name AREAS area :
  configured AREAS area = true ->
  exists n, py_getitem area "name" = Ret (JStr n) /\ In n AREAS.
Proof.
  unfold configured, name_of. intros H.
  apply existsb_exists in H as (a & Hin & Heq).
  destruct (py_getitem area "name") as [v| |]; try discriminate.
  apply py_eq_str_true in Heq. subst v. eauto.
Qed.

(** X5. Whatever [fetch_areas] returns was configured: every area in its
    result is an entry of the country's top-level ['areas'] list whose name
    is exactly one of the configured strings.  More precisely, once the
    country url is found and its tree fetched, the result is that list
    filtered by the configured names, in upstream order (the entries nested
    inside an area are not looked at). *)
Theorem fetch_areas_returns_configured_top_level_areas :
  forall (E : env) (AREAS : list string) (w : world),
    (forall areas w',
        fetch_areas E AREAS w = (Ret areas, w') ->
        Forall (fun area => exists n, py_getitem area "name" = Ret (JStr n)
                                      /\ In n AREAS) areas)
    /\ (forall url w1 d w2 l,
          find_country_url E COUNTRY w = (Ret url, w1) ->
          py_bool url = true ->
          _get E (AreaTree url) w1 = (Ret (JDict d), w2) ->
          dict_get "areas" d = Some (JList l) ->
          Forall (fun area => exists n, py_getitem area "name" = Ret n) l ->
          fetch_areas E AREAS w = (Ret (filter (configured AREAS) l), w2)).
Proof.
  intros E AREAS w. split.
  - intros areas w'. unfold fetch_areas. unfold bind at 1.
    destruct (find_country_url E COUNTRY w) as [[url| |] w1]; try discriminate.
    destruct (py_bool url); simpl.
    2:{ intros [= <- <-]. constructor. }
    unfold bind at 1.
    destruct (_get E (AreaTree url) w1) as [[tree| |] w2]; try discriminate.
    destruct (py_bool tree); simpl.
    2:{ intros [= <- <-]. constructor. }
    unfold lift.
    destruct (py_get tree "areas" (JList [])) as [sub| |]; try discriminate.
    simpl. destruct (py_iter sub) as [l| |]; try discriminate. simpl.
    intros [= Hl <-].
    pose proof (areas_in_config_named AREAS l areas Hl) as Hnamed.
    rewrite (areas_in_config_filter AREAS l Hnamed) in Hl.
    injection Hl as <-.
    apply Forall_forall. intros area Hin.
    apply filter_In in Hin as [_ Hc]. apply configured_name. exact Hc.
  - intros url w1 d w2 l Hurl Htruthy Htree Hareas Hnamed.
    unfold fetch_areas. rewrite (bind_ret_l _ _ _ _ _ Hurl). cbv beta.
    rewrite Htruthy. change (negb true) with false. cbv iota.
    rewrite (bind_ret_l _ _ _ _ _ Htree). cbv beta.
    assert (Hb : py_bool (JDict d) = true).
    { destruct d; [discriminate | reflexivity]. }
    rewrite Hb. unfold lift, py_get. rewrite Hareas. simpl.
    rewrite (areas_in_config_filter AREAS l Hnamed). reflexivity.
Qed.

Lemma fetch_areas_returns_configured_top_level_areas_witness :
  fst (fetch_areas (serving small_upstream) ["Казань"] initial_world)
  = Ret [JDict [("id", JStr "2"); ("name", JStr "Казань")]].
Proof.
  refine (f_equal fst
            (proj2 (fetch_areas_returns_configured_top_level_areas
                      (serving small_upstream) ["Казань"] initial_world)
                   (JStr "https://api.hh.ru/areas/113")
                   (snd (find_country_url (serving small_upstream) COUNTRY
                           initial_world))
                   [("areas",
                     JList [JDict [("id", JStr "1"); ("name", JStr "Москва")];
                            JDict [("id", JStr "2"); ("name", JStr "Казань")]])]
                   (snd (fetch_areas (serving small_upstream) ["Казань"]
                           initial_world))
                   [JDict [("id", JStr "1"); ("name", JStr "Москва")];
                    JDict [("id", JStr "2"); ("name", JStr "Казань")]]
                   _ _ _ _ _)).
  - reflexivity.
  - reflexivity.
  - reflexivity.
  - reflexivity.
  - repeat constructor; eexists; reflexivity.
Defined.

(** X6. One area entry without a ['name'] makes the whole resolution fail:
    when the top-level list holds objects and one of them lacks the key,
    [fetch_areas] raises [KeyError], also when other entries do match, and
    the exception ends the sweep. *)
Theorem fetch_areas_raises_on_nameless_area :
  forall (E : env) (AREAS : list string) (fuel : nat) (w : world)
         (url : json) (w1 : world) (d : dict) (w2 : world) (l : list json),
    find_country_url E COUNTRY w = (Ret url, w1) ->
    py_bool url = true ->
    _get E (AreaTree url) w1 = (Ret (JDict d), w2) ->
    dict_get "areas" d = Some (JList l) ->
    Forall (fun area => exists fields, area = JDict fields) l ->
    Exists (fun area => py_getitem area "name" = Raise (KeyError "name")) l ->
    fetch_areas E AREAS w = (Raise (KeyError "name"), w2)
    /\ fetch_and_store_vacancies E AREAS fuel w = (Raise (KeyError "name"), w2).
Proof.
  intros E AREAS fuel w url w1 d w2 l Hurl Htruthy Htree Hareas Hdicts Hbad.
  assert (Hraise : areas_in_config AREAS l = Raise (KeyError "name")).
  { clear Hareas. induction Hdicts as [|area l [fields ->] _ IH]; simpl.
    - inversion Hbad.
    - destruct (dict_get "name" fields) as [n|] eqn:Hn; simpl.
      + inversion Hbad as [? ? Hhere|? ? Hlater]; subst.
        * simpl in Hhere. rewrite Hn in Hhere. discriminate.
        * rewrite (IH Hlater). reflexivity.
      + reflexivity. }
  assert (Hfetch : fetch_areas E AREAS w = (Raise (KeyError "name"), w2)).
  { unfold fetch_areas. rewrite (bind_ret_l _ _ _ _ _ Hurl). cbv beta.
    rewrite Htruthy. change (negb true) with false. cbv iota.
    rewrite (bind_ret_l _ _ _ _ _ Htree). cbv beta.
    assert (Hb : py_bool (JDict d) = true).
    { destruct d; [discriminate | reflexivity]. }
    rewrite Hb. unfold lift, py_get. rewrite Hareas. simpl.
    rewrite Hraise. reflexivity. }
  split; [exact Hfetch|].
  unfold fetch_and_store_vacancies. apply bind_raise_l. exact Hfetch.
Qed.

Lemma fetch_areas_raises_on_nameless_area_witness :
  fetch_and_store_vacancies (serving nameless_area_upstream) ["Москва"] 1
    initial_world
  = (Raise (KeyError "name"),
     snd (fetch_areas (serving nameless_area_upstream) ["Москва"]
            initial_world)).
Proof.
  refine (proj2 (fetch_areas_raises_on_nameless_area
                   (serving nameless_area_upstream) ["Москва"] 1 initial_world
                   (JStr "https://api.hh.ru/areas/113")
                   (snd (find_country_url (serving nameless_area_upstream)
                           COUNTRY initial_world))
                   [("areas",
                     JList [JDict [("id", JStr "1"); ("name", JStr "Москва")];
                            JDict [("id", JStr "2")]])]
                   (snd (fetch_areas (serving nameless_area_upstream)
                           ["Москва"] initial_world))
                   [JDict [("id", JStr "1"); ("name", JStr "Москва")];
                    JDict [("id", JStr "2")]]
                   _ _ _ _ _ _)).
  - reflexivity.
  - reflexivity.
  - reflexivity.
  - reflexivity.
  - repeat constructor; eexists; reflexivity.
  - apply Exists_cons_tl. apply Exists_cons_hd. reflexivity.
Defined.

Lemma sweep_without_country_url (E : env) AREAS fuel w u w1 :
  find_country_url E COUNTRY w = (Ret u, w1) ->
  py_bool u = false ->
  fetch_and_store_vacancies E AREAS fuel w = (Ret tt, w1).
Proof.
  intros Hurl Hfalsy.
  unfold fetch_and_store_vacancies, fetch_areas.
  unfold bind at 1. unfold bind at 1. rewrite Hurl, Hfalsy. reflexivity.
Qed.

(** X7. A run ends quietly right after the countries request, with nothing
    fetched, announced or stored, in each of three cases: the request
    itself fails (no connection, or an error status other than 401), no
    country in the answer is named exactly [COUNTRY], or the country that
    is has an empty url. *)
Theorem main_ends_after_countries_request :
  forall (E : env) (token : json) (regions : list string) (fuel : nat)
         (w : world),
    let w0 := ApiHhRu_init token w in
    ((http_get E (tick w0) Countries token = ConnectionFailed
      \/ exists c body,
           http_get E (tick w0) Countries token = Response c body
           /\ (400 <= c < 600)%Z /\ c <> 401%Z) ->
     main E token regions fuel w
     = (Ret tt, after_event (EvGet Countries token) w0))
    /\ (forall cs w1,
          fetch_countries E w0 = (Ret (JList cs), w1) ->
          Forall (named_otherwise COUNTRY) cs ->
          main E token regions fuel w = (Ret tt, w1))
    /\ (forall pre c post u w1,
          fetch_countries E w0 = (Ret (JList (pre ++ c :: post)), w1) ->
          Forall (named_otherwise COUNTRY) pre ->
          named COUNTRY c ->
          py_getitem c "url" = Ret u ->
          py_bool u = false ->
          main E token regions fuel w = (Ret tt, w1)).
Proof.
  intros E token regions fuel w w0. unfold main. fold w0.
  split; [|split].
  - intros Hfail.
    assert (Hget : _get E Countries w0
                   = (Ret JNull, after_event (EvGet Countries token) w0)).
    { rewrite get_first_reply_other.
      - change (headers w0) with token. rewrite absorbed_failure; [reflexivity|].
        destruct Hfail as [Hc | (c & body & Hr & Hc & _)]; [left; exact Hc|].
        right. exists c, body. auto.
      - change (headers w0) with token.
        destruct Hfail as [-> | (c & body & -> & _ & Hne)]; auto. }
    apply (sweep_without_country_url E regions fuel w0 (JStr EmptyString)); auto.
    unfold find_country_url, fetch_countries.
    unfold bind at 1. unfold bind at 1. rewrite Hget. reflexivity.
  - intros cs w1 Hcs Hnone.
    apply (sweep_without_country_url E regions fuel w0 (JStr EmptyString)); auto.
    unfold find_country_url. rewrite (bind_ret_l _ _ _ _ _ Hcs).
    unfold lift. simpl. rewrite (first_country_url_none _ _ Hnone). reflexivity.
  - intros pre c post u w1 Hcs Hpre Hc Hu Hfalsy.
    apply (sweep_without_country_url E regions fuel w0 u); auto.
    unfold find_country_url. rewrite (bind_ret_l _ _ _ _ _ Hcs).
    unfold lift. simpl. rewrite (first_country_url_match _ _ _ _ Hpre Hc), Hu.
    reflexivity.
Qed.

Lemma main_ends_after_countries_request_witness :
  main unavailable (JStr "t0") ["Москва"] 1 initial_world
  = (Ret tt, after_event (EvGet Countries (JStr "t0")) initial_world).
Proof.
  apply (proj1 (main_ends_after_countries_request unavailable (JStr "t0")
                  ["Москва"] 1 initial_world)).
  right. exists 503%Z, JNull. repeat split; try reflexivity; discriminate.
Defined.

(** ** More on the pagination loop *)

Lemma fetch_all_loop_prefix (E : env) area role P items k :
  (forall p w, p < k -> exists d w',
      get_vacancies E area role p w = (Ret (JDict d), w')
      /\ dict_get "items" d = Some (JList (items p))
      /\ dict_get "pages" d = Some (JInt P)) ->
  (forall w, exists data w',
      get_vacancies E area role k w = (Ret data, w') /\ stops data) ->
  k < pages_fetched P ->
  forall n fuel page vs total w,
    page + n = k ->
    n < fuel ->
    (page = 0 /\ total = JInt 1) \/ (1 <= page /\ total = JInt P) ->
    fst (fetch_all_loop E fuel area role vs page total w)
    = Ret (vs ++ concat (map items (seq page n))).
Proof.
  intros Hgood Hstop Hk. unfold pages_fetched in Hk.
  induction n as [|n IH]; intros fuel page vs total w Hsum Hfuel Hstate;
    (destruct fuel as [|fuel]; [lia|]);
    assert (Hlt : py_lt page total = Ret true)
      by (destruct Hstate as [[-> ->]|[Hp ->]]; simpl; f_equal; lia).
  - destruct (Hstop w) as (data & w' & Hget & Hs).
    rewrite Nat.add_0_r in Hsum. subst page.
    rewrite (fetch_all_loop_stop E fuel area role vs k total w data w'); auto.
    simpl. rewrite app_nil_r. reflexivity.
  - destruct (Hgood page w ltac:(lia)) as (d & w' & Hget & Hitems & Hpages).
    rewrite (fetch_all_loop_continue E fuel area role vs page total w d w'
               (JList (items page)) (items page)); auto.
    rewrite Hpages, IH; try lia.
    + simpl. rewrite <- app_assoc. reflexivity.
    + right. split; [lia | reflexivity].
Qed.

(** X8. A failure in the middle of the pages does not lose what was already
    collected: when pages 0 to k-1 carry their items and the total [P], and
    the response for page k (k below max(P, 1)) is absent or has no items,
    [fetch_all_vacancies] returns the items of pages 0 to k-1 and asks for
    nothing further. *)
Theorem fetch_all_vacancies_keeps_pages_before_failure :
  forall (E : env) (area role : json) (P : Z) (items : nat -> list json)
         (k fuel : nat) (w : world),
    (forall p w, p < k -> exists d w',
        get_vacancies E area role p w = (Ret (JDict d), w')
        /\ dict_get "items" d = Some (JList (items p))
        /\ dict_get "pages" d = Some (JInt P)) ->
    (forall w, exists data w',
        get_vacancies E area role k w = (Ret data, w') /\ stops data) ->
    k < pages_fetched P ->
    k < fuel ->
    fst (fetch_all_vacancies E fuel area role w)
    = Ret (concat (map items (seq 0 k))).
Proof.
  intros E area role P items k fuel w Hgood Hstop Hk Hfuel.
  unfold fetch_all_vacancies.
  rewrite (fetch_all_loop_prefix E area role P items k Hgood Hstop Hk
             k fuel 0 [] (JInt 1) w); auto.
Qed.

Lemma fetch_all_vacancies_keeps_pages_before_failure_witness :
  fst (fetch_all_vacancies third_page_down 3 (JInt 1) (JInt 96) initial_world)
  = Ret (concat (map (fun _ => repeat (listing 7) 100) (seq 0 2))).
Proof.
  apply (fetch_all_vacancies_keeps_pages_before_failure third_page_down
           (JInt 1) (JInt 96) 3 (fun _ => repeat (listing 7) 100) 2 3
           initial_world).
  - intros p w Hp. exists [("items", JList (repeat (listing 7) 100));
                           ("pages", JInt 3)].
    eexists. destruct p as [|[|p]]; [| | lia]; (split; [|split]); reflexivity.
  - intros w. exists JNull. eexists. split; [reflexivity | left; reflexivity].
  - apply le_n.
  - apply le_n.
Defined.

Lemma fetch_all_loop_never_ends (E : env) area role :
  (forall p w, exists d w' items n,
      get_vacancies E area role p w = (Ret (JDict d), w')
      /\ dict_get "items" d = Some (JList items)
      /\ dict_get "pages" d = Some (JInt n)
      /\ (Z.of_nat p + 1 < n)%Z) ->
  forall fuel page vs total w,
    py_lt page total = Ret true ->
    fst (fetch_all_loop E fuel area role vs page total w) = OutOfFuel.
Proof.
  intros Hgrow. induction fuel as [|fuel IH]; intros page vs total w Hlt.
  - simpl. unfold bind, lift. rewrite Hlt. reflexivity.
  - destruct (Hgrow page w) as (d & w' & items & n & Hget & Hitems & Hpages & Hn).
    rewrite (fetch_all_loop_continue E fuel area role vs page total w d w'
               (JList items) items); auto.
    rewrite Hpages. apply IH. unfold py_lt. f_equal. apply Z.ltb_lt. lia.
Qed.

(** X9. Without a consistent total the loop need not end: when every page
    response carries items and reports a total beyond the next page index,
    [fetch_all_vacancies] is still asking for pages after any number of
    iterations. *)
Theorem fetch_all_vacancies_diverges_on_growing_total :
  forall (E : env) (area role : json),
    (forall p w, exists d w' items n,
        get_vacancies E area role p w = (Ret (JDict d), w')
        /\ dict_get "items" d = Some (JList items)
        /\ dict_get "pages" d = Some (JInt n)
        /\ (Z.of_nat p + 1 < n)%Z) ->
    forall fuel w,
      fst (fetch_all_vacancies E fuel area role w) = OutOfFuel.
Proof.
  intros E area role Hgrow fuel w. unfold fetch_all_vacancies.
  apply (fetch_all_loop_never_ends E area role Hgrow). reflexivity.
Qed.

Lemma fetch_all_vacancies_diverges_on_growing_total_witness :
  fst (fetch_all_vacancies ever_growing 50 (JInt 1) (JInt 96) initial_world)
  = OutOfFuel.
Proof.
  apply (fetch_all_vacancies_diverges_on_growing_total ever_growing
           (JInt 1) (JInt 96)).
  intros p w. exists [("items", JList [listing 7]);
                      ("pages", JInt (Z.of_nat p + 2))].
  eexists. exists [listing 7], (Z.of_nat p + 2)%Z.
  split; [reflexivity | split; [reflexivity | split; [reflexivity | lia]]].
Defined.

(** X10. A total that is not a number is only noticed at the next loop
    test: when the first page carries items and a ['pages'] value that
    cannot be compared with an integer ([null], a string, a list, an
    object), [fetch_all_vacancies] raises [TypeError] and the items of that
    page are lost with it. *)
Theorem fetch_all_vacancies_raises_on_unordered_total :
  forall (E : env) (area role : json) (fuel : nat) (w : world)
         (d : dict) (w' : world) (items : list json) (v : json),
    get_vacancies E area role 0 w = (Ret (JDict d), w') ->
    dict_get "items" d = Some (JList items) ->
    dict_get "pages" d = Some v ->
    unordered_with_int v ->
    fetch_all_vacancies E (S fuel) area role w = (Raise TypeError, w').
Proof.
  intros E area role fuel w d w' items v Hget Hitems Hpages Hv.
  unfold fetch_all_vacancies.
  rewrite (fetch_all_loop_continue E fuel area role [] 0 (JInt 1) w d w'
             (JList items) items); auto.
  rewrite Hpages.
  assert (Hlt : py_lt 1 v = Raise TypeError)
    by (destruct v; simpl in Hv; try contradiction; reflexivity).
  destruct fuel; simpl; unfold bind, lift; rewrite Hlt; reflexivity.
Qed.

Lemma fetch_all_vacancies_raises_on_unordered_total_witness :
  fst (fetch_all_vacancies (serving (fun _ => page_without_total)) 1 (JInt 1)
         (JInt 96) initial_world) = Raise TypeError.
Proof.
  refine (f_equal fst
            (fetch_all_vacancies_raises_on_unordered_total
               (serving (fun _ => page_without_total)) (JInt 1) (JInt 96) 0
               initial_world
               [("items", JList [listing 7]); ("pages", JNull)]
               (snd (get_vacancies (serving (fun _ => page_without_total))
                       (JInt 1) (JInt 96) 0 initial_world))
               [listing 7] JNull _ _ _ _)).
  - reflexivity.
  - reflexivity.
  - reflexivity.
  - exact I.
Defined.

Lemma refresh_access_token_emits (E : env) e w :
  exists new,
    trace (snd (refresh_access_token E w)) = new ++ trace w
    /\ Forall (request_for e) new.
Proof.
  refresh_cases E w H; rewrite H;
    try (exists [EvPostToken]; split; [reflexivity | repeat constructor]);
    try (eexists [EvSetKey _; EvPostToken];
         split; [reflexivity | repeat constructor]).
Qed.

Lemma get_emits (E : env) e w :
  exists new,
    trace (snd (_get E e w)) = new ++ trace w /\ Forall (request_for e) new.
Proof.
  assert (Hone : forall w0, Forall (request_for e) [EvGet e (headers w0)])
    by (intros; repeat constructor).
  destruct (http_get E (tick w) e (headers w)) as [|c body] eqn:Hr.
  - rewrite get_first_reply_other by (rewrite Hr; exact I).
    exists [EvGet e (headers w)]. split; [reflexivity | apply Hone].
  - destruct (Z.eq_dec c 401) as [->|Hne].
    + rewrite (get_first_reply_401 E e w body Hr).
      destruct (refresh_access_token_emits E e (after_event (EvGet e (headers w)) w))
        as (n2 & Ht & Hq).
      assert (Hrest : trace (after_event (EvGet e (headers w)) w)
                      = [EvGet e (headers w)] ++ trace w) by reflexivity.
      rewrite Hrest in Ht.
      destruct (refresh_access_token E (after_event (EvGet e (headers w)) w))
        as [[[|]|ex|] w2]; simpl in Ht |- *.
      * exists (EvGet e (headers w2) :: n2 ++ [EvGet e (headers w)]).
        simpl. rewrite Ht, <- app_assoc. split; [reflexivity|].
        constructor; [reflexivity|]. apply Forall_app. auto.
      * exists (n2 ++ [EvGet e (headers w)]). rewrite Ht, <- app_assoc.
        split; [reflexivity | apply Forall_app; auto].
      * exists (n2 ++ [EvGet e (headers w)]).
        destruct (is_RequestException ex); simpl; rewrite Ht, <- app_assoc;
          (split; [reflexivity | apply Forall_app; auto]).
      * exists (n2 ++ [EvGet e (headers w)]). rewrite Ht, <- app_assoc.
        split; [reflexivity | apply Forall_app; auto].
    + rewrite get_first_reply_other by (rewrite Hr; exact Hne).
      exists [EvGet e (headers w)]. split; [reflexivity | apply Hone].
Qed.

(** Where an iteration of the loop leaves the world: untouched, after the
    request for the page, or wherever the rest of the loop leaves it. *)
Lemma fetch_all_loop_world (E : env) fuel area role vs page total w :
  snd (fetch_all_loop E (S fuel) area role vs page total w) = w
  \/ (py_lt page total = Ret true
      /\ (snd (fetch_all_loop E (S fuel) area role vs page total w)
          = snd (get_vacancies E area role page w)
          \/ exists d items its,
               get_vacancies E area role page w
               = (Ret (JDict d), snd (get_vacancies E area role page w))
               /\ dict_get "items" d = Some items
               /\ py_iter items = Ret its
               /\ fetch_all_loop E (S fuel) area role vs page total w
                  = fetch_all_loop E fuel area role (vs ++ its) (S page)
                      (match dict_get "pages" d with
                       | Some v => v
                       | None => JInt 1
                       end)
                      (snd (get_vacancies E area role page w)))).
Proof.
  destruct (py_lt page total) as [[|]| |] eqn:Hlt;
    try (left; simpl; unfold bind, lift; rewrite Hlt; reflexivity).
  right. split; [reflexivity|].
  destruct (get_vacancies E area role page w) as [[data| |] w'] eqn:Hget;
    try (left; simpl; unfold bind at 1; unfold lift at 1; rewrite Hlt;
         unfold bind at 1; rewrite Hget; reflexivity).
  destruct (py_bool data) eqn:Hb.
  2:{ left.
      rewrite (fetch_all_loop_stop E fuel area role vs page total w data w');
        auto. left. exact Hb. }
  destruct (py_contains "items" data) as [[|]| |] eqn:Hc.
  2:{ left.
      rewrite (fetch_all_loop_stop E fuel area role vs page total w data w');
        auto. right. exact Hc. }
  2,3: left; simpl; unfold bind at 1; unfold lift at 1; rewrite Hlt;
       unfold bind at 1; rewrite Hget; rewrite Hb;
       unfold bind, lift; simpl; rewrite Hc; reflexivity.
  destruct data as [| | | | |d];
    try (left;
         rewrite (fetch_all_loop_bad_items E fuel area role vs page total w
                    _ w' TypeError Hlt Hget Hb Hc eq_refl); reflexivity).
  simpl in Hc.
  destruct (dict_get "items" d) as [items|] eqn:Hitems; [|discriminate].
  destruct (py_iter items) as [its| |] eqn:Hiter.
  - right. exists d, items, its. simpl. repeat split; auto.
    apply (fetch_all_loop_continue E fuel area role vs page total w d w'
             items its); auto.
  - left.
    rewrite (fetch_all_loop_bad_items E fuel area role vs page total w
               _ w' e Hlt Hget Hb);
      [reflexivity | simpl; rewrite Hitems; reflexivity
      | simpl; rewrite Hitems; exact Hiter].
  - destruct items; discriminate.
Qed.

Lemma fetch_all_loop_requests (E : env) area role P :
  consistent_or_malformed E area role P ->
  forall fuel page vs total w,
    (page = 0 /\ total = JInt 1) \/ (1 <= page /\ total = JInt P) ->
    exists new,
      trace (snd (fetch_all_loop E fuel area role vs page total w))
      = new ++ trace w
      /\ Forall (page_request area role (pages_fetched P)) new
      /\ db (snd (fetch_all_loop E fuel area role vs page total w)) = db w.
Proof.
  intros Hcons.
  induction fuel as [|fuel IH]; intros page vs total w Hstate.
  - exists []. simpl. unfold bind, lift.
    destruct (py_lt page total) as [[|]| |]; repeat split; constructor.
  - destruct (fetch_all_loop_world E fuel area role vs page total w)
      as [Hw | [Hlt Hcase]].
    + exists []. rewrite Hw. repeat split; constructor.
    + assert (Hpage : page < pages_fetched P).
      { unfold pages_fetched.
        destruct Hstate as [[-> ->]|[Hp ->]]; [lia|].
        unfold py_lt in Hlt. injection Hlt as Hlt. apply Z.ltb_lt in Hlt. lia. }
      destruct (get_emits E (Vacancies area role page 100) w)
        as (n1 & Ht1 & Hq1).
      pose proof (get_store_unchanged E (Vacancies area role page 100) w)
        as Hdb1.
      fold (get_vacancies E area role page) in Ht1, Hdb1.
      assert (Hq1' : Forall (page_request area role (pages_fetched P)) n1).
      { eapply Forall_impl; [|exact Hq1].
        intros [e a| | | | |]; simpl; auto.
        intros ->. exists page. auto. }
      destruct Hcase as [Hw | (d & items & its & Hget & Hitems & Hiter & Heq)].
      * exists n1. rewrite Hw. auto.
      * rewrite Heq.
        rewrite (Hcons page w d _ Hget) by (rewrite Hitems; discriminate).
        destruct (IH (S page) (vs ++ its) (JInt P)
                     (snd (get_vacancies E area role page w)))
          as (n2 & Ht2 & Hq2 & Hdb2); [right; split; [lia | reflexivity]|].
        exists (n2 ++ n1). rewrite Ht2, Ht1, app_assoc, Hdb2, Hdb1.
        split; [reflexivity | split; [apply Forall_app; auto | reflexivity]].
Qed.

(** X11. While the reported total stays at [P], [fetch_all_vacancies] asks
    only for pages of its own area and role, 100 listings a page, and never
    for a page at or beyond max(P, 1); besides these requests and those of
    a token refresh it makes no external call: no notification, no access
    to the collection. *)
Theorem fetch_all_vacancies_requests_only_announced_pages :
  forall (E : env) (area role : json) (P : Z) (fuel : nat) (w : world),
    consistent_or_malformed E area role P ->
    exists new,
      trace (snd (fetch_all_vacancies E fuel area role w)) = new ++ trace w
      /\ Forall (page_request area role (pages_fetched P)) new
      /\ db (snd (fetch_all_vacancies E fuel area role w)) = db w.
Proof.
  intros E area role P fuel w Hcons. unfold fetch_all_vacancies.
  apply (fetch_all_loop_requests E area role P Hcons). left. auto.
Qed.

Lemma fetch_all_vacancies_requests_only_announced_pages_witness :
  exists new,
    trace (snd (fetch_all_vacancies (serving three_pages) 5 (JInt 1) (JInt 96)
                  initial_world)) = new ++ trace initial_world
    /\ Forall (page_request (JInt 1) (JInt 96) 3) new
    /\ db (snd (fetch_all_vacancies (serving three_pages) 5 (JInt 1) (JInt 96)
                  initial_world)) = db initial_world.
Proof.
  apply (fetch_all_vacancies_requests_only_announced_pages
           (serving three_pages) (JInt 1) (JInt 96) 3 5 initial_world).
  intros p w d w' Hget _.
  destruct p as [|[|[|p]]]; simpl in Hget; injection Hget as <- _; reflexivity.
Defined.

(** ** More on saving a batch *)

Lemma stored_incl store store' id entry_date :
  (forall doc, In doc store -> In doc store') ->
  stored store id entry_date -> stored store' id entry_date.
Proof.
  intros Hincl (doc & Hin & H). exists doc. auto.
Qed.

Lemma save_loop_app (E : env) area pre rest : forall counts w,
  save_loop E area (pre ++ rest) counts w
  = bind (save_loop E area pre counts) (save_loop E area rest) w.
Proof.
  induction pre as [|v pre IH]; intros counts w.
  - reflexivity.
  - simpl app. rewrite !save_loop_cons. unfold bind at 1.
    rewrite save_loop_cons.
    destruct (save_vacancy E area v counts w) as [[c| |] w1];
      [apply IH | reflexivity | reflexivity].
Qed.

Section SameDay.

Variable E : env.
Variable today : string.
Hypothesis Hclock : forall t, utcnow E t = today.

(** Once every listing of the batch is stored under today's date, the batch
    only counts duplicates. *)
Lemma save_loop_all_duplicates area vs : forall i dups w,
  Forall (fun v => exists d vid, v = JDict d /\ dict_get "id" d = Some vid
                                 /\ stored (db w) vid (JStr today)) vs ->
  exists w',
    save_loop E area vs (i, dups) w = (Ret (i, dups + length vs), w')
    /\ db w' = db w.
Proof.
  induction vs as [|v vs IH]; intros i dups w Hall.
  - exists w. simpl. rewrite Nat.add_0_r. auto.
  - inversion Hall as [|? ? (d & vid & -> & Hid & Hst) Hrest]; subst.
    rewrite save_loop_cons, (save_vacancy_cases E area d vid i dups w Hid).
    rewrite Hclock. apply existsb_matches_stored in Hst. rewrite Hst.
    match goal with
    | |- context [save_loop E area vs _ ?w1] =>
        destruct (IH i (S dups) w1) as (w' & Hrun & Hdb); [exact Hrest|];
        exists w'
    end.
    rewrite Hrun. simpl. split; [f_equal; f_equal; f_equal; lia | exact Hdb].
Qed.

Hypothesis Hinsert : forall t doc, insert_fails E t doc = false.

(** With a store that accepts every insert, a batch leaves every one of its
    listings stored under today's date. *)
Lemma save_loop_stores_all area vs : forall counts w,
  Forall identified vs ->
  exists counts' w',
    save_loop E area vs counts w = (Ret counts', w')
    /\ (forall doc, In doc (db w) -> In doc (db w'))
    /\ Forall (fun v => exists d vid, v = JDict d /\ dict_get "id" d = Some vid
                                      /\ stored (db w') vid (JStr today)) vs.
Proof.
  induction vs as [|v vs IH]; intros counts w Hall.
  - exists counts, w. simpl. auto.
  - inversion Hall as [|? ? (d & vid & -> & Hid) Hrest]; subst.
    destruct counts as [i dups].
    rewrite save_loop_cons, (save_vacancy_cases E area d vid i dups w Hid).
    rewrite Hclock, Hinsert.
    destruct (existsb (matches vid (JStr today)) (db w)) eqn:Hex;
      match goal with
      | |- context [save_loop E area vs ?c ?w1] =>
          destruct (IH c w1 Hrest) as (c' & w' & Hrun & Hincl & Hst);
          exists c', w'; rewrite Hrun; split; [reflexivity|]
      end; simpl in Hincl.
    + split; [exact Hincl|]. constructor; [|exact Hst].
      exists d, vid. repeat split; auto.
      apply (stored_incl (db w)); auto. apply existsb_matches_stored. exact Hex.
    + split; [intros doc Hin; apply Hincl, in_or_app; auto|].
      constructor; [|exact Hst].
      exists d, vid. repeat split; auto.
      exists (stamp today area d). split; [apply Hincl, in_or_app; simpl; auto|].
      rewrite stamp_id, stamp_entry_date. auto.
Qed.

End SameDay.

(** X12. Saving the same batch again on the same day adds nothing: with a
    clock that stays on one day and a store that accepts every insert,
    after a batch of listings with ids has been saved, saving it once more
    (from any later state that still holds those documents, under any area
    name) leaves the collection as it is and reports no insert and as many
    duplicates as there are listings. *)
Theorem save_vacancies_to_db_same_day_idempotent :
  forall (E : env) (today : string) (vacancies : list json)
         (area_name area_name' : json) (w w2 : world),
    (forall t, utcnow E t = today) ->
    (forall t doc, insert_fails E t doc = false) ->
    Forall identified vacancies ->
    (forall doc,
        In doc (db (snd (save_vacancies_to_db E vacancies area_name w))) ->
        In doc (db w2)) ->
    db (snd (save_vacancies_to_db E vacancies area_name' w2)) = db w2
    /\ exists new,
         trace (snd (save_vacancies_to_db E vacancies area_name' w2))
         = EvNotify (MsgSummary 0 (length vacancies)) :: new ++ trace w2
         /\ filter is_notify new = [].
Proof.
  intros E today vs area area' w w2 Hclock Hins Hids Hlater.
  destruct (save_loop_stores_all E today Hclock Hins area vs (0, 0) w Hids)
    as (c1 & w1 & Hrun1 & _ & Hstored).
  assert (Hdb1 : db (snd (save_vacancies_to_db E vs area w)) = db w1).
  { unfold save_vacancies_to_db, bind. rewrite Hrun1.
    rewrite bot_send_message_run. reflexivity. }
  rewrite Hdb1 in Hlater.
  assert (Hstored2 :
    Forall (fun v => exists d vid, v = JDict d /\ dict_get "id" d = Some vid
                                   /\ stored (db w2) vid (JStr today)) vs).
  { eapply Forall_impl; [|exact Hstored].
    intros v (d & vid & Hv & Hid & Hst). exists d, vid. repeat split; auto.
    apply (stored_incl (db w1)); auto. }
  destruct (save_loop_all_duplicates E today Hclock area' vs 0 0 w2 Hstored2)
    as (w3 & Hrun2 & Hdb2).
  destruct (save_vacancies_to_db_trace E vs area' w2) as (new & Ht & Hn & Hr).
  cbv zeta in *. rewrite Hrun2 in *. cbn [fst snd] in *.
  destruct Hr as (_ & Htr & _).
  split.
  - unfold save_vacancies_to_db, bind. rewrite Hrun2.
    rewrite bot_send_message_run. exact Hdb2.
  - exists new. auto.
Qed.

Lemma save_vacancies_to_db_same_day_idempotent_witness :
  db (snd (save_vacancies_to_db (serving (fun _ => JNull))
             [listing 1; listing 2] (JStr "Казань")
             (snd (save_vacancies_to_db (serving (fun _ => JNull))
                     [listing 1; listing 2] (JStr "Москва") initial_world))))
  = db (snd (save_vacancies_to_db (serving (fun _ => JNull))
               [listing 1; listing 2] (JStr "Москва") initial_world)).
Proof.
  apply (save_vacancies_to_db_same_day_idempotent (serving (fun _ => JNull))
           "03.11.2026" [listing 1; listing 2] (JStr "Москва") (JStr "Казань")
           initial_world).
  - reflexivity.
  - reflexivity.
  - repeat constructor; eexists; eexists; split; reflexivity.
  - auto.
Defined.

Lemma stamp_other today area d k :
  k <> "entry_date" -> k <> "area_name" ->
  dict_get k (stamp today area d) = dict_get k d.
Proof.
  intros H1 H2. unfold stamp. rewrite !dict_get_set_other by assumption.
  reflexivity.
Qed.

Lemma stamp_area_name today area d :
  dict_get "area_name" (stamp today area d) = Some area.
Proof. unfold stamp. apply dict_get_set_same. Qed.

(** X13. The document that is inserted for a listing agrees with the
    listing on every field except ['entry_date'] and ['area_name']; these
    two hold the day read from the clock and the area name passed in,
    replacing whatever the listing carried under those names. *)
Theorem save_vacancy_stamps_entry_date_and_area_name :
  forall (E : env) (area_name : json) (d : dict) (vid : json)
         (counts : nat * nat) (w : world),
    dict_get "id" d = Some vid ->
    ~ stored (db w) vid (JStr (utcnow E (tick w))) ->
    insert_fails E (S (S (tick w))) (stamp (utcnow E (tick w)) area_name d)
    = false ->
    exists doc,
      db (snd (save_vacancy E area_name (JDict d) counts w)) = db w ++ [doc]
      /\ dict_get "entry_date" doc = Some (JStr (utcnow E (tick w)))
      /\ dict_get "area_name" doc = Some area_name
      /\ forall k, k <> "entry_date" -> k <> "area_name" ->
                   dict_get k doc = dict_get k d.
Proof.
  intros E area d vid [i dups] w Hid Hnew Hok.
  exists (stamp (utcnow E (tick w)) area d).
  rewrite (save_vacancy_cases E area d vid i dups w Hid), Hok.
  destruct (existsb _ (db w)) eqn:Hex.
  - apply existsb_matches_stored in Hex. contradiction.
  - simpl. split; [reflexivity|].
    split; [apply stamp_entry_date|].
    split; [apply stamp_area_name | intros k; apply stamp_other].
Qed.

Lemma save_vacancy_stamps_entry_date_and_area_name_witness :
  exists doc,
    db (snd (save_vacancy (serving (fun _ => JNull)) (JStr "Москва")
               (JDict prestamped_listing) (0, 0) initial_world))
    = db initial_world ++ [doc]
    /\ dict_get "entry_date" doc = Some (JStr "03.11.2026")
    /\ dict_get "area_name" doc = Some (JStr "Москва")
    /\ forall k, k <> "entry_date" -> k <> "area_name" ->
                 dict_get k doc = dict_get k prestamped_listing.
Proof.
  apply (save_vacancy_stamps_entry_date_and_area_name
           (serving (fun _ => JNull)) (JStr "Москва") prestamped_listing
           (JInt 7) (0, 0) initial_world).
  - reflexivity.
  - intros (doc & Hin & _). exact Hin.
  - reflexivity.
Defined.

Lemma save_vacancy_without_id (E : env) area v counts w :
  (match v with
   | JDict d => dict_get "id" d = None
   | _ => True
   end) ->
  save_vacancy E area v counts w
  = (Raise (match v with JDict _ => KeyError "id" | _ => TypeError end),
     World (S (tick w)) (ACCESS_TOKEN w) (headers w) (dotenv w) (db w)
           (trace w)).
Proof.
  destruct counts as [i dups].
  destruct v as [| | | | |d]; try reflexivity.
  intros Hid. unfold save_vacancy, utcnow_strftime. unfold_monad. simpl.
  fold (stamp (utcnow E (tick w)) area d). rewrite stamp_id, Hid. reflexivity.
Qed.

(** X14. A listing that is not an object, or has no ['id'], ends the batch:
    when the listings before it carry an id and a url, saving stops at it
    with [TypeError] or [KeyError], after what came before it was handled;
    the listings after it are never looked at and no summary is sent. *)
Theorem save_vacancies_to_db_stops_at_listing_without_id :
  forall (E : env) (before after : list json) (v : json) (area_name : json)
         (w : world),
    Forall good_listing before ->
    (match v with
     | JDict d => dict_get "id" d = None
     | _ => True
     end) ->
    fst (save_vacancies_to_db E (before ++ v :: after) area_name w)
    = Raise (match v with JDict _ => KeyError "id" | _ => TypeError end)
    /\ db (snd (save_vacancies_to_db E (before ++ v :: after) area_name w))
       = db (snd (save_loop E area_name before (0, 0) w))
    /\ exists new,
         trace (snd (save_vacancies_to_db E (before ++ v :: after) area_name w))
         = new ++ trace w
         /\ filter is_notify new = []
         /\ length (filter is_find new) = length before.
Proof.
  intros E before after v area w Hbefore Hv.
  destruct (save_loop_checks_every_listing E area before (0, 0) w Hbefore)
    as (c1 & w1 & new & Hrun & Ht & Hf & Hn).
  assert (Hall : save_vacancies_to_db E (before ++ v :: after) area w
                 = (Raise (match v with
                           | JDict _ => KeyError "id"
                           | _ => TypeError
                           end),
                    World (S (tick w1)) (ACCESS_TOKEN w1) (headers w1)
                          (dotenv w1) (db w1) (trace w1))).
  { unfold save_vacancies_to_db. unfold bind at 1.
    rewrite save_loop_app. unfold bind at 1. rewrite Hrun.
    rewrite save_loop_cons, (save_vacancy_without_id E area v c1 w1 Hv).
    reflexivity. }
  rewrite Hall, Hrun. simpl.
  split; [reflexivity | split; [reflexivity|]].
  exists new. auto.
Qed.

Lemma save_vacancies_to_db_stops_at_listing_without_id_witness :
  fst (save_vacancies_to_db (serving (fun _ => JNull))
         [listing 1; JDict [("url", JStr "u")]; listing 2] (JStr "Москва")
         initial_world)
  = Raise (KeyError "id")
  /\ db (snd (save_vacancies_to_db (serving (fun _ => JNull))
                [listing 1; JDict [("url", JStr "u")]; listing 2]
                (JStr "Москва") initial_world))
     = db (snd (save_loop (serving (fun _ => JNull)) (JStr "Москва")
                  [listing 1] (0, 0) initial_world)).
Proof.
  refine ((fun H => conj (proj1 H) (proj1 (proj2 H)))
            (save_vacancies_to_db_stops_at_listing_without_id
               (serving (fun _ => JNull)) [listing 1] [listing 2]
               (JDict [("url", JStr "u")]) (JStr "Москва") initial_world _ _)).
  - repeat constructor. eexists. split; [reflexivity|]. split; discriminate.
  - reflexivity.
Defined.

(** ** More on the role de-duplication *)

Lemma py_eq_atom_refl i : hashable i = true -> py_eq_atom i i = true.
Proof.
  destruct i; simpl; try discriminate; intros _;
    auto using eqb_reflx, Z.eqb_refl, String.eqb_refl.
Qed.

Lemma ids_distinct_app a b :
  ids_distinct a -> ids_distinct b ->
  Forall (fun j => existsb (py_eq_atom j) a = false) b ->
  ids_distinct (a ++ b).
Proof.
  induction a as [|i a IH]; intros Ha Hb Hab; simpl; auto.
  destruct Ha as [Hi Ha]. split.
  - apply Forall_app. split; [exact Hi|].
    eapply Forall_impl; [|exact Hab].
    intros j Hj. simpl in Hj. apply orb_false_iff in Hj. tauto.
  - apply IH; auto. eapply Forall_impl; [|exact Hab].
    intros j Hj. simpl in Hj. apply orb_false_iff in Hj. tauto.
Qed.

Lemma unique_roles_facts roles : forall seen seen' kept,
  unique_roles seen roles = Ret (seen', kept) ->
  ids_distinct (map id_of kept)
  /\ Forall (fun r => existsb (py_eq_atom (id_of r)) seen = false) kept
  /\ (forall x, existsb (py_eq_atom x) seen'
                = (existsb (py_eq_atom x) seen
                   || existsb (py_eq_atom x) (map id_of kept))%bool)
  /\ Forall (fun r => existsb (py_eq_atom (id_of r)) seen' = true) roles
  /\ (forall s, In s kept -> In s roles).
Proof.
  induction roles as [|r rs IH]; intros seen seen' kept H; simpl in H.
  - injection H as <- <-. simpl. repeat split; auto.
    intros x. rewrite orb_false_r. reflexivity.
  - destruct (py_getitem r "id") as [i| |] eqn:Hi; try discriminate.
    simpl in H. unfold set_contains in H.
    destruct (hashable i) eqn:Hh; try discriminate. simpl in H.
    assert (Hid : id_of r = i) by (unfold id_of; rewrite Hi; reflexivity).
    destruct (existsb (py_eq_atom i) seen) eqn:Hdup.
    + destruct (IH seen seen' kept H) as (Hd & Hn & Hm & Hc & Hs).
      split; [exact Hd | split; [exact Hn | split; [exact Hm | split]]].
      * constructor; [|exact Hc]. rewrite Hid, Hm, Hdup. reflexivity.
      * intros s Hin. right. auto.
    + destruct (unique_roles (i :: seen) rs) as [[seen1 kept1]| |] eqn:Hrec;
        try discriminate.
      simpl in H. injection H as <- <-.
      destruct (IH (i :: seen) seen1 kept1 Hrec) as (Hd & Hn & Hm & Hc & Hs).
      assert (Hself : py_eq_atom i i = true) by (apply py_eq_atom_refl; exact Hh).
      split; [|split; [|split; [|split]]].
      * simpl. rewrite Hid. split; [|exact Hd].
        apply Forall_map. eapply Forall_impl; [|exact Hn].
        intros k Hk. simpl in Hk. apply orb_false_iff in Hk. tauto.
      * constructor; [rewrite Hid; exact Hdup|].
        eapply Forall_impl; [|exact Hn].
        intros k Hk. simpl in Hk. apply orb_false_iff in Hk. tauto.
      * intros x. rewrite Hm. simpl. rewrite Hid.
        destruct (py_eq_atom x i), (existsb (py_eq_atom x) seen); reflexivity.
      * constructor; [|exact Hc].
        rewrite Hid, Hm. simpl. rewrite Hself. reflexivity.
      * intros s [<-|Hin]; [left; reflexivity | right; auto].
Qed.

Lemma filter_roles_facts categories : forall seen filtered,
  filter_roles seen categories = Ret filtered ->
  ids_distinct (map id_of (concat filtered))
  /\ Forall (fun r => existsb (py_eq_atom (id_of r)) seen = false)
            (concat filtered)
  /\ Forall (fun g => g <> []) filtered
  /\ (forall c rs r, In c categories -> roles_of c = Ret rs -> In r rs ->
        existsb (py_eq_atom (id_of r)) (seen ++ map id_of (concat filtered))
        = true)
  /\ (forall s, In s (concat filtered) ->
        exists c rs, In c categories /\ roles_of c = Ret rs /\ In s rs).
Proof.
  induction categories as [|c cs IH]; intros seen filtered H; simpl in H.
  - injection H as <-. simpl.
    split; [exact I | split; [constructor | split; [constructor | split]]].
    + intros c rs r [].
    + intros s [].
  - fold (roles_of c) in H.
    destruct (roles_of c) as [rs| |] eqn:Hrs; try discriminate. simpl in H.
    destruct (unique_roles seen rs) as [[seen1 kept]| |] eqn:Hu;
      try discriminate.
    simpl in H.
    destruct (filter_roles seen1 cs) as [rest| |] eqn:Hrest; try discriminate.
    simpl in H.
    destruct (unique_roles_facts rs seen seen1 kept Hu)
      as (Hd1 & Hn1 & Hm1 & Hc1 & Hs1).
    destruct (IH seen1 rest Hrest) as (Hd2 & Hn2 & Hg2 & Hc2 & Hs2).
    assert (Hconcat : concat filtered = kept ++ concat rest).
    { destruct kept; injection H as <-; reflexivity. }
    assert (Hlater : Forall (fun r => existsb (py_eq_atom (id_of r)) seen = false
                                      /\ existsb (py_eq_atom (id_of r))
                                                 (map id_of kept) = false)
                            (concat rest)).
    { eapply Forall_impl; [|exact Hn2].
      intros r Hr. cbv beta in Hr. rewrite Hm1 in Hr.
      apply orb_false_iff in Hr. exact Hr. }
    rewrite Hconcat. split; [|split; [|split; [|split]]].
    + rewrite map_app. apply ids_distinct_app; auto.
      apply Forall_forall. intros j Hj.
      apply in_map_iff in Hj as (r & <- & Hr).
      rewrite Forall_forall in Hlater. apply (Hlater r Hr).
    + apply Forall_app. split; [exact Hn1|].
      apply Forall_forall. intros r Hr.
      rewrite Forall_forall in Hlater. apply (Hlater r Hr).
    + destruct kept; injection H as <-; auto.
      constructor; [discriminate | exact Hg2].
    + intros c' rs' r [<-|Hin] Hrs' Hr.
      * rewrite Hrs in Hrs'. injection Hrs' as <-.
        rewrite Forall_forall in Hc1. specialize (Hc1 r Hr).
        rewrite Hm1 in Hc1. rewrite map_app, !existsb_app.
        apply orb_true_iff in Hc1 as [Hc1|Hc1]; rewrite Hc1;
          rewrite ?orb_true_r; reflexivity.
      * specialize (Hc2 c' rs' r Hin Hrs' Hr).
        rewrite existsb_app, Hm1 in Hc2. rewrite map_app, !existsb_app.
        rewrite <- orb_assoc in Hc2. exact Hc2.
    + intros s Hin. apply in_app_or in Hin as [Hin|Hin].
      * exists c, rs. split; [left; reflexivity | split; [exact Hrs | auto]].
      * destruct (Hs2 s Hin) as (c' & rs' & Hc' & Hrs' & Hs').
        exists c', rs'. split; [right; exact Hc' | auto].
Qed.

(** X15. Whenever the role de-duplication comes to an end, no two surviving
    roles have equal ids (equal as Python compares them, so that [1] and
    [True] are the same id while [1] and ['1'] are not), every surviving
    role is one of the listed roles, every listed role has its id among the
    survivors, and no emptied category is kept. *)
Theorem filtered_roles_have_each_id_once :
  forall (professional_roles : json) (filtered_roles : list (list json)),
    filtered_roles_of professional_roles = Ret filtered_roles ->
    ids_distinct (map id_of (concat filtered_roles))
    /\ Forall (fun roles => roles <> []) filtered_roles
    /\ (forall categories c rs r,
          py_iter professional_roles = Ret categories ->
          In c categories -> roles_of c = Ret rs -> In r rs ->
          existsb (py_eq_atom (id_of r)) (map id_of (concat filtered_roles))
          = true)
    /\ (forall categories s,
          py_iter professional_roles = Ret categories ->
          In s (concat filtered_roles) ->
          exists c rs, In c categories /\ roles_of c = Ret rs /\ In s rs).
Proof.
  intros roles filtered H. unfold filtered_roles_of in H.
  destruct (py_iter roles) as [categories| |] eqn:Hiter; try discriminate.
  simpl in H.
  destruct (filter_roles_facts categories [] filtered H)
    as (Hd & _ & Hg & Hc & Hs).
  repeat split; auto.
  - intros categories' c rs r [= <-]. apply (Hc c rs r).
  - intros categories' s [= <-]. apply Hs.
Qed.

Lemma filtered_roles_have_each_id_once_witness :
  filtered_roles_of mixed_id_categories
  = Ret [[JDict [("id", JInt 1)]; JDict [("id", JStr "1")]]]
  /\ ids_distinct [JInt 1; JStr "1"].
Proof.
  split; [reflexivity|].
  apply (proj1 (filtered_roles_have_each_id_once mixed_id_categories
                  [[JDict [("id", JInt 1)]; JDict [("id", JStr "1")]]]
                  eq_refl)).
Defined.

Lemma unique_roles_returns roles : forall seen r,
  unique_roles seen roles = Ret r ->
  Forall (fun role => role_id role <> None) roles.
Proof.
  induction roles as [|role rs IH]; intros seen r H; simpl in H; auto.
  destruct (py_getitem role "id") as [i| |] eqn:Hi; try discriminate.
  simpl in H. unfold set_contains in H.
  destruct (hashable i) eqn:Hh; try discriminate. simpl in H.
  constructor.
  - unfold role_id. rewrite Hi, Hh. discriminate.
  - destruct (existsb (py_eq_atom i) seen); [eapply IH; exact H|].
    destruct (unique_roles (i :: seen) rs) as [r'| |] eqn:Hrec;
      try discriminate.
    eapply IH. exact Hrec.
Qed.

Lemma filter_roles_returns categories : forall seen filtered,
  filter_roles seen categories = Ret filtered ->
  Forall well_formed_category categories.
Proof.
  induction categories as [|c cs IH]; intros seen filtered H; simpl in H; auto.
  fold (roles_of c) in H.
  destruct (roles_of c) as [rs| |] eqn:Hrs; try discriminate. simpl in H.
  destruct (unique_roles seen rs) as [r| |] eqn:Hu; try discriminate.
  simpl in H.
  destruct (filter_roles (fst r) cs) as [rest| |] eqn:Hrest; try discriminate.
  constructor.
  - exists rs. split; [exact Hrs | eapply unique_roles_returns; exact Hu].
  - eapply IH. exact Hrest.
Qed.

Lemma well_formed_groups categories :
  Forall well_formed_category categories ->
  exists groups,
    Forall2 (fun c g => obind (py_getitem c "roles") py_iter = Ret g)
            categories groups
    /\ Forall (Forall (fun r => role_id r <> None)) groups.
Proof.
  induction 1 as [|c cs (rs & Hrs & Hwf) _ (groups & H2 & Hall)].
  - exists []. split; constructor.
  - exists (rs :: groups). split; constructor; auto.
Qed.

(** X16. The role de-duplication returns exactly when every category has a
    ['roles'] entry that can be iterated and every role in it has an id
    that can be put in a set; a single category without roles, role without
    an id, or id that is a list or an object makes it raise, and the sweep
    with it. *)
Theorem filtered_roles_of_returns_iff_well_formed :
  forall (categories : list json),
    ((exists filtered_roles,
         filtered_roles_of (JList categories) = Ret filtered_roles)
     <-> Forall well_formed_category categories)
    /\ (~ Forall well_formed_category categories ->
        exists e, filtered_roles_of (JList categories) = Raise e).
Proof.
  intros categories.
  assert (Hiff : (exists filtered,
                     filtered_roles_of (JList categories) = Ret filtered)
                 <-> Forall well_formed_category categories).
  { split.
    - intros [filtered H]. unfold filtered_roles_of in H. simpl in H.
      eapply filter_roles_returns. exact H.
    - intros Hwf. destruct (well_formed_groups categories Hwf)
        as (groups & H2 & Hall).
      eexists. unfold filtered_roles_of. simpl.
      apply (filter_roles_spec categories groups [] [] H2 Hall).
      intros r i _. reflexivity. }
  split; [exact Hiff|].
  intros Hbad.
  destruct (filtered_roles_of (JList categories)) as [filtered|e|] eqn:Hrun.
  - exfalso. apply Hbad, Hiff. exists filtered. reflexivity.
  - exists e. reflexivity.
  - exfalso. unfold filtered_roles_of in Hrun. simpl in Hrun.
    clear Hbad Hiff. revert Hrun. generalize (@nil json).
    induction categories as [|c cs IH]; intros seen H; simpl in H;
      [discriminate|].
    destruct (py_getitem c "roles") as [v| |] eqn:Hg; try discriminate;
      [|destruct c; simpl in Hg; try discriminate;
        destruct (dict_get "roles" d); discriminate].
    simpl in H.
    destruct (py_iter v) as [rs| |] eqn:Hiter;
      try discriminate; [|destruct v; discriminate].
    simpl in H.
    assert (Hfuel : forall rs seen, unique_roles seen rs <> OutOfFuel).
    { clear. induction rs as [|r rs IHr]; intros seen; simpl; [discriminate|].
      destruct (py_getitem r "id") as [i| |] eqn:Hi; simpl; try discriminate.
      - unfold set_contains. destruct (hashable i); simpl; [|discriminate].
        destruct (existsb (py_eq_atom i) seen); [apply IHr|].
        specialize (IHr (i :: seen)).
        destruct (unique_roles (i :: seen) rs); simpl; try discriminate.
        contradiction.
      - destruct r; simpl in Hi; try discriminate.
        destruct (dict_get "id" d); discriminate. }
    specialize (Hfuel rs seen).
    destruct (unique_roles seen rs) as [r| |]; try discriminate;
      [|contradiction].
    simpl in H. specialize (IH (fst r)).
    destruct (filter_roles (fst r) cs); try discriminate. apply IH. reflexivity.
Qed.

Lemma filtered_roles_of_returns_iff_well_formed_witness :
  exists e,
    filtered_roles_of (JList [category_of [role_with_id 1; JDict []]])
    = Raise e.
Proof.
  apply (proj2 (filtered_roles_of_returns_iff_well_formed
                  [category_of [role_with_id 1; JDict []]])).
  intros Hwf. inversion Hwf as [|? ? (rs & Hrs & Hall) _]; subst.
  injection Hrs as <-.
  inversion Hall as [|? ? _ Hrest]; subst.
  inversion Hrest as [|? ? Hbad _]; subst.
  apply Hbad. reflexivity.
Defined.

(** ** The token on the wire *)

Lemma save_vacancy_emits_no_get (E : env) area vacancy counts w :
  exists new,
    trace (snd (save_vacancy E area vacancy counts w)) = new ++ trace w
    /\ Forall (fun ev => is_get ev = false) new.
Proof.
  destruct counts as [i dups].
  destruct vacancy as [| | | | |d];
    try (exists []; split; [reflexivity | constructor]).
  destruct (dict_get "id" d) as [vid|] eqn:Hid.
  - rewrite (save_vacancy_cases E area d vid i dups w Hid).
    destruct (existsb _ (db w));
      [| destruct (insert_fails E (S (S (tick w))) _)].
    + eexists [_]. split; [reflexivity | repeat constructor].
    + eexists [_; _]. split; [reflexivity | repeat constructor].
    + eexists [_; _]. split; [reflexivity | repeat constructor].
  - rewrite (save_vacancy_without_id E area (JDict d) (i, dups) w Hid).
    exists []. split; [reflexivity | constructor].
Qed.

Lemma authorized_steps_invariant (E : env) :
  step_invariant E (authorized_steps E).
Proof.
  constructor.
  - intros w. split; [left; reflexivity|]. exists []. auto.
  - intros w1 w2 w3 [Hh1 (n1 & Ht1 & Hq1)] [Hh2 (n2 & Ht2 & Hq2)]. split.
    + destruct Hh2 as [Hh2|Hh2]; [rewrite Hh2; exact Hh1 | right; exact Hh2].
    + exists (n2 ++ n1). rewrite Ht2, Ht1, app_assoc.
      split; [reflexivity|]. apply Forall_app. split; [|exact Hq1].
      eapply Forall_impl; [|exact Hq2].
      intros [e a| | | | |]; simpl; auto.
      intros [->|Hi]; [exact Hh1 | right; exact Hi].
  - intros m w. split; [left; reflexivity|].
    exists [EvNotify m]. split; [reflexivity | repeat constructor].
  - intros e w. split; [left; reflexivity|].
    exists [EvGet e (headers w)]. split; [reflexivity|].
    constructor; [left; reflexivity | constructor].
  - intros w. refresh_cases E w H; rewrite H; simpl;
      try (split; [left; reflexivity|];
           exists [EvPostToken]; split; [reflexivity | repeat constructor]).
    all: try discriminate Hb.
    all: (split;
          [right; exists (tick w), c, d; split; [exact Hpost|]; simpl;
           destruct (dict_get "access_token" d);
           [congruence | discriminate Htok]|]).
    all: first [ exists [EvPostToken]; split; [reflexivity | repeat constructor]
               | eexists [EvSetKey _; EvPostToken];
                 split; [reflexivity | repeat constructor] ].
  - intros area vacancy counts w.
    destruct (save_vacancy_client_unchanged E area vacancy counts w)
      as (_ & Hh & _).
    destruct (save_vacancy_emits_no_get E area vacancy counts w)
      as (new & Ht & Hq).
    split; [left; exact Hh|].
    exists new. split; [exact Ht|].
    eapply Forall_impl; [|exact Hq].
    intros [e a| | | | |]; simpl; auto. discriminate.
Qed.

(** X17. Every GET of a run carries, as its bearer token, either the token
    the client was constructed with or a token that the OAuth endpoint
    issued in an ['access_token'] field; no other value is ever sent. *)
Theorem main_sends_only_known_tokens :
  forall (E : env) (token : json) (regions : list string) (fuel : nat)
         (w : world),
    exists new,
      trace (snd (main E token regions fuel w)) = new ++ trace w
      /\ Forall (carries E token) new.
Proof.
  intros E token regions fuel w. unfold main.
  destruct (keeps_sweep E (authorized_steps E) (authorized_steps_invariant E)
              regions fuel (ApiHhRu_init token w)) as [_ H].
  exact H.
Qed.

(** ** Entries without a name *)

(** X18. The de-duplication reads only the id of a role, the sweep also its
    name: when the first surviving role is an object without a ['name'],
    the sweep announces the first area and then raises [KeyError] before
    anything is requested for that role; no vacancy is fetched or stored. *)
Theorem sweep_raises_at_role_without_name :
  forall (E : env) (AREAS : list string) (fuel : nat) (w : world)
         (area : json) (areas : list json) (w1 : world) (roles : json)
         (w2 : world) (fields : dict) (group : list json)
         (groups : list (list json)),
    fetch_areas E AREAS w = (Ret (area :: areas), w1) ->
    has_entry area ->
    fetch_professional_roles E w1 = (Ret roles, w2) ->
    py_bool roles = true ->
    filtered_roles_of roles = Ret ((JDict fields :: group) :: groups) ->
    dict_get "name" fields = None ->
    telegram_fails E (tick w2)
      (MsgProcessingArea (name_of area) (id_of area)) = false ->
    fetch_and_store_vacancies E AREAS fuel w
    = (Raise (KeyError "name"),
       after_event (EvNotify (MsgProcessingArea (name_of area) (id_of area)))
                   w2).
Proof.
  intros E AREAS fuel w area areas w1 roles w2 fields group groups
         Hareas (an & ai & Han & Hai) Hroles Htruthy Hfiltered Hname Htg.
  destruct (entry_names an ai area (conj Han Hai)) as [Hn Hi].
  rewrite Hn, Hi in *.
  assert (Hrole : forall w0,
             process_role E fuel area (JDict fields) w0
             = (Raise (KeyError "name"), w0)).
  { intros w0. unfold process_role. apply bind_raise_l.
    unfold lift. simpl. rewrite Hname. reflexivity. }
  assert (Harea : process_area E fuel ((JDict fields :: group) :: groups) area w2
                  = (Raise (KeyError "name"),
                     after_event (EvNotify (MsgProcessingArea an ai)) w2)).
  { unfold process_area.
    rewrite (bind_lift_ret _ an) by exact Han.
    rewrite (bind_lift_ret _ ai) by exact Hai.
    erewrite bind_ret_l; [|rewrite bot_send_message_run, Htg; reflexivity].
    simpl for_each. apply bind_raise_l. apply bind_raise_l. apply Hrole. }
  unfold fetch_and_store_vacancies.
  rewrite (bind_ret_l _ _ _ _ _ Hareas). cbv beta.
  change (negb (py_bool (JList (area :: areas)))) with false. cbv iota.
  rewrite (bind_ret_l _ _ _ _ _ Hroles). cbv beta.
  rewrite Htruthy. change (negb true) with false. cbv iota.
  rewrite (bind_lift_ret _ ((JDict fields :: group) :: groups))
    by exact Hfiltered.
  simpl for_each. apply bind_raise_l. exact Harea.
Qed.

Lemma sweep_raises_at_role_without_name_witness :
  fst (fetch_and_store_vacancies (serving nameless_role_upstream) ["Москва"] 1
         initial_world) = Raise (KeyError "name").
Proof.
  refine (f_equal fst
            (sweep_raises_at_role_without_name
               (serving nameless_role_upstream) ["Москва"] 1 initial_world
               (JDict [("id", JStr "1"); ("name", JStr "Москва")]) []
               (snd (fetch_areas (serving nameless_role_upstream) ["Москва"]
                       initial_world))
               (JList [JDict [("roles", JList [JDict [("id", JStr "96")]])]])
               (snd (fetch_professional_roles (serving nameless_role_upstream)
                       (snd (fetch_areas (serving nameless_role_upstream)
                               ["Москва"] initial_world))))
               [("id", JStr "96")] [] [] _ _ _ _ _ _ _)).
  - reflexivity.
  - eexists. eexists. split; reflexivity.
  - reflexivity.
  - reflexivity.
  - reflexivity.
  - reflexivity.
  - reflexivity.
Defined.

(** ** A refreshed token stays in use *)

Lemma get_first_request (E : env) e w :
  exists new,
    trace (snd (_get E e w)) = new ++ EvGet e (headers w) :: trace w.
Proof.
  destruct (http_get E (tick w) e (headers w)) as [|c body] eqn:Hr.
  - rewrite get_first_reply_other by (rewrite Hr; exact I). exists []. reflexivity.
  - destruct (Z.eq_dec c 401) as [->|Hne].
    + rewrite (get_first_reply_401 E e w body Hr).
      destruct (refresh_access_token_emits E e (after_event (EvGet e (headers w)) w))
        as (n2 & Ht & _).
      destruct (refresh_access_token E (after_event (EvGet e (headers w)) w))
        as [[[|]|ex|] w2]; simpl in Ht |- *.
      * exists (EvGet e (headers w2) :: n2). rewrite Ht. reflexivity.
      * exists n2. exact Ht.
      * exists n2. destruct (is_RequestException ex); exact Ht.
      * exists n2. exact Ht.
    + rewrite get_first_reply_other by (rewrite Hr; exact Hne).
      exists []. reflexivity.
Qed.

(** X19. A token obtained by a refresh stays in use: after a [_get] whose
    401 was answered by a successful refresh, the client holds the new token
    as its header, and the next [_get], for whatever endpoint, sends that
    token with its first request; when the server accepts it, that request
    is the only call the next [_get] makes. *)
Theorem refreshed_token_is_reused :
  forall (E : env) (e1 e2 : endpoint) (w : world) (body : json) (w2 : world),
    http_get E (tick w) e1 (headers w) = Response 401 body ->
    refresh_access_token E (after_event (EvGet e1 (headers w)) w)
    = (Ret true, w2) ->
    let w' := snd (_get E e1 w) in
    headers w' = ACCESS_TOKEN w2
    /\ (exists new,
           trace (snd (_get E e2 w'))
           = new ++ EvGet e2 (ACCESS_TOKEN w2) :: trace w')
    /\ (forall c reply,
          http_get E (tick w') e2 (ACCESS_TOKEN w2) = Response c reply ->
          c <> 401%Z ->
          trace (snd (_get E e2 w')) = EvGet e2 (ACCESS_TOKEN w2) :: trace w').
Proof.
  intros E e1 e2 w body w2 H401 Href w'.
  assert (Hh : headers w' = ACCESS_TOKEN w2).
  { subst w'. rewrite (get_first_reply_401 E e1 w body H401), Href. simpl.
    destruct (refresh_access_token_trace E (after_event (EvGet e1 (headers w)) w))
      as (Htrue & _).
    rewrite Href in Htrue. destruct (Htrue eq_refl) as [_ Hh]. exact Hh. }
  split; [exact Hh | split].
  - rewrite <- Hh. apply get_first_request.
  - intros c reply Hrep Hc. rewrite <- Hh in *.
    rewrite get_first_reply_other; [reflexivity|].
    rewrite Hrep. exact Hc.
Qed.

Lemma refreshed_token_is_reused_witness :
  trace (snd (_get (expiring (fun _ => JNull)) ProfessionalRoles
                (snd (_get (expiring (fun _ => JNull)) Countries
                        initial_world))))
  = EvGet ProfessionalRoles (JStr "t1")
    :: trace (snd (_get (expiring (fun _ => JNull)) Countries initial_world)).
Proof.
  refine (proj2 (proj2 (refreshed_token_is_reused (expiring (fun _ => JNull))
                          Countries ProfessionalRoles initial_world JNull
                          (snd (refresh_access_token (expiring (fun _ => JNull))
                                  (after_event (EvGet Countries (JStr "t0"))
                                               initial_world)))
                          _ _))
                200%Z JNull _ _).
  - reflexivity.
  - reflexivity.
  - reflexivity.
  - discriminate.
Defined.
